(** * go-mysql-server: plan builder, indexed table access, column defaults

    A shallow embedding of the parts of the engine that the specification
    makes checkable statements about:

    - [sql.QuoteIdentifier], [sql.GenerateCreateTable...] (package sql, create-table helpers)
    - [sql.ColumnDefaultValue]                   (package sql, column defaults)
    - [planbuilder.getFrame...]                  (sql/planbuilder/window_frame_factory.go)
    - [planbuilder.buildFrom], [buildJoin], [buildNaturalJoin], [buildUnion]
                                                 (sql/planbuilder/from.go)
    - [plan.LookupBuilder], [plan.IndexedTableAccess] (package plan)
    - [memory.BaseDatabase], [Database], [HistoryDatabase] (memory/database.go)

    Go values of interface type are nil or a value, so they are [option]s
    here; pointers likewise.  A call ends in one of three ways: it returns
    normally, it returns a non-nil [error], or it panics (nil dereference,
    index out of range).  Slices indexed by position are lists read with
    [!!] and written with [<[i:=x]>], with the bounds check written out. *)

From stdpp Require Import base list strings gmap.
From Stdlib Require Import Ascii.
From Stdlib Require String.

Set Warnings "-register-all".

Set Default Proof Using "Type".

(* ===================================================================== *)
(** * Outcomes of Go calls *)
(* ===================================================================== *)

(** The error kinds of [go-errors] that the modelled functions create, and
    [fmt.Errorf] errors, which carry only their text.  The arguments that
    [Kind.New] formats into the message are left out. *)
Inductive Error : Type :=
  | ErrInvalidLookupForIndexedTable
  | ErrColumnDefaultReturnedNull
  | ErrIncompatibleDefaultType
  | ErrValueOutOfRange
  | ErrInvalidChildrenNumber
  | ErrConflictingExternalQuery
  | Errorf (msg : string)
  | ErrWrapped (outer inner : Error).

Inductive result (A : Type) : Type :=
  | Ok (a : A)
  | Err (e : Error)
  | Panic.
Arguments Ok {A} a.
Arguments Err {A} e.
Arguments Panic {A}.

#[global] Instance result_ret : MRet result := λ A a, Ok a.
#[global] Instance result_bind : MBind result := λ A B f m,
  match m with
  | Ok a => f a
  | Err e => Err e
  | Panic => Panic
  end.

(** Dereferencing a pointer, or calling a method through a nil interface. *)
Definition deref {A} (p : option A) : result A :=
  match p with
  | Some a => Ok a
  | None => Panic
  end.

(** [s[i]] on a slice. *)
Definition index {A} (s : list A) (i : nat) : result A := deref (s !! i).

(** [s[i] = x] on a slice. *)
Definition store {A} (s : list A) (i : nat) (x : A) : result (list A) :=
  if decide (i < length s) then Ok (<[i:=x]> s) else Panic.

Definition is_ok {A} (r : result A) : bool :=
  match r with Ok _ => true | _ => false end.

(* ===================================================================== *)
(** * Values, types and expressions of package sql *)
(* ===================================================================== *)

Module Sql.
Section Sql.
(** [V] is the type of non-nil values an [interface{}] can hold, [Ctx]
    the type of [*sql.Context]. *)
Variables (V Ctx : Type).

(** [sql.Type], as far as the modelled code calls it.  [Convert] returns
    Go's triple [(value, inRange, err)]. *)
Record SqlType : Type := {
  Zero : option V;
  Convert : option V → option V * bool * option Error;
}.

(** [sql.Row], a slice of values; the nil row is the empty one. *)
Definition Row : Type := list (option V).

(** [sql.Expression]: an interface, given by what its methods answer.
    [Eval] and [Type] can panic (placeholder nodes do).  [DebugString] is
    what [sql.DebugString] prints for the expression. *)
Inductive Expression : Type := MkExpression {
  Children : list Expression;
  Eval : Ctx → Row → result (option V);
  IsNullable : bool;
  Resolved : bool;
  String : string;
  DebugString : string;
  Type_ : result (option SqlType);
}.
End Sql.

Arguments Zero {V} _.
Arguments Convert {V} _ _.
Arguments MkExpression {V Ctx}.
Arguments Children {V Ctx} _.
Arguments Eval {V Ctx} _ _ _.
Arguments IsNullable {V Ctx} _.
Arguments Resolved {V Ctx} _.
Arguments String {V Ctx} _.
Arguments DebugString {V Ctx} _.
Arguments Type_ {V Ctx} _.
End Sql.

(* ===================================================================== *)
(** * sql.QuoteIdentifier *)
(* ===================================================================== *)

Module Quote.

(** [strings.ReplaceAll(s, old, new)] for a non-empty [old]: scan from the
    left, replace each occurrence and continue after it.  [skip] counts the
    bytes of a matched occurrence still to be dropped.  (For an empty
    [old] Go inserts [new] around every UTF-8 sequence; that case decodes
    runes and is written here for single-byte runes only.) *)
Fixpoint replaceFrom (old new : string) (skip : nat) (s : string) : string :=
  match s with
  | EmptyString => EmptyString
  | String c s' =>
      match skip with
      | S k => replaceFrom old new k s'
      | O =>
          if String.prefix old s
          then new +:+ replaceFrom old new (String.length old - 1) s'
          else String c (replaceFrom old new 0 s')
      end
  end.

Fixpoint intersperse (new : string) (s : string) : string :=
  match s with
  | EmptyString => new
  | String c s' => new +:+ String c (intersperse new s')
  end.

Definition ReplaceAll (s old new : string) : string :=
  match old with
  | EmptyString => intersperse new s
  | _ => replaceFrom old new 0 s
  end.

(** [func QuoteIdentifier(id string) string] *)
Definition QuoteIdentifier (id : string) : string :=
  let id := ReplaceAll id "`" "``" in
  "`" +:+ id +:+ "`".

(** [func QuoteIdentifiers(ids []string) []string] *)
Definition QuoteIdentifiers (ids : list string) : list string :=
  map QuoteIdentifier ids.

(** The specification's wording: every backtick replaced by two backticks,
    every other byte kept. *)
Fixpoint double_backticks (s : string) : string :=
  match s with
  | EmptyString => EmptyString
  | String c s' =>
      if Ascii.eqb c "`"%char
      then String "`" (String "`" (double_backticks s'))
      else String c (double_backticks s')
  end.

Lemma prefix_empty (s : string) : String.prefix "" s = true.
Proof. now destruct s. Qed.

Lemma replaceFrom_backtick (s : string) :
  replaceFrom "`" "``" 0 s = double_backticks s.
Proof.
  induction s as [|c s IH]; [reflexivity|].
  cbn [replaceFrom double_backticks String.prefix String.length].
  destruct (Ascii.ascii_dec "`"%char c) as [<-|Hne].
  - rewrite prefix_empty. cbn. now rewrite IH.
  - assert (Ascii.eqb c "`"%char = false) as ->.
    { apply Ascii.eqb_neq. congruence. }
    now rewrite IH.
Qed.

(** Escaped strings can be told apart: the escaping is injective. *)
Lemma double_backticks_inj (s t : string) :
  double_backticks s = double_backticks t → s = t.
Proof.
  revert t. induction s as [|c s IH]; intros [|d t]; cbn [double_backticks].
  - reflexivity.
  - destruct (Ascii.eqb d "`"%char); discriminate.
  - destruct (Ascii.eqb c "`"%char); discriminate.
  - destruct (Ascii.eqb c "`"%char) eqn:Hc, (Ascii.eqb d "`"%char) eqn:Hd.
    + apply Ascii.eqb_eq in Hc, Hd. subst.
      intros [= H]. f_equal. now apply IH.
    + apply Ascii.eqb_eq in Hc. subst c.
      intros [= Hd' H]. subst d. discriminate Hd.
    + apply Ascii.eqb_eq in Hd. subst d.
      intros [= Hc' H]. subst c. discriminate Hc.
    + intros [= -> H]. f_equal. now apply IH.
Qed.

Lemma length_app_string (s t : string) :
  String.length (s +:+ t) = String.length s + String.length t.
Proof. induction s as [|c s IH]; simpl; [reflexivity | now rewrite IH]. Qed.

Lemma append_inj_r (s t u : string) : s +:+ u = t +:+ u → s = t.
Proof.
  revert t. induction s as [|c s IH]; intros [|d t]; simpl.
  - reflexivity.
  - intros H. apply (f_equal String.length) in H.
    rewrite !length_app_string in H. simpl in H. lia.
  - intros H. apply (f_equal String.length) in H.
    rewrite !length_app_string in H. simpl in H. lia.
  - intros [= -> H]. f_equal. now apply IH.
Qed.

(** ** C10 *)

(** C10.  For every identifier [s], [QuoteIdentifier s] is a backtick, then
    [s] with every backtick doubled, then a closing backtick; and two
    distinct identifiers never get the same quoted form. *)
Theorem QuoteIdentifier_shape_and_injective :
  (∀ s : string,
      QuoteIdentifier s = "`" +:+ double_backticks s +:+ "`")
  ∧ (∀ s t : string, QuoteIdentifier s = QuoteIdentifier t → s = t).
Proof.
  assert (Hshape : ∀ s, QuoteIdentifier s = "`" +:+ double_backticks s +:+ "`").
  { intros s. unfold QuoteIdentifier, ReplaceAll.
    now rewrite replaceFrom_backtick. }
  split; [exact Hshape|].
  intros s t. rewrite !Hshape. intros H.
  change (String "`" (double_backticks s +:+ "`")
          = String "`" (double_backticks t +:+ "`")) in H.
  injection H as H.
  apply append_inj_r in H. now apply double_backticks_inj.
Qed.

Example QuoteIdentifier_plain : QuoteIdentifier "tbl" = "`tbl`".
Proof. reflexivity. Qed.

Example QuoteIdentifier_backtick : QuoteIdentifier "a`b" = "`a``b`".
Proof. reflexivity. Qed.

(** ** The other CREATE TABLE helpers *)

(** [strings.Join(elems, sep)] *)
Fixpoint Join (elems : list string) (sep : string) : string :=
  match elems with
  | [] => ""
  | e :: rest =>
      match rest with
      | [] => e
      | _ => e +:+ sep +:+ Join rest sep
      end
  end.

(** [func GenerateCreateTableStatement(tblName string, colStmts []string, tblCharsetName, tblCollName string) string] *)
Definition GenerateCreateTableStatement (tblName : string) (colStmts : list string)
    (tblCharsetName tblCollName : string) : string :=
  "CREATE TABLE " +:+ QuoteIdentifier tblName +:+ " (" +:+ String "010" ""
  +:+ Join colStmts ("," +:+ String "010" "") +:+ String "010" ""
  +:+ ") ENGINE=InnoDB DEFAULT CHARSET=" +:+ tblCharsetName
  +:+ " COLLATE=" +:+ tblCollName.

(** [func GenerateCreateTablePrimaryKeyDefinition(pkCols []string) string] *)
Definition GenerateCreateTablePrimaryKeyDefinition (pkCols : list string) : string :=
  "  PRIMARY KEY (" +:+ Join (QuoteIdentifiers pkCols) "," +:+ ")".

(** [func GenerateCreateTableIndexDefinition(isUnique, isSpatial bool, indexID string, indexCols []string, comment string) string].
    For a spatial index the source assigns ["SPATIAL "] to [unique], not to
    [spatial]. *)
Definition GenerateCreateTableIndexDefinition (isUnique isSpatial : bool)
    (indexID : string) (indexCols : list string) (comment : string) : string :=
  let unique := if isUnique then "UNIQUE " else "" in
  let spatial := "" in
  let unique := if isSpatial then "SPATIAL " else unique in
  let key := "  " +:+ unique +:+ spatial +:+ "KEY " +:+ QuoteIdentifier indexID
             +:+ " (" +:+ Join indexCols "," +:+ ")" in
  if negb (String.eqb comment "") then key +:+ " COMMENT '" +:+ comment +:+ "'"
  else key.

(** [func GenerateCreateTableForiegnKeyDefinition(fkName string, fkCols []string, parentTbl string, parentCols []string, onDelete, onUpdate string) string] *)
Definition GenerateCreateTableForiegnKeyDefinition (fkName : string) (fkCols : list string)
    (parentTbl : string) (parentCols : list string) (onDelete onUpdate : string) : string :=
  let keyCols := Join (QuoteIdentifiers fkCols) "," in
  let refCols := Join (QuoteIdentifiers parentCols) "," in
  let fkey := "  CONSTRAINT " +:+ QuoteIdentifier fkName +:+ " FOREIGN KEY (" +:+ keyCols
              +:+ ") REFERENCES " +:+ QuoteIdentifier parentTbl +:+ " (" +:+ refCols +:+ ")" in
  let fkey := if negb (String.eqb onDelete "") then fkey +:+ " ON DELETE " +:+ onDelete
              else fkey in
  if negb (String.eqb onUpdate "") then fkey +:+ " ON UPDATE " +:+ onUpdate else fkey.

(** [func GenerateCreateTableCheckConstraintClause(checkName, checkExpr string, enforced bool) string] *)
Definition GenerateCreateTableCheckConstraintClause (checkName checkExpr : string)
    (enforced : bool) : string :=
  let cc := "  CONSTRAINT " +:+ QuoteIdentifier checkName +:+ " CHECK (" +:+ checkExpr +:+ ")" in
  if negb enforced then cc +:+ " /*!80016 NOT ENFORCED */" else cc.

(** Number of backticks in a string. *)
Fixpoint backticks (s : string) : nat :=
  match s with
  | EmptyString => 0
  | String c s' => (if Ascii.eqb c "`"%char then 1 else 0) + backticks s'
  end.

Lemma app_String (c : ascii) (s t : string) : String c s +:+ t = String c (s +:+ t).
Proof. reflexivity. Qed.

Lemma app_empty_l (t : string) : "" +:+ t = t.
Proof. reflexivity. Qed.

Lemma QuoteIdentifier_double (s : string) :
  QuoteIdentifier s = String "`" (double_backticks s +:+ "`").
Proof.
  unfold QuoteIdentifier, ReplaceAll. now rewrite replaceFrom_backtick.
Qed.

Lemma length_double_backticks (s : string) :
  String.length (double_backticks s) = String.length s + backticks s.
Proof.
  induction s as [|c s IH]; [reflexivity|]. cbn [double_backticks backticks].
  destruct (Ascii.eqb c "`"%char); cbn [String.length]; rewrite IH; lia.
Qed.

Lemma backticks_le (s : string) : backticks s ≤ String.length s.
Proof.
  induction s as [|c s IH]; [reflexivity|]. cbn [backticks String.length].
  destruct (Ascii.eqb c "`"%char); lia.
Qed.

(** The quoted identifier is the identifier, the two delimiters, and one
    more byte for each backtick in it: never more than twice the identifier
    plus two. *)
Theorem QuoteIdentifier_length (s : string) :
  String.length (QuoteIdentifier s) = String.length s + backticks s + 2
  ∧ String.length (QuoteIdentifier s) ≤ 2 * String.length s + 2.
Proof.
  rewrite QuoteIdentifier_double. cbn [String.length].
  rewrite length_app_string, length_double_backticks. cbn [String.length].
  pose proof (backticks_le s). lia.
Qed.

(** A string does not begin with a backtick. *)
Definition no_backtick_head (r : string) : Prop :=
  match r with
  | EmptyString => True
  | String c _ => c ≠ "`"%char
  end.

(** Reading a quoted body back: after the doubled body and the closing
    backtick comes text that does not start with a backtick, so the body and
    the rest are both determined. *)
Lemma double_backticks_delimited (s t r r' : string) :
  no_backtick_head r → no_backtick_head r' →
  double_backticks s +:+ String "`" r = double_backticks t +:+ String "`" r' →
  s = t ∧ r = r'.
Proof.
  intros Hr Hr'. revert t.
  induction s as [|c s IH]; intros [|d t]; cbn [double_backticks].
  - rewrite !app_empty_l. intros [= ->]. auto.
  - rewrite app_empty_l. destruct (Ascii.eqb d "`"%char) eqn:Hd.
    + rewrite !app_String. intros [= H]. subst r. cbn in Hr. congruence.
    + rewrite app_String. intros [= <- _]. discriminate Hd.
  - rewrite app_empty_l. destruct (Ascii.eqb c "`"%char) eqn:Hc.
    + rewrite !app_String. intros [= H]. subst r'. cbn in Hr'. congruence.
    + rewrite app_String. intros [= -> _]. discriminate Hc.
  - destruct (Ascii.eqb c "`"%char) eqn:Hc, (Ascii.eqb d "`"%char) eqn:Hd;
      rewrite !app_String.
    + apply Ascii.eqb_eq in Hc, Hd. subst c d. intros [= H].
      destruct (IH t H) as [-> ->]. auto.
    + apply Ascii.eqb_eq in Hc. subst c. intros [= <- _]. discriminate Hd.
    + apply Ascii.eqb_eq in Hd. subst d. intros [= -> _]. discriminate Hc.
    + intros [= -> H]. destruct (IH t H) as [-> ->]. auto.
Qed.

Lemma app_assoc_string (s t u : string) : (s +:+ t) +:+ u = s +:+ (t +:+ u).
Proof. induction s as [|c s IH]; [reflexivity|]. rewrite !app_String. now rewrite IH. Qed.

(** What follows the first element of a joined list. *)
Definition joinTail (rest : list string) (r : string) : string :=
  match rest with
  | [] => r
  | _ => String "," (Join rest "," +:+ r)
  end.

Lemma Join_cons_app (e : string) (rest : list string) (r : string) :
  Join (e :: rest) "," +:+ r = e +:+ joinTail rest r.
Proof.
  destruct rest as [|e2 rest]; [reflexivity|].
  cbn [Join joinTail]. now rewrite !app_assoc_string.
Qed.

Lemma joinTail_head (rest : list string) (r : string) :
  no_backtick_head r → no_backtick_head (joinTail rest r).
Proof. destruct rest; cbn; [auto | discriminate]. Qed.

(** A comma-separated list of quoted identifiers, followed by text that
    starts with neither a backtick nor a comma, can be read back. *)
Lemma Join_quoted_delimited (ids ids' : list string) (r r' : string) :
  no_backtick_head r → no_backtick_head r' →
  (∀ r0, r ≠ String "," r0) → (∀ r0, r' ≠ String "," r0) →
  Join (QuoteIdentifiers ids) "," +:+ r = Join (QuoteIdentifiers ids') "," +:+ r' →
  ids = ids' ∧ r = r'.
Proof.
  intros Hr Hr' Hc Hc'. revert ids'.
  induction ids as [|s ids IH]; intros [|t ids'].
  - cbn. rewrite !app_empty_l. auto.
  - cbn [QuoteIdentifiers map]. rewrite Join_cons_app, QuoteIdentifier_double.
    cbn [Join]. rewrite app_empty_l, app_String. intros ->. cbn in Hr. congruence.
  - cbn [QuoteIdentifiers map]. rewrite Join_cons_app, QuoteIdentifier_double.
    cbn [Join]. rewrite app_empty_l, app_String. intros <-. cbn in Hr'. congruence.
  - cbn [QuoteIdentifiers map]. fold (QuoteIdentifiers ids) (QuoteIdentifiers ids').
    rewrite !Join_cons_app, !QuoteIdentifier_double, !app_String, !app_assoc_string.
    intros [= H]. rewrite !app_String, !app_empty_l in H.
    apply double_backticks_delimited in H as [-> H]; [|apply joinTail_head; auto ..].
    destruct ids as [|s2 ids], ids' as [|t2 ids'].
    + cbn in H. auto.
    + cbn [QuoteIdentifiers map joinTail] in H. now apply Hc in H.
    + cbn [QuoteIdentifiers map joinTail] in H. symmetry in H. now apply Hc' in H.
    + cbn [QuoteIdentifiers map joinTail] in H. injection H as H.
      destruct (IH (t2 :: ids') H) as [-> ->]. auto.
Qed.


(** Two different lists of primary-key columns never print the same
    PRIMARY KEY definition, whatever bytes (backticks, commas, parentheses)
    the column names hold. *)
Theorem GenerateCreateTablePrimaryKeyDefinition_injective (pkCols pkCols' : list string) :
  GenerateCreateTablePrimaryKeyDefinition pkCols
  = GenerateCreateTablePrimaryKeyDefinition pkCols' →
  pkCols = pkCols'.
Proof.
  unfold GenerateCreateTablePrimaryKeyDefinition.
  rewrite !app_String, !app_empty_l. intros [= H].
  apply Join_quoted_delimited in H as [-> _]; cbn; try discriminate; auto.
Qed.

Lemma GenerateCreateTablePrimaryKeyDefinition_injective_witness :
  ["a`b"; "c"] = ["a`b"; "c"].
Proof.
  exact (GenerateCreateTablePrimaryKeyDefinition_injective ["a`b"; "c"] ["a`b"; "c"] eq_refl).
Defined.

Example GenerateCreateTablePrimaryKeyDefinition_two :
  GenerateCreateTablePrimaryKeyDefinition ["a`b"; "c"] = "  PRIMARY KEY (`a``b`,`c`)".
Proof. reflexivity. Qed.

Example GenerateCreateTableIndexDefinition_spatial_unique :
  GenerateCreateTableIndexDefinition true true "idx" ["g"] "" = "  SPATIAL KEY `idx` (g)".
Proof. reflexivity. Qed.

End Quote.


(* ===================================================================== *)
(** * sql.ColumnDefaultValue *)
(* ===================================================================== *)

Module ColumnDefault.
Section ColumnDefault.
Context {V Ctx : Type}.

Abbreviation value := (option V).
Abbreviation Expression := (Sql.Expression V Ctx).
Abbreviation SqlType := (Sql.SqlType V).

(** [type ColumnDefaultValue struct].  The embedded [Expression] is an
    interface value and may be nil, as may [OutType]. *)
Record ColumnDefaultValue : Type := {
  Expression_ : option Expression;
  OutType : option SqlType;
  Literal : bool;
  ReturnNil : bool;
  Parenthesized : bool;
}.

(** Methods take a [*ColumnDefaultValue]; the nil pointer is the implicit
    default. *)
Abbreviation ptr := (option ColumnDefaultValue).

(** [func NewColumnDefaultValue(expr, outType, representsLiteral, parenthesized, mayReturnNil)] *)
Definition NewColumnDefaultValue (expr : option Expression) (outType : option SqlType)
    (representsLiteral parenthesized mayReturnNil : bool) : result ptr :=
  Ok (Some {| Expression_ := expr; OutType := outType; Literal := representsLiteral;
              ReturnNil := mayReturnNil; Parenthesized := parenthesized |}).

(** [type UnresolvedColumnDefault struct], as an [Expression]: [Type] and
    [Eval] panic. *)
Definition UnresolvedColumnDefault (exprString : string) : Expression :=
  {| Sql.Children := [];
     Sql.Eval := λ _ _, Panic;
     Sql.IsNullable := true;
     Sql.Resolved := false;
     Sql.String := exprString;
     Sql.DebugString := exprString;
     Sql.Type_ := Panic |}.

(** [func NewUnresolvedColumnDefaultValue(expr string) *ColumnDefaultValue] *)
Definition NewUnresolvedColumnDefaultValue (expr : string) : ptr :=
  Some {| Expression_ := Some (UnresolvedColumnDefault expr); OutType := None;
          Literal := false; ReturnNil := false; Parenthesized := false |}.

(** [func (e *ColumnDefaultValue) Children() []Expression] *)
Definition Children (e : ptr) : result (list (option Expression)) :=
  match e with
  | None => Ok []
  | Some e => Ok [Expression_ e]
  end.

(** [val == nil] *)
Definition is_nil (val : value) : bool :=
  match val with None => true | Some _ => false end.

(** [func (e *ColumnDefaultValue) Eval(ctx *Context, r Row) (interface{}, error)] *)
Definition Eval (e : ptr) (ctx : Ctx) (r : Sql.Row V) : result value :=
  match e with
  | None => Ok None
  | Some e =>
      ex ← deref (Expression_ e);
      val ← Sql.Eval ex ctx r;
      if is_nil val && negb (ReturnNil e) then Err ErrColumnDefaultReturnedNull
      else
        match OutType e with
        | Some outType =>
            let '(val, inRange, err) := Sql.Convert outType val in
            match err with
            | Some _ => Err ErrIncompatibleDefaultType
            | None => if negb inRange then Err ErrValueOutOfRange else Ok val
            end
        | None => Ok val
        end
  end.

(** [func (e *ColumnDefaultValue) IsLiteral() bool] *)
Definition IsLiteral (e : ptr) : result bool :=
  match e with
  | None => Ok true
  | Some e => Ok (Literal e)
  end.

(** [func (e *ColumnDefaultValue) IsParenthesized() bool] *)
Definition IsParenthesized (e : ptr) : result bool :=
  match e with
  | None => Ok false
  | Some e => Ok (Parenthesized e)
  end.

(** [func (e *ColumnDefaultValue) IsNullable() bool] *)
Definition IsNullable (e : ptr) : result bool :=
  match e with
  | None => Ok true
  | Some e =>
      if negb (ReturnNil e) then Ok false
      else ex ← deref (Expression_ e); Ok (Sql.IsNullable ex)
  end.

(** [func (e *ColumnDefaultValue) Resolved() bool] *)
Definition Resolved (e : ptr) : result bool :=
  match e with
  | None => Ok true
  | Some e =>
      match OutType e with
      | None => Ok false
      | Some _ => ex ← deref (Expression_ e); Ok (Sql.Resolved ex)
      end
  end.

(** [func (e *ColumnDefaultValue) String() string] *)
Definition String_ (e : ptr) : result string :=
  match e with
  | None => Ok ""
  | Some e =>
      ex ← deref (Expression_ e);
      if Literal e then Ok (Sql.String ex)
      else Ok ("(" +:+ Sql.String ex +:+ ")")
  end.

(** [func (e *ColumnDefaultValue) DebugString() string] *)
Definition DebugString (e : ptr) : result string :=
  match e with
  | None => Ok ""
  | Some e =>
      ex ← deref (Expression_ e);
      if Literal e then Ok (Sql.DebugString ex)
      else if Parenthesized e then Ok ("parenthesized(" +:+ Sql.DebugString ex +:+ ")")
      else Ok ("(" +:+ Sql.DebugString ex +:+ ")")
  end.

(** [func (e *ColumnDefaultValue) Type() Type] *)
Definition Type_ (e : ptr) : result (option SqlType) :=
  match e with
  | None => Ok None
  | Some e =>
      match OutType e with
      | None => ex ← deref (Expression_ e); Sql.Type_ ex
      | Some t => Ok (Some t)
      end
  end.

(** [func (e *ColumnDefaultValue) WithChildren(children ...Expression) (Expression, error)].
    In the branch for a nil receiver and one child the source reads
    [e.OutType], a field of the nil receiver. *)
Definition WithChildren (e : ptr) (children : list (option Expression)) : result ptr :=
  match e, children with
  | None, [] => Ok e
  | _, _ =>
      if negb (length children =? 1) then Err ErrInvalidChildrenNumber
      else
        child ← index children 0;
        match e with
        | None =>
            c ← deref child;
            let isLiteral := length (Sql.Children c) =? 0 in
            e' ← deref e;
            NewColumnDefaultValue child (OutType e') isLiteral (negb isLiteral) true
        | Some e' =>
            NewColumnDefaultValue child (OutType e') (Literal e') (Parenthesized e') (ReturnNil e')
        end
  end.

(** [func (e *ColumnDefaultValue) CheckType(ctx *Context) error].  The
    receiver is read without a nil test.  [Ok tt] is the nil error. *)
Definition CheckType (e : ptr) (ctx : Ctx) : result unit :=
  e ← deref e;
  match OutType e with
  | Some outType =>
      if Literal e then
        ex ← deref (Expression_ e);
        val ← Sql.Eval ex ctx [];
        if is_nil val && negb (ReturnNil e) then Err ErrIncompatibleDefaultType
        else
          let '(_, inRange, err) := Sql.Convert outType val in
          match err with
          | Some err => Err (ErrWrapped ErrIncompatibleDefaultType err)
          | None =>
              if negb inRange
              then Err (ErrWrapped ErrIncompatibleDefaultType ErrValueOutOfRange)
              else Ok ()
          end
      else Ok ()
  | None => Ok ()
  end.

(** Whether a call came back with a value and no error. *)
Definition returns_normally {A} (r : result A) : Prop := is_ok r = true.

(** ** C5 *)

(** C5.  For a non-absent default with [ReturnNil = false], whenever the
    inner expression evaluates to NULL without error, [Eval] returns
    [ErrColumnDefaultReturnedNull]; it does not return NULL as a value. *)
Theorem Eval_null_is_error (e : ColumnDefaultValue) (ex : Expression)
    (ctx : Ctx) (r : Sql.Row V) :
  ReturnNil e = false →
  Expression_ e = Some ex →
  Sql.Eval ex ctx r = Ok None →
  Eval (Some e) ctx r = Err ErrColumnDefaultReturnedNull
  ∧ Eval (Some e) ctx r ≠ Ok None.
Proof.
  intros Hnil Hex Hval.
  assert (Eval (Some e) ctx r = Err ErrColumnDefaultReturnedNull) as ->.
  { unfold Eval. rewrite Hex. cbn. rewrite Hval. cbn. now rewrite Hnil. }
  split; [reflexivity | discriminate].
Qed.

(** With [ReturnNil = true] the same NULL passes on to the conversion, so
    the flag is what decides. *)
Lemma Eval_null_allowed (e : ColumnDefaultValue) (ex : Expression)
    (ctx : Ctx) (r : Sql.Row V) :
  ReturnNil e = true →
  OutType e = None →
  Expression_ e = Some ex →
  Sql.Eval ex ctx r = Ok None →
  Eval (Some e) ctx r = Ok None.
Proof.
  intros Hnil Hout Hex Hval. unfold Eval.
  rewrite Hex. cbn. rewrite Hval. cbn. now rewrite Hnil, Hout.
Qed.

(** ** C8 *)

(** C8, as the code has it.  On the absent default, [Eval] returns
    [(nil, nil)] for every context and row, [IsLiteral], [IsNullable] and
    [Resolved] return true, and [Children], [IsParenthesized], [String],
    [DebugString], [Type] and [WithChildren] without children return as well.
    Two methods are not total on it: [CheckType] reads [e.OutType] through
    the nil receiver and panics for every context, and so does [WithChildren]
    for every single child. *)
Theorem absent_default_methods :
  (∀ (ctx : Ctx) (r : Sql.Row V), Eval None ctx r = Ok None)
  ∧ IsLiteral None = Ok true
  ∧ IsNullable None = Ok true
  ∧ Resolved None = Ok true
  ∧ Children None = Ok []
  ∧ IsParenthesized None = Ok false
  ∧ String_ None = Ok ""
  ∧ DebugString None = Ok ""
  ∧ Type_ None = Ok None
  ∧ WithChildren None [] = Ok None
  ∧ (∀ ctx : Ctx, CheckType None ctx = Panic)
  ∧ (∀ child : option Expression, WithChildren None [child] = Panic).
Proof.
  split_and!; try reflexivity.
  intros [child|]; [|reflexivity].
  unfold WithChildren. cbn. now destruct (Sql.Children child).
Qed.

(** With two or more children [WithChildren] returns the arity error, on
    the absent default as on any other. *)
Lemma WithChildren_absent_arity (c1 c2 : option Expression)
    (rest : list (option Expression)) :
  WithChildren None (c1 :: c2 :: rest) = Err ErrInvalidChildrenNumber.
Proof. reflexivity. Qed.

(** Every non-absent default answers [WithChildren] with one child. *)
Lemma WithChildren_present (e : ColumnDefaultValue) (child : option Expression) :
  WithChildren (Some e) [child]
  = Ok (Some {| Expression_ := child; OutType := OutType e; Literal := Literal e;
                ReturnNil := ReturnNil e; Parenthesized := Parenthesized e |}).
Proof. reflexivity. Qed.

(** ** More on evaluation and type checks *)

(** Reading a successful [Eval] backwards. *)
Lemma Eval_Ok_inv (e : ColumnDefaultValue) (ctx : Ctx) (r : Sql.Row V) (v : value) :
  Eval (Some e) ctx r = Ok v →
  ∃ ex val,
    Expression_ e = Some ex
    ∧ Sql.Eval ex ctx r = Ok val
    ∧ (val = None → ReturnNil e = true)
    ∧ match OutType e with
      | Some outType => Sql.Convert outType val = (v, true, None)
      | None => v = val
      end.
Proof.
  unfold Eval. destruct (Expression_ e) as [ex|]; [|discriminate]. cbn.
  destruct (Sql.Eval ex ctx r) as [val| |] eqn:Hval; try discriminate. cbn.
  destruct (is_nil val && negb (ReturnNil e)) eqn:Hnil; [discriminate|].
  intros H. exists ex, val. split_and!; [reflexivity | exact Hval | |].
  - intros ->. cbn in Hnil. now destruct (ReturnNil e).
  - destruct (OutType e) as [outType|]; [|now injection H as <-].
    destruct (Sql.Convert outType val) as [[val' inRange] [err|]]; [discriminate|].
    destruct inRange; [|discriminate]. now injection H as <-.
Qed.

(** Every value [Eval] returns comes from the inner expression: it is the
    inner value itself when there is no [OutType], and else what
    [OutType.Convert] made of it, in range and without error; and a NULL
    inner value only gets this far when [ReturnNil] is set. *)
Theorem Eval_value_origin (e : ColumnDefaultValue) (ctx : Ctx) (r : Sql.Row V) (v : value) :
  Eval (Some e) ctx r = Ok v →
  ∃ ex val,
    Expression_ e = Some ex
    ∧ Sql.Eval ex ctx r = Ok val
    ∧ (val = None → ReturnNil e = true)
    ∧ match OutType e with
      | Some outType => Sql.Convert outType val = (v, true, None)
      | None => v = val
      end.
Proof.
  intros Heval.
  destruct (Eval_Ok_inv e ctx r v Heval) as (ex & val & Hx & Hval & Hnil & Hout).
  exists ex, val. auto.
Qed.

(** For a literal default with an [OutType], [CheckType] accepts exactly
    when [Eval] on the nil row returns a value: the probe made when the
    column is declared and the evaluation made when a row is written agree. *)
Theorem CheckType_iff_Eval (e : ColumnDefaultValue) (outType : SqlType) (ctx : Ctx) :
  Literal e = true →
  OutType e = Some outType →
  CheckType (Some e) ctx = Ok () ↔ ∃ v, Eval (Some e) ctx [] = Ok v.
Proof.
  intros Hlit Hout. unfold CheckType, Eval. cbn. rewrite Hout, Hlit.
  destruct (Expression_ e) as [ex|]; cbn; [|split; [discriminate | intros [? [=]]]].
  destruct (Sql.Eval ex ctx []) as [val| |]; cbn;
    try (split; [discriminate | intros [? [=]]]).
  destruct (is_nil val && negb (ReturnNil e));
    [split; [discriminate | intros [? [=]]]|].
  destruct (Sql.Convert outType val) as [[val' inRange] [err|]];
    [split; [discriminate | intros [? [=]]]|].
  destruct inRange; cbn.
  - split; [eauto | reflexivity].
  - split; [discriminate | intros [? [=]]].
Qed.

(** An expression default, or a default without [OutType], passes
    [CheckType] without its expression being evaluated, even one that would
    panic. *)
Lemma CheckType_skips (e : ColumnDefaultValue) (ctx : Ctx) :
  Literal e = false ∨ OutType e = None →
  CheckType (Some e) ctx = Ok ().
Proof.
  unfold CheckType. cbn. intros [Hlit | Hout].
  - rewrite Hlit. now destruct (OutType e).
  - now rewrite Hout.
Qed.

(** Rebuilding a default from its own children gives the default back,
    absent or not. *)
Theorem WithChildren_Children (e : ptr) (children : list (option Expression)) :
  Children e = Ok children →
  WithChildren e children = Ok e.
Proof.
  destruct e as [e|]; cbn; intros [= <-]; [|reflexivity].
  now destruct e.
Qed.

(** A default that says it is not nullable does not evaluate to NULL,
    provided its inner expression is as good as its word and the output
    type converts no value to NULL. *)
Theorem not_nullable_never_null (e : ColumnDefaultValue) (ctx : Ctx) (r : Sql.Row V) :
  IsNullable (Some e) = Ok false →
  (∀ ex, Expression_ e = Some ex → Sql.IsNullable ex = false →
         Sql.Eval ex ctx r ≠ Ok None) →
  (∀ outType x, OutType e = Some outType →
                (Sql.Convert outType (Some x)).1.1 ≠ None) →
  Eval (Some e) ctx r ≠ Ok None.
Proof.
  intros Hnull Hex Hconv Heval.
  destruct (Eval_Ok_inv e ctx r None Heval) as (ex & val & Hx & Hval & Hnil & Hout).
  assert (Hsome : val ≠ None).
  { intros ->. specialize (Hnil eq_refl).
    unfold IsNullable in Hnull. rewrite Hnil, Hx in Hnull. cbn in Hnull.
    injection Hnull as Hn. exact (Hex ex Hx Hn Hval). }
  destruct val as [x|]; [|congruence].
  destruct (OutType e) as [outType|] eqn:Ho; [|discriminate].
  apply (Hconv outType x eq_refl). now rewrite Hout.
Qed.

End ColumnDefault.

(** A literal NULL and a literal 1 over [nat] values, and a default
    [DEFAULT NULL] on a column that does not take NULL. *)
Definition nullLiteral : Sql.Expression nat unit :=
  {| Sql.Children := [];
     Sql.Eval := λ _ _, Ok None;
     Sql.IsNullable := true;
     Sql.Resolved := true;
     Sql.String := "NULL";
     Sql.DebugString := "NULL";
     Sql.Type_ := Ok None |}.

Definition oneLiteral : Sql.Expression nat unit :=
  {| Sql.Children := [];
     Sql.Eval := λ _ _, Ok (Some 1);
     Sql.IsNullable := false;
     Sql.Resolved := true;
     Sql.String := "1";
     Sql.DebugString := "1";
     Sql.Type_ := Ok None |}.

Definition defaultNull : @ColumnDefaultValue nat unit :=
  {| Expression_ := Some nullLiteral; OutType := None; Literal := true;
     ReturnNil := false; Parenthesized := false |}.

Lemma Eval_null_is_error_witness :
  Eval (Some defaultNull) () [] = Err ErrColumnDefaultReturnedNull
  ∧ Eval (Some defaultNull) () [] ≠ Ok None.
Proof.
  apply (Eval_null_is_error defaultNull nullLiteral () []); reflexivity.
Defined.

Example WithChildren_absent_one_child :
  WithChildren (V:=nat) (Ctx:=unit) None [Some oneLiteral] = Panic.
Proof. reflexivity. Qed.

Example CheckType_absent : CheckType (V:=nat) (Ctx:=unit) None () = Panic.
Proof. reflexivity. Qed.

(** A type that converts every value to itself, and the literal default
    [DEFAULT 1] of that type. *)
Definition plainType : Sql.SqlType nat :=
  {| Sql.Zero := Some 0; Sql.Convert := λ v, (v, true, None) |}.

Definition defaultOne : @ColumnDefaultValue nat unit :=
  {| Expression_ := Some oneLiteral; OutType := Some plainType; Literal := true;
     ReturnNil := false; Parenthesized := false |}.

Lemma Eval_value_origin_witness :
  ∃ ex val,
    Expression_ defaultOne = Some ex
    ∧ Sql.Eval ex () [] = Ok val
    ∧ (val = None → ReturnNil defaultOne = true)
    ∧ match OutType defaultOne with
      | Some outType => Sql.Convert outType val = (Some 1, true, None)
      | None => Some 1 = val
      end.
Proof. exact (Eval_value_origin defaultOne () [] (Some 1) eq_refl). Defined.

Lemma CheckType_iff_Eval_witness :
  CheckType (Some defaultOne) () = Ok () ↔ ∃ v, Eval (Some defaultOne) () [] = Ok v.
Proof. exact (CheckType_iff_Eval defaultOne plainType () eq_refl eq_refl). Defined.

Lemma WithChildren_Children_witness :
  WithChildren (Some defaultOne) [Some oneLiteral] = Ok (Some defaultOne).
Proof. exact (WithChildren_Children (Some defaultOne) [Some oneLiteral] eq_refl). Defined.

Lemma not_nullable_never_null_witness :
  Eval (Some defaultOne) () [] ≠ Ok None.
Proof.
  apply (not_nullable_never_null defaultOne () []).
  - reflexivity.
  - intros ex [= <-] _. discriminate.
  - intros outType x [= <-]. discriminate.
Defined.

End ColumnDefault.


(* ===================================================================== *)
(** * planbuilder: window frame predicates *)
(* ===================================================================== *)

Module WindowFrame.

(** [ast.BoundType], the kinds of frame bound the factory tells apart. *)
Inductive BoundType : Type :=
  | CurrentRow
  | UnboundedFollowing
  | UnboundedPreceding
  | ExprPreceding
  | ExprFollowing.

#[global] Instance BoundType_eq_dec : EqDecision BoundType.
Proof. solve_decision. Defined.

Section WindowFrame.
(** [ast.Expr], the parser's expressions. *)
Variable AstExpr : Type.

(** [ast.FrameBound], [ast.FrameExtent] and [ast.Frame] of the parser
    package.  The factory compares [Extent.Start] and [Extent.End] with nil,
    so they are pointers; [Extent] is a pointer too. *)
Record FrameBound : Type := {
  Expr : option AstExpr;
  Type_ : BoundType;
}.

Record FrameExtent : Type := {
  Start : option FrameBound;
  End_ : option FrameBound;
}.

Record Frame : Type := {
  Extent : option FrameExtent;
}.

(** Go's [a && b] and [a || b]: [b] is evaluated only when [a] does not
    decide. *)
Definition and_then (a b : result bool) : result bool :=
  a ≫= λ x : bool, if x then b else Ok false.

Definition or_else (a b : result bool) : result bool :=
  a ≫= λ x : bool, if x then Ok true else b.

(** [frame.Extent.Start], [frame.Extent.End] and their [.Type], each
    dereferencing everything on the path. *)
Definition Extent_Start (frame : option Frame) : result (option FrameBound) :=
  f ← deref frame; ext ← deref (Extent f); Ok (Start ext).

Definition Extent_End (frame : option Frame) : result (option FrameBound) :=
  f ← deref frame; ext ← deref (Extent f); Ok (End_ ext).

Definition Extent_Start_Type (frame : option Frame) : result BoundType :=
  b ← Extent_Start frame; b ← deref b; Ok (Type_ b).

Definition Extent_End_Type (frame : option Frame) : result BoundType :=
  b ← Extent_End frame; b ← deref b; Ok (Type_ b).

Definition not_nil {A} (p : option A) : bool :=
  match p with Some _ => true | None => false end.

(** [func (b *PlanBuilder) getFrameStartCurrentRow(_ *scope, frame *ast.Frame) bool] *)
Definition getFrameStartCurrentRow (frame : option Frame) : result bool :=
  and_then (Ok (not_nil frame))
           (t ← Extent_Start_Type frame; Ok (bool_decide (t = CurrentRow))).

(** [func (b *PlanBuilder) getFrameEndCurrentRow(_ *scope, frame *ast.Frame) bool] *)
Definition getFrameEndCurrentRow (frame : option Frame) : result bool :=
  if negb (not_nil frame) then Ok false
  else
    e ← Extent_End frame;
    if negb (not_nil e) then Ok true
    else
      and_then (and_then (Ok (not_nil frame)) (e ← Extent_End frame; Ok (not_nil e)))
               (t ← Extent_End_Type frame; Ok (bool_decide (t = CurrentRow))).

(** The shape shared by the two predicates below.  Go parses
    [a && b && c || d && e] as [((a && b) && c) || (d && e)]. *)
Definition frameHasBound (bound : BoundType) (frame : option Frame) : result bool :=
  or_else
    (and_then
       (and_then (Ok (not_nil frame))
                 (s ← Extent_Start frame; Ok (not_nil s)))
       (t ← Extent_Start_Type frame; Ok (bool_decide (t = bound))))
    (and_then
       (e ← Extent_End frame; Ok (not_nil e))
       (t ← Extent_End_Type frame; Ok (bool_decide (t = bound)))).

(** [func (b *PlanBuilder) getFrameUnboundedPreceding(_ *scope, frame *ast.Frame) bool] *)
Definition getFrameUnboundedPreceding (frame : option Frame) : result bool :=
  frameHasBound UnboundedPreceding frame.

(** [func (b *PlanBuilder) getFrameUnboundedFollowing(_ *scope, frame *ast.Frame) bool] *)
Definition getFrameUnboundedFollowing (frame : option Frame) : result bool :=
  frameHasBound UnboundedFollowing frame.

(** The bound of a frame side, when that side is given. *)
Definition side_is (bound : BoundType) (side : option FrameBound) : bool :=
  match side with
  | Some b => bool_decide (Type_ b = bound)
  | None => false
  end.

(** On a frame that is there (with its extent), the predicate returns, and
    says whether the start or the end is the bound asked for; an absent end
    is skipped, not read. *)
Lemma frameHasBound_present (bound : BoundType) (f : Frame) (ext : FrameExtent) :
  Extent f = Some ext →
  frameHasBound bound (Some f) = Ok (side_is bound (Start ext) || side_is bound (End_ ext)).
Proof.
  intros Hext. unfold frameHasBound, Extent_Start_Type, Extent_End_Type,
    Extent_Start, Extent_End. cbn. rewrite Hext. cbn.
  destruct (Start ext) as [s|], (End_ ext) as [e|]; cbn;
    repeat case_bool_decide; reflexivity.
Qed.

(** ** C9 *)

(** C9 at the absent frame.  The nil test guards only the left operand of
    [||]; the right operand reads [frame.Extent] of the nil frame, so both
    predicates panic there.  (The siblings [getFrameStartCurrentRow] and
    [getFrameEndCurrentRow] return false.) *)
Theorem getFrameUnbounded_nil_frame :
  getFrameUnboundedPreceding None = Panic
  ∧ getFrameUnboundedFollowing None = Panic
  ∧ getFrameStartCurrentRow None = Ok false
  ∧ getFrameEndCurrentRow None = Ok false.
Proof. repeat split. Qed.

(** C9 away from the absent frame: a frame whose start is set and whose
    end is absent is answered without reading the end. *)
Lemma getFrameUnbounded_start_only (f : Frame) (s : FrameBound) :
  Extent f = Some {| Start := Some s; End_ := None |} →
  getFrameUnboundedPreceding (Some f) = Ok (bool_decide (Type_ s = UnboundedPreceding))
  ∧ getFrameUnboundedFollowing (Some f) = Ok (bool_decide (Type_ s = UnboundedFollowing)).
Proof.
  intros Hext. unfold getFrameUnboundedPreceding, getFrameUnboundedFollowing.
  rewrite !(frameHasBound_present _ f _ Hext). cbn.
  now rewrite !orb_false_r.
Qed.

(** ** The offset getters *)

(** [*scope], [sql.Expression] and [b.buildScalar], which may panic
    (it reports errors through [handleErr]). *)
Variables (Scope SqlExpr : Type).
Variable buildScalar : Scope → option AstExpr → result (option SqlExpr).

(** [frame.Extent.Start.Expr] and [frame.Extent.End.Expr]. *)
Definition Extent_Start_Expr (frame : option Frame) : result (option AstExpr) :=
  b ← Extent_Start frame; b ← deref b; Ok (Expr b).

Definition Extent_End_Expr (frame : option Frame) : result (option AstExpr) :=
  b ← Extent_End frame; b ← deref b; Ok (Expr b).

(** [func (b *PlanBuilder) getFrameStartNPreceding(inScope *scope, frame *ast.Frame) sql.Expression] *)
Definition getFrameStartNPreceding (inScope : Scope) (frame : option Frame)
  : result (option SqlExpr) :=
  c ← or_else (Ok (negb (not_nil frame)))
              (t ← Extent_Start_Type frame; Ok (negb (bool_decide (t = ExprPreceding))));
  if c : bool then Ok None
  else e ← Extent_Start_Expr frame; buildScalar inScope e.

(** [func (b *PlanBuilder) getFrameEndNPreceding(inScope *scope, frame *ast.Frame) sql.Expression] *)
Definition getFrameEndNPreceding (inScope : Scope) (frame : option Frame)
  : result (option SqlExpr) :=
  c ← or_else (or_else (Ok (negb (not_nil frame)))
                       (e ← Extent_End frame; Ok (negb (not_nil e))))
              (t ← Extent_End_Type frame; Ok (negb (bool_decide (t = ExprPreceding))));
  if c : bool then Ok None
  else e ← Extent_End_Expr frame; buildScalar inScope e.

(** [func (b *PlanBuilder) getFrameStartNFollowing(inScope *scope, frame *ast.Frame) sql.Expression] *)
Definition getFrameStartNFollowing (inScope : Scope) (frame : option Frame)
  : result (option SqlExpr) :=
  c ← or_else (Ok (negb (not_nil frame)))
              (t ← Extent_Start_Type frame; Ok (negb (bool_decide (t = ExprFollowing))));
  if c : bool then Ok None
  else e ← Extent_Start_Expr frame; buildScalar inScope e.

(** [func (b *PlanBuilder) getFrameEndNFollowing(inScope *scope, frame *ast.Frame) sql.Expression] *)
Definition getFrameEndNFollowing (inScope : Scope) (frame : option Frame)
  : result (option SqlExpr) :=
  c ← or_else (or_else (Ok (negb (not_nil frame)))
                       (e ← Extent_End frame; Ok (negb (not_nil e))))
              (t ← Extent_End_Type frame; Ok (negb (bool_decide (t = ExprFollowing))));
  if c : bool then Ok None
  else e ← Extent_End_Expr frame; buildScalar inScope e.

(** A frame that gives only its start ends at the current row: the three
    getters of the end answer without reading the absent end and without
    building an expression. *)
Theorem getFrameEnd_start_only (inScope : Scope) (f : Frame) (s : option FrameBound) :
  Extent f = Some {| Start := s; End_ := None |} →
  getFrameEndCurrentRow (Some f) = Ok true
  ∧ getFrameEndNPreceding inScope (Some f) = Ok None
  ∧ getFrameEndNFollowing inScope (Some f) = Ok None.
Proof.
  intros Hext.
  unfold getFrameEndCurrentRow, getFrameEndNPreceding, getFrameEndNFollowing,
    Extent_End_Type, Extent_End.
  cbn. rewrite Hext. cbn. split_and!; reflexivity.
Qed.

(** The start getters have no test for an absent start: on a frame whose
    extent gives no start, all three panic, whatever the end is. *)
Theorem getFrameStart_no_start (inScope : Scope) (f : Frame) (e : option FrameBound) :
  Extent f = Some {| Start := None; End_ := e |} →
  getFrameStartCurrentRow (Some f) = Panic
  ∧ getFrameStartNPreceding inScope (Some f) = Panic
  ∧ getFrameStartNFollowing inScope (Some f) = Panic.
Proof.
  intros Hext.
  unfold getFrameStartCurrentRow, getFrameStartNPreceding, getFrameStartNFollowing,
    Extent_Start_Type, Extent_Start.
  cbn. rewrite Hext. cbn. split_and!; reflexivity.
Qed.

(** What a getter of an offset returns on a side of kind [t] with
    expression [e], when it looks for [bound]. *)
Definition offsetAt (inScope : Scope) (bound : BoundType) (side : option FrameBound)
  : result (option SqlExpr) :=
  match side with
  | Some b => if bool_decide (Type_ b = bound) then buildScalar inScope (Expr b) else Ok None
  | None => Ok None
  end.

Lemma getFrameEndN_present (inScope : Scope) (f : Frame) (ext : FrameExtent) :
  Extent f = Some ext →
  getFrameEndNPreceding inScope (Some f) = offsetAt inScope ExprPreceding (End_ ext)
  ∧ getFrameEndNFollowing inScope (Some f) = offsetAt inScope ExprFollowing (End_ ext).
Proof.
  intros Hext.
  unfold getFrameEndNPreceding, getFrameEndNFollowing, Extent_End_Expr, Extent_End_Type,
    Extent_End, offsetAt.
  cbn. rewrite Hext. cbn.
  destruct (End_ ext) as [b|]; cbn; [|now split].
  split; case_bool_decide; reflexivity.
Qed.

Lemma getFrameStartN_present (inScope : Scope) (f : Frame) (ext : FrameExtent)
    (s : FrameBound) :
  Extent f = Some ext →
  Start ext = Some s →
  getFrameStartNPreceding inScope (Some f) = offsetAt inScope ExprPreceding (Some s)
  ∧ getFrameStartNFollowing inScope (Some f) = offsetAt inScope ExprFollowing (Some s).
Proof.
  intros Hext Hs.
  unfold getFrameStartNPreceding, getFrameStartNFollowing, Extent_Start_Expr,
    Extent_Start_Type, Extent_Start, offsetAt.
  cbn. rewrite Hext. cbn. rewrite Hs. cbn.
  split; case_bool_decide; reflexivity.
Qed.

(** On every frame and for every [buildScalar], at most one of the two
    offsets of a side is built: of [getFrameStartNPreceding] and
    [getFrameStartNFollowing] one returns nil, or both panic (on a frame
    without extent or without start); likewise for the end, where both panic
    only on a frame without extent. *)
Theorem getFrame_offsets_exclusive (inScope : Scope) (frame : option Frame) :
  (getFrameStartNPreceding inScope frame = Ok None
   ∨ getFrameStartNFollowing inScope frame = Ok None
   ∨ (getFrameStartNPreceding inScope frame = Panic
      ∧ getFrameStartNFollowing inScope frame = Panic))
  ∧ (getFrameEndNPreceding inScope frame = Ok None
     ∨ getFrameEndNFollowing inScope frame = Ok None
     ∨ (getFrameEndNPreceding inScope frame = Panic
        ∧ getFrameEndNFollowing inScope frame = Panic
        ∧ ∃ f, frame = Some f ∧ Extent f = None)).
Proof.
  destruct frame as [f|]; [|split; left; reflexivity].
  destruct (Extent f) as [ext|] eqn:Hext.
  - split.
    + destruct (Start ext) as [s|] eqn:Hs.
      * destruct (getFrameStartN_present inScope f ext s Hext Hs) as [-> ->].
        unfold offsetAt. repeat case_bool_decide; try (left; reflexivity);
          try (right; left; reflexivity). congruence.
      * right. right.
        unfold getFrameStartNPreceding, getFrameStartNFollowing, Extent_Start_Type,
          Extent_Start.
        cbn. rewrite Hext. cbn. rewrite Hs. now split.
    + destruct (getFrameEndN_present inScope f ext Hext) as [-> ->].
      unfold offsetAt. destruct (End_ ext) as [b|]; [|left; reflexivity].
      repeat case_bool_decide; try (left; reflexivity);
        try (right; left; reflexivity). congruence.
  - split; right; right.
    + unfold getFrameStartNPreceding, getFrameStartNFollowing, Extent_Start_Type,
        Extent_Start.
      cbn. rewrite Hext. now split.
    + unfold getFrameEndNPreceding, getFrameEndNFollowing, Extent_End_Type, Extent_End.
      cbn. rewrite Hext. split_and!; [reflexivity | reflexivity |].
      now exists f.
Qed.

End WindowFrame.

(** [ROWS UNBOUNDED PRECEDING]: a start bound and no end bound. *)
Definition rowsUnboundedPreceding : Frame string :=
  {| Extent := Some {| Start := Some {| Expr := None; Type_ := UnboundedPreceding |};
                       End_ := None |} |}.

Lemma getFrameUnbounded_start_only_witness :
  getFrameUnboundedPreceding string (Some rowsUnboundedPreceding) = Ok true
  ∧ getFrameUnboundedFollowing string (Some rowsUnboundedPreceding) = Ok false.
Proof.
  exact (getFrameUnbounded_start_only string rowsUnboundedPreceding
           {| Expr := None; Type_ := UnboundedPreceding |} eq_refl).
Defined.

(** A [buildScalar] that names the expression it is given. *)
Definition scalarOf (_ : unit) (e : option string) : result (option string) := Ok e.

(** A frame that has only an end bound, [3 FOLLOWING]. *)
Definition endOnly : Frame string :=
  {| Extent := Some {| Start := None;
                       End_ := Some {| Expr := Some "3"; Type_ := ExprFollowing |} |} |}.

Lemma getFrameEnd_start_only_witness :
  getFrameEndCurrentRow string (Some rowsUnboundedPreceding) = Ok true
  ∧ getFrameEndNPreceding string unit string scalarOf () (Some rowsUnboundedPreceding) = Ok None
  ∧ getFrameEndNFollowing string unit string scalarOf () (Some rowsUnboundedPreceding) = Ok None.
Proof.
  exact (getFrameEnd_start_only string unit string scalarOf () rowsUnboundedPreceding
           (Some {| Expr := None; Type_ := UnboundedPreceding |}) eq_refl).
Defined.

Lemma getFrameStart_no_start_witness :
  getFrameStartCurrentRow string (Some endOnly) = Panic
  ∧ getFrameStartNPreceding string unit string scalarOf () (Some endOnly) = Panic
  ∧ getFrameStartNFollowing string unit string scalarOf () (Some endOnly) = Panic.
Proof.
  exact (getFrameStart_no_start string unit string scalarOf () endOnly
           (Some {| Expr := Some "3"; Type_ := ExprFollowing |}) eq_refl).
Defined.

(** [ROWS BETWEEN 2 PRECEDING AND 3 FOLLOWING]. *)
Example getFrame_offsets_between :
  let frame := Some {| Extent := Some {| Start := Some {| Expr := Some "2";
                                                           Type_ := ExprPreceding |};
                                         End_ := Some {| Expr := Some "3";
                                                         Type_ := ExprFollowing |} |} |} in
  getFrameStartNPreceding string unit string scalarOf () frame = Ok (Some "2")
  ∧ getFrameStartNFollowing string unit string scalarOf () frame = Ok None
  ∧ getFrameEndNPreceding string unit string scalarOf () frame = Ok None
  ∧ getFrameEndNFollowing string unit string scalarOf () frame = Ok (Some "3").
Proof. cbn. split_and!; reflexivity. Qed.

End WindowFrame.


(* ===================================================================== *)
(** * planbuilder: FROM clause (natural joins, unions) *)
(* ===================================================================== *)

Module PlanBuilder.

(** Scalar expressions the builder assembles, kept symbolic: [Equals] and
    [And] are [expression.NewEquals] and [expression.NewAnd]; [Scalar] is any
    other expression, named by a tag. *)
Inductive Expr : Type :=
  | Scalar (tag : string)
  | Equals (l r : Expr)
  | And (l r : Expr).

(** [plan.JoinType], the kinds named in from.go and the cross join. *)
Inductive JoinType : Type :=
  | JoinTypeCross
  | JoinTypeInner
  | JoinTypeLeftOuter
  | JoinTypeRightOuter
  | JoinTypeFullOuter
  | JoinTypeLateralCross
  | JoinTypeLateralInner
  | JoinTypeLateralLeft
  | JoinTypeLateralRight.

(** [sql.SortField] with its order. *)
Inductive SortOrder : Type := Ascending | Descending.

Record SortField : Type := {
  Column : option Expr;
  Order : SortOrder;
}.

(** Plan nodes, as far as from.go builds and inspects them.  Children are
    interface values and may be nil. *)
Inductive Node : Type :=
  | Table (name : string)
  | JoinNode (left right : option Node) (op : JoinType) (filter : option Expr)
  | Union (left right : option Node) (distinct : bool)
          (limit offset : option Expr) (sortFields : list SortField).

(** Modelled from the spec: [plan.NewJoin], [plan.NewCrossJoin] and
    [plan.NewUnion] are not among the sources.  The spec's plan nodes are
    "join (inner, left-outer, right-outer, full-outer, cross, ...)" and
    "union (with optional sort/limit/offset embedded)"; a cross join is the
    join of kind cross with no condition. *)
Definition NewJoin (left right : option Node) (op : JoinType) (filter : option Expr) : Node :=
  JoinNode left right op filter.

Definition NewCrossJoin (left right : option Node) : Node :=
  NewJoin left right JoinTypeCross None.

Definition NewUnion (left right : option Node) (distinct : bool)
    (limit offset : option Expr) (sortFields : list SortField) : Node :=
  Union left right distinct limit offset sortFields.

(** [type scopeColumn struct]: the fields from.go reads ([col], [scalar],
    [descending]) and those the spec lists (database, table, identity,
    nullability).  [zeroColumn] is Go's zero value, what [var matched
    scopeColumn] holds. *)
Record scopeColumn : Type := {
  db : string;
  table : string;
  col : string;
  id : nat;
  scalar : option Expr;
  nullable : bool;
  descending : bool;
}.

Definition zeroColumn : scopeColumn :=
  {| db := ""; table := ""; col := ""; id := 0; scalar := None;
     nullable := false; descending := false |}.

(** [type scope struct]: parent, the node built so far, the visible columns
    in order, and the redirections of NATURAL JOIN. *)
Inductive scope : Type := MkScope {
  parent : option scope;
  node : option Node;
  cols : list scopeColumn;
  redirectCol : list (scopeColumn * scopeColumn);
}.

Definition setNode (s : scope) (n : option Node) : scope :=
  {| parent := parent s; node := n; cols := cols s; redirectCol := redirectCol s |}.

(** Modelled from the spec: the methods of [scope] (scope.go) are not among
    the sources.  "[push() → child scope]"; "[addColumn(c)] — add to ordered
    list"; "[redirect(from, to)] — for NATURAL JOIN: references to the
    right-side column resolve as the left-side column". *)
Definition push (s : scope) : scope :=
  {| parent := Some s; node := None; cols := []; redirectCol := [] |}.

Definition addColumn (s : scope) (c : scopeColumn) : scope :=
  {| parent := parent s; node := node s; cols := cols s ++ [c];
     redirectCol := redirectCol s |}.

Definition redirect (s : scope) (from to : scopeColumn) : scope :=
  {| parent := parent s; node := node s; cols := cols s;
     redirectCol := redirectCol s ++ [(from, to)] |}.

(** Modelled from the spec: [handleErr] (builder.go) is not among the
    sources; "an error aborts the build of the current statement". *)
Definition handleErr {A} (err : Error) : result A := Err err.

Section NaturalJoin.
(** [scopeColumn.empty] and [scopeColumn.scalarGf] (scope.go) are not among
    the sources; the builder is stated for any pair of them. *)
Variable empty : scopeColumn → bool.
Variable scalarGf : scopeColumn → Expr.

(** The inner loop of [buildNaturalJoin]: the first left column with the
    name of [rCol], or the zero value. *)
Definition findMatched (leftCols : list scopeColumn) (rCol : scopeColumn) : scopeColumn :=
  default zeroColumn (find (λ lCol, String.eqb (col lCol) (col rCol)) leftCols).

(** What the loops of [buildNaturalJoin] carry: the output scope, the
    projection and the filter. *)
Record njState : Type := {
  nj_out : scope;
  nj_proj : list Expr;
  nj_filter : option Expr;
}.

(** The body of the loop over the right columns. *)
Definition njRight (leftCols : list scopeColumn) (st : njState) (rCol : scopeColumn) : njState :=
  let matched := findMatched leftCols rCol in
  let '(out, proj) :=
    if negb (empty matched)
    then (redirect (nj_out st) rCol matched, nj_proj st)
    else (addColumn (nj_out st) rCol, nj_proj st ++ [scalarGf rCol]) in
  let f := Equals (scalarGf matched) (scalarGf rCol) in
  let filter :=
    match nj_filter st with
    | None => f
    | Some filter => And filter f
    end in
  {| nj_out := out; nj_proj := proj; nj_filter := Some filter |}.

(** The body of the loop over the left columns. *)
Definition njLeft (st : njState) (lCol : scopeColumn) : njState :=
  {| nj_out := addColumn (nj_out st) lCol;
     nj_proj := nj_proj st ++ [scalarGf lCol];
     nj_filter := nj_filter st |}.

(** [func (b *PlanBuilder) buildNaturalJoin(inScope, leftScope, rightScope *scope) (outScope *scope)] *)
Definition buildNaturalJoin (inScope leftScope rightScope : scope) : scope :=
  let st := {| nj_out := push inScope; nj_proj := []; nj_filter := None |} in
  let st := fold_left njLeft (cols leftScope) st in
  let st := fold_left (njRight (cols leftScope)) (cols rightScope) st in
  match nj_filter st with
  | None => setNode (nj_out st) (Some (NewCrossJoin (node leftScope) (node rightScope)))
  | Some filter =>
      let jn := NewJoin (node leftScope) (node rightScope) JoinTypeInner (Some filter) in
      setNode (nj_out st) (Some jn)
  end.

(** The two sides share no column name. *)
Definition no_shared_names (leftScope rightScope : scope) : Prop :=
  ∀ l r, l ∈ cols leftScope → r ∈ cols rightScope → col l ≠ col r.

Lemma njRight_filter (leftCols : list scopeColumn) (st : njState) (rCol : scopeColumn) :
  nj_filter (njRight leftCols st rCol) ≠ None.
Proof. unfold njRight. destruct (negb _); discriminate. Qed.

Lemma fold_njRight_filter (leftCols rightCols : list scopeColumn) (st : njState) :
  nj_filter (fold_left (njRight leftCols) rightCols st) = None
  ↔ rightCols = [] ∧ nj_filter st = None.
Proof.
  revert st. induction rightCols as [|r rs IH]; intros st; cbn [fold_left].
  - tauto.
  - rewrite IH. split; [|intros [? _]; discriminate].
    intros [_ H]. now apply njRight_filter in H.
Qed.

Lemma fold_njLeft_filter (leftCols : list scopeColumn) (st : njState) :
  nj_filter (fold_left njLeft leftCols st) = nj_filter st.
Proof.
  revert st. induction leftCols as [|l ls IH]; intros st; cbn [fold_left];
    [reflexivity | now rewrite IH].
Qed.

(** The node of a natural join is a cross join exactly when the right side
    has no columns at all; any right column, shared or not, adds an equality
    and makes it an inner join. *)
Lemma buildNaturalJoin_node (inScope leftScope rightScope : scope) :
  (cols rightScope = [] ∧
     node (buildNaturalJoin inScope leftScope rightScope)
     = Some (NewCrossJoin (node leftScope) (node rightScope)))
  ∨ (cols rightScope ≠ [] ∧ ∃ filter,
     node (buildNaturalJoin inScope leftScope rightScope)
     = Some (NewJoin (node leftScope) (node rightScope) JoinTypeInner (Some filter))).
Proof.
  unfold buildNaturalJoin.
  destruct (nj_filter (fold_left _ (cols rightScope) _)) as [f|] eqn:Hf.
  - right. split; [|now exists f].
    intros Hnil. rewrite Hnil in Hf. cbn in Hf.
    now rewrite fold_njLeft_filter in Hf.
  - left. apply fold_njRight_filter in Hf as [Hnil _]. now split.
Qed.

(** What does hold without shared names, when the zero column is [empty]:
    the columns of both sides pass through in order and nothing is
    redirected. *)
Lemma findMatched_disjoint (leftCols : list scopeColumn) (rCol : scopeColumn) :
  (∀ l, l ∈ leftCols → col l ≠ col rCol) →
  findMatched leftCols rCol = zeroColumn.
Proof.
  unfold findMatched. induction leftCols as [|l ls IH]; intros Hne; cbn; [reflexivity|].
  destruct (String.eqb (col l) (col rCol)) eqn:Heq.
  - apply String.eqb_eq in Heq. exfalso. apply (Hne l); [left | exact Heq].
  - apply IH. intros l' Hl'. apply Hne. now right.
Qed.

Lemma fold_njLeft_out (leftCols : list scopeColumn) (st : njState) :
  cols (nj_out (fold_left njLeft leftCols st)) = cols (nj_out st) ++ leftCols
  ∧ redirectCol (nj_out (fold_left njLeft leftCols st)) = redirectCol (nj_out st).
Proof.
  revert st. induction leftCols as [|l ls IH]; intros st; cbn [fold_left].
  - now rewrite app_nil_r.
  - destruct (IH (njLeft st l)) as [-> ->]. cbn. now rewrite <- app_assoc.
Qed.

Lemma fold_njRight_out_disjoint (leftCols rightCols : list scopeColumn) (st : njState) :
  empty zeroColumn = true →
  (∀ l r, l ∈ leftCols → r ∈ rightCols → col l ≠ col r) →
  cols (nj_out (fold_left (njRight leftCols) rightCols st)) = cols (nj_out st) ++ rightCols
  ∧ redirectCol (nj_out (fold_left (njRight leftCols) rightCols st)) = redirectCol (nj_out st).
Proof.
  intros Hempty. revert st.
  induction rightCols as [|r rs IH]; intros st Hne; cbn [fold_left].
  - now rewrite app_nil_r.
  - destruct (IH (njRight leftCols st r)) as [-> ->].
    { intros l r' Hl Hr'. apply Hne; [exact Hl | now right]. }
    unfold njRight. rewrite findMatched_disjoint.
    2: { intros l Hl. apply Hne; [exact Hl | left]. }
    rewrite Hempty. cbn. now rewrite <- app_assoc.
Qed.

Lemma buildNaturalJoin_disjoint_columns (inScope leftScope rightScope : scope) :
  empty zeroColumn = true →
  no_shared_names leftScope rightScope →
  cols (buildNaturalJoin inScope leftScope rightScope) = cols leftScope ++ cols rightScope
  ∧ redirectCol (buildNaturalJoin inScope leftScope rightScope) = [].
Proof.
  intros Hempty Hne. unfold buildNaturalJoin.
  set (st0 := {| nj_out := push inScope; nj_proj := []; nj_filter := None |}).
  pose proof (fold_njLeft_out (cols leftScope) st0) as [Hl1 Hl2].
  pose proof (fold_njRight_out_disjoint (cols leftScope) (cols rightScope)
                (fold_left njLeft (cols leftScope) st0) Hempty Hne) as [Hr1 Hr2].
  destruct (nj_filter _); cbn [setNode cols redirectCol];
    rewrite ?Hr1, ?Hr2, ?Hl1, ?Hl2; now cbn.
Qed.

End NaturalJoin.

(** Two tables with one column each, [t1(a)] and [t2(b)]. *)
Definition colA : scopeColumn :=
  {| db := "db"; table := "t1"; col := "a"; id := 1; scalar := None;
     nullable := false; descending := false |}.

Definition colB : scopeColumn :=
  {| db := "db"; table := "t2"; col := "b"; id := 2; scalar := None;
     nullable := false; descending := false |}.

Definition rootScope : scope :=
  {| parent := None; node := None; cols := []; redirectCol := [] |}.

Definition scopeT1 : scope :=
  {| parent := Some rootScope; node := Some (Table "t1"); cols := [colA]; redirectCol := [] |}.

Definition scopeT2 : scope :=
  {| parent := Some rootScope; node := Some (Table "t2"); cols := [colB]; redirectCol := [] |}.

(** The identity test and the field reference of a column, as one
    implementation of [empty] and [scalarGf]. *)
Definition emptyById (c : scopeColumn) : bool := id c =? 0.

Definition fieldOf (c : scopeColumn) : Expr := Scalar (table c +:+ "." +:+ col c).

Lemma buildNaturalJoin_disjoint_columns_witness :
  cols (buildNaturalJoin emptyById fieldOf rootScope scopeT1 scopeT2) = [colA; colB]
  ∧ redirectCol (buildNaturalJoin emptyById fieldOf rootScope scopeT1 scopeT2) = [].
Proof.
  apply (buildNaturalJoin_disjoint_columns emptyById fieldOf rootScope scopeT1 scopeT2).
  - reflexivity.
  - intros l r Hl Hr. cbn in Hl, Hr.
    apply list_elem_of_singleton in Hl, Hr. subst. discriminate.
Defined.

(** ** C3 *)

(** C3 on [t1(a) NATURAL JOIN t2(b)], two sides with no shared column name.
    Whatever [empty] and [scalarGf] are, the node built is an inner join whose
    filter equates the zero-valued column with [t2.b]; it is not the cross
    join. *)
Theorem buildNaturalJoin_disjoint_is_inner_join :
  ∀ (empty : scopeColumn → bool) (scalarGf : scopeColumn → Expr),
    node (buildNaturalJoin empty scalarGf rootScope scopeT1 scopeT2)
    = Some (NewJoin (Some (Table "t1")) (Some (Table "t2")) JoinTypeInner
              (Some (Equals (scalarGf zeroColumn) (scalarGf colB))))
    ∧ node (buildNaturalJoin empty scalarGf rootScope scopeT1 scopeT2)
      ≠ Some (NewCrossJoin (Some (Table "t1")) (Some (Table "t2"))).
Proof.
  intros empty scalarGf.
  assert (findMatched [colA] colB = zeroColumn) as Hm by reflexivity.
  unfold buildNaturalJoin. cbn [cols scopeT1 scopeT2 fold_left njLeft nj_filter].
  unfold njRight. rewrite Hm. cbn [nj_filter].
  destruct (negb (empty zeroColumn)); cbn; split; (reflexivity || discriminate).
Qed.

(** ** Unions *)

(** Run [r] only when [b] holds: an [if] whose body may abort the build. *)
Definition when (b : bool) (r : result unit) : result unit :=
  if b then r else Ok ().

Definition not_nil {A} (p : option A) : bool :=
  match p with Some _ => true | None => false end.

(** The sort fields [buildUnion] makes of the ORDER BY scope's columns. *)
Definition sortFieldsOf (orderByScope : scope) : list SortField :=
  map (λ c, {| Column := scalar c;
               Order := if descending c then Descending else Ascending |})
      (cols orderByScope).

Section Union.
(** The parser's select statements, ORDER BY and LIMIT clauses, and the
    builder's other entry points, which are not in from.go.  Each may abort
    the build. *)
Variables (SelectStatement OrderBy Limit : Type).
Variable UnionAllStr : string.
Variable buildSelectStmt : scope → SelectStatement → result scope.
Variable buildLimit : scope → option Limit → result (option Expr).
Variable buildOffset : scope → option Limit → result (option Expr).
Variable analyzeOrderBy : scope → scope → OrderBy → result scope.

(** [ast.Union]. *)
Record UnionAst : Type := {
  u_Type : string;
  u_Left : SelectStatement;
  u_Right : SelectStatement;
  u_OrderBy : OrderBy;
  u_Limit : option Limit;
}.

(** The branch of [buildUnion] taken when the left node is a union [n]:
    the inner sort fields, limit and offset replace the outer ones, after a
    conflict check for each, and the inner union is rebuilt without them. *)
Definition hoistInner (leftScope : scope) (nl nr : option Node) (nd : bool)
    (nLimit nOffset : option Expr) (nSortFields : list SortField)
    (limit offset : option Expr) (sortFields : list SortField)
  : result (scope * option Expr * option Expr * list SortField) :=
  sortFields ←
    (if 0 <? length nSortFields then
       when (0 <? length sortFields) (handleErr ErrConflictingExternalQuery)
         ≫= λ _ : unit, Ok nSortFields
     else Ok sortFields);
  limit ←
    (if not_nil nLimit then
       when (not_nil limit) (handleErr (Errorf "conflicing external LIMIT"))
         ≫= λ _ : unit, Ok nLimit
     else Ok limit);
  offset ←
    (if not_nil nOffset then
       when (not_nil offset) (handleErr (Errorf "conflicing external OFFSET"))
         ≫= λ _ : unit, Ok nOffset
     else Ok offset);
  Ok (setNode leftScope (Some (NewUnion nl nr nd None None [])), limit, offset, sortFields).

(** [func (b *PlanBuilder) buildUnion(inScope *scope, u *ast.Union) (outScope *scope)] *)
Definition buildUnion (inScope : scope) (u : UnionAst) : result scope :=
  leftScope ← buildSelectStmt inScope (u_Left u);
  rightScope ← buildSelectStmt inScope (u_Right u);
  let distinct := negb (String.eqb (u_Type u) UnionAllStr) in
  limit ← buildLimit inScope (u_Limit u);
  offset ← buildOffset inScope (u_Limit u);
  orderByScope ← analyzeOrderBy leftScope leftScope (u_OrderBy u);
  let sortFields := sortFieldsOf orderByScope in
  '(leftScope, limit, offset, sortFields) ←
    match node leftScope with
    | Some (Union nl nr nd nLimit nOffset nSortFields) =>
        hoistInner leftScope nl nr nd nLimit nOffset nSortFields limit offset sortFields
    | _ => Ok (leftScope, limit, offset, sortFields)
    end;
  let ret := NewUnion (node leftScope) (node rightScope) distinct limit offset sortFields in
  Ok (setNode leftScope (Some ret)).

Lemma not_nil_Some {A} (p : option A) : p ≠ None → not_nil p = true.
Proof. destruct p; [reflexivity | congruence]. Qed.

(** ** C6 *)

(** C6, as the code has it.  When the left child of a union is itself a
    union, the three settings are checked in the order sort, limit, offset.
    If both unions set sort fields the build fails with
    [ErrConflictingExternalQuery].  If there is no sort conflict (one of the
    two has no sort fields) and both set a limit, it fails with the error
    "conflicing external LIMIT".  If there is no sort and no limit conflict
    and both set an offset, it fails with "conflicing external OFFSET".  With
    no conflict at all the build succeeds: the inner union is rebuilt without
    sort, limit and offset, and each of the three is, in the outer node, the
    inner union's when the inner union sets it and the outer union's own
    otherwise; so when only the inner union carries them they are hoisted. *)
Theorem buildUnion_left_union (inScope : scope) (u : UnionAst)
    (leftScope rightScope orderByScope : scope) (limit offset : option Expr)
    (nl nr : option Node) (nd : bool) (nLimit nOffset : option Expr)
    (nSortFields : list SortField) :
  buildSelectStmt inScope (u_Left u) = Ok leftScope →
  buildSelectStmt inScope (u_Right u) = Ok rightScope →
  buildLimit inScope (u_Limit u) = Ok limit →
  buildOffset inScope (u_Limit u) = Ok offset →
  analyzeOrderBy leftScope leftScope (u_OrderBy u) = Ok orderByScope →
  node leftScope = Some (Union nl nr nd nLimit nOffset nSortFields) →
  (nSortFields = [] ∨ sortFieldsOf orderByScope = [] →
   nLimit = None ∨ limit = None →
   nOffset = None ∨ offset = None →
     buildUnion inScope u
     = Ok (setNode leftScope
             (Some (NewUnion (Some (NewUnion nl nr nd None None [])) (node rightScope)
                      (negb (String.eqb (u_Type u) UnionAllStr))
                      (match nLimit with Some _ => nLimit | None => limit end)
                      (match nOffset with Some _ => nOffset | None => offset end)
                      (match nSortFields with
                       | [] => sortFieldsOf orderByScope
                       | _ :: _ => nSortFields
                       end)))))
  ∧ (nSortFields ≠ [] → sortFieldsOf orderByScope ≠ [] →
     buildUnion inScope u = Err ErrConflictingExternalQuery)
  ∧ (nSortFields = [] ∨ sortFieldsOf orderByScope = [] →
     nLimit ≠ None → limit ≠ None →
     buildUnion inScope u = Err (Errorf "conflicing external LIMIT"))
  ∧ (nSortFields = [] ∨ sortFieldsOf orderByScope = [] →
     nLimit = None ∨ limit = None →
     nOffset ≠ None → offset ≠ None →
     buildUnion inScope u = Err (Errorf "conflicing external OFFSET")).
Proof.
  intros Hl Hr Hlim Hoff Hob Hn.
  unfold buildUnion. rewrite Hl. cbn. rewrite Hr. cbn. rewrite Hlim. cbn.
  rewrite Hoff. cbn. rewrite Hob. cbn. rewrite Hn. unfold hoistInner.
  split_and!.
  - intros Hs Hli Ho.
    destruct nSortFields as [|sf nsf], (sortFieldsOf orderByScope) as [|sf' sfs];
      try (destruct Hs; discriminate);
      destruct nLimit as [nli|], limit as [li|];
      try (destruct Hli; discriminate);
      destruct nOffset as [no|], offset as [o|];
      try (destruct Ho; discriminate); reflexivity.
  - intros Hns Hs.
    destruct nSortFields as [|sf nsf]; [congruence|].
    destruct (sortFieldsOf orderByScope) as [|sf' sfs]; [congruence|]. reflexivity.
  - intros Hs Hnl Hlimit. rewrite (not_nil_Some _ Hnl), (not_nil_Some _ Hlimit).
    destruct nSortFields as [|sf nsf], (sortFieldsOf orderByScope) as [|sf' sfs];
      try (destruct Hs; discriminate); reflexivity.
  - intros Hs Hli Hno Hoffset. rewrite (not_nil_Some _ Hno), (not_nil_Some _ Hoffset).
    destruct nSortFields as [|sf nsf], (sortFieldsOf orderByScope) as [|sf' sfs];
      try (destruct Hs; discriminate);
      destruct nLimit as [nli|], limit as [li|];
      try (destruct Hli; discriminate); reflexivity.
Qed.

(** A union whose left child is no union keeps the outer sort, limit and
    offset as they are. *)
Lemma buildUnion_left_plain (inScope : scope) (u : UnionAst)
    (leftScope rightScope orderByScope : scope) (limit offset : option Expr) :
  buildSelectStmt inScope (u_Left u) = Ok leftScope →
  buildSelectStmt inScope (u_Right u) = Ok rightScope →
  buildLimit inScope (u_Limit u) = Ok limit →
  buildOffset inScope (u_Limit u) = Ok offset →
  analyzeOrderBy leftScope leftScope (u_OrderBy u) = Ok orderByScope →
  (∀ l r d li o s, node leftScope ≠ Some (Union l r d li o s)) →
  buildUnion inScope u
  = Ok (setNode leftScope
          (Some (NewUnion (node leftScope) (node rightScope)
                   (negb (String.eqb (u_Type u) UnionAllStr))
                   limit offset (sortFieldsOf orderByScope)))).
Proof.
  intros Hl Hr Hlim Hoff Hob Hn.
  unfold buildUnion. rewrite Hl. cbn. rewrite Hr. cbn. rewrite Hlim. cbn.
  rewrite Hoff. cbn. rewrite Hob. cbn.
  destruct (node leftScope) as [[tn|jl jr jo jf|l r d li o s]|] eqn:E;
    cbn; rewrite ?E; try reflexivity.
  now destruct (Hn l r d li o s).
Qed.

End Union.

Arguments buildUnion {SelectStatement OrderBy Limit}.

(** A builder whose parts hand back what the statement carries: a select
    statement is its scope, a LIMIT clause its limit and offset, the ORDER BY
    its columns. *)
Definition selectOf (_ : scope) (s : scope) : result scope := Ok s.

Definition limitOf (_ : scope) (l : option (option Expr * option Expr)) : result (option Expr) :=
  Ok (l ≫= fst).

Definition offsetOf (_ : scope) (l : option (option Expr * option Expr)) : result (option Expr) :=
  Ok (l ≫= snd).

Definition orderByOf (_ _ : scope) (ob : list scopeColumn) : result scope :=
  Ok {| parent := None; node := None; cols := ob; redirectCol := [] |}.

Abbreviation buildUnion' := (buildUnion "union all" selectOf limitOf offsetOf orderByOf).

Definition byA : SortField := {| Column := Some (Scalar "a"); Order := Ascending |}.

(** [(t1 UNION t2 ORDER BY a LIMIT 1) UNION t2], then with an outer
    [ORDER BY a], then with an outer [LIMIT 2]. *)
Definition innerUnion : scope :=
  {| parent := None;
     node := Some (Union (Some (Table "t1")) (Some (Table "t2")) true
                     (Some (Scalar "1")) None [byA]);
     cols := [colA]; redirectCol := [] |}.

Definition unionPlain : UnionAst scope (list scopeColumn) (option Expr * option Expr) :=
  {| u_Type := "union"; u_Left := innerUnion; u_Right := scopeT2;
     u_OrderBy := []; u_Limit := None |}.

Definition unionOrderBy : UnionAst scope (list scopeColumn) (option Expr * option Expr) :=
  {| u_Type := "union"; u_Left := innerUnion; u_Right := scopeT2;
     u_OrderBy := [{| db := "db"; table := "t1"; col := "a"; id := 1;
                      scalar := Some (Scalar "a"); nullable := false;
                      descending := false |}];
     u_Limit := None |}.

Definition unionLimit : UnionAst scope (list scopeColumn) (option Expr * option Expr) :=
  {| u_Type := "union"; u_Left := innerUnion; u_Right := scopeT2;
     u_OrderBy := []; u_Limit := Some (Some (Scalar "2"), None) |}.

(** [(t1 UNION t2 LIMIT 1) UNION t2 ORDER BY a LIMIT 2]: the inner union
    has no sort fields, the outer has; both set a limit. *)
Definition innerLimit : scope :=
  {| parent := None;
     node := Some (Union (Some (Table "t1")) (Some (Table "t2")) true
                     (Some (Scalar "1")) None []);
     cols := [colA]; redirectCol := [] |}.

Definition unionOrderByLimit
  : UnionAst scope (list scopeColumn) (option Expr * option Expr) :=
  {| u_Type := "union"; u_Left := innerLimit; u_Right := scopeT2;
     u_OrderBy := u_OrderBy _ _ _ unionOrderBy;
     u_Limit := Some (Some (Scalar "2"), None) |}.

(** [(t1 UNION t2 LIMIT 1) UNION t2 ORDER BY a]: sort from the outer
    union, limit from the inner. *)
Definition unionMixed : UnionAst scope (list scopeColumn) (option Expr * option Expr) :=
  {| u_Type := "union"; u_Left := innerLimit; u_Right := scopeT2;
     u_OrderBy := u_OrderBy _ _ _ unionOrderBy; u_Limit := None |}.

Lemma buildUnion_left_union_witness :
  buildUnion' rootScope unionPlain
  = Ok (setNode innerUnion
          (Some (NewUnion
                   (Some (NewUnion (Some (Table "t1")) (Some (Table "t2")) true None None []))
                   (Some (Table "t2")) true (Some (Scalar "1")) None [byA])))
  ∧ buildUnion' rootScope unionOrderBy = Err ErrConflictingExternalQuery
  ∧ buildUnion' rootScope unionOrderByLimit = Err (Errorf "conflicing external LIMIT")
  ∧ buildUnion' rootScope unionMixed
    = Ok (setNode innerLimit
            (Some (NewUnion
                     (Some (NewUnion (Some (Table "t1")) (Some (Table "t2")) true None None []))
                     (Some (Table "t2")) true (Some (Scalar "1")) None [byA]))).
Proof.
  split_and!.
  - apply (buildUnion_left_union _ _ _ "union all" selectOf limitOf offsetOf orderByOf
             rootScope unionPlain innerUnion scopeT2
             {| parent := None; node := None; cols := []; redirectCol := [] |}
             None None (Some (Table "t1")) (Some (Table "t2")) true
             (Some (Scalar "1")) None [byA]); try reflexivity; right; reflexivity.
  - apply (buildUnion_left_union _ _ _ "union all" selectOf limitOf offsetOf orderByOf
             rootScope unionOrderBy innerUnion scopeT2
             {| parent := None; node := None; cols := u_OrderBy _ _ _ unionOrderBy;
                redirectCol := [] |}
             None None (Some (Table "t1")) (Some (Table "t2")) true
             (Some (Scalar "1")) None [byA]); (reflexivity || discriminate).
  - apply (buildUnion_left_union _ _ _ "union all" selectOf limitOf offsetOf orderByOf
             rootScope unionOrderByLimit innerLimit scopeT2
             {| parent := None; node := None; cols := u_OrderBy _ _ _ unionOrderBy;
                redirectCol := [] |}
             (Some (Scalar "2")) None (Some (Table "t1")) (Some (Table "t2")) true
             (Some (Scalar "1")) None []);
      first [reflexivity | discriminate | left; reflexivity].
  - apply (buildUnion_left_union _ _ _ "union all" selectOf limitOf offsetOf orderByOf
             rootScope unionMixed innerLimit scopeT2
             {| parent := None; node := None; cols := u_OrderBy _ _ _ unionOrderBy;
                redirectCol := [] |}
             None None (Some (Table "t1")) (Some (Table "t2")) true
             (Some (Scalar "1")) None []);
      first [reflexivity | left; reflexivity | right; reflexivity].
Defined.

(** [t1 UNION t2 LIMIT 2]: the left child is a table. *)
Definition unionOfTables : UnionAst scope (list scopeColumn) (option Expr * option Expr) :=
  {| u_Type := "union"; u_Left := scopeT1; u_Right := scopeT2;
     u_OrderBy := []; u_Limit := Some (Some (Scalar "2"), None) |}.

Lemma buildUnion_left_plain_witness :
  buildUnion' rootScope unionOfTables
  = Ok (setNode scopeT1
          (Some (NewUnion (Some (Table "t1")) (Some (Table "t2")) true
                   (Some (Scalar "2")) None []))).
Proof.
  apply (buildUnion_left_plain _ _ _ "union all" selectOf limitOf offsetOf orderByOf
           rootScope unionOfTables scopeT1 scopeT2
           {| parent := None; node := None; cols := []; redirectCol := [] |}
           (Some (Scalar "2")) None); try reflexivity.
  intros l r d li o s. discriminate.
Defined.

(** Both the inner and the outer union set a limit: the build fails, but
    not with [ErrConflictingExternalQuery]. *)
Lemma buildUnion_limit_conflict_other_error :
  buildUnion' rootScope unionLimit = Err (Errorf "conflicing external LIMIT")
  ∧ buildUnion' rootScope unionLimit ≠ Err ErrConflictingExternalQuery.
Proof. split; [reflexivity | discriminate]. Qed.

(** ** FROM lists and joins *)

Section FromClause.
(** What a table expression or a scalar of the parser holds beside what
    [buildFrom] and [buildJoin] read. *)
Variables (Payload AstOther : Type).

(** [ast.Expr]: [ast.BoolVal], and the others. *)
Inductive AstExpr : Type :=
  | BoolVal (b : bool)
  | OtherExpr (e : AstOther).

(** [ast.TableExpr], with the cases that [isLateral] and [buildJoin] tell
    apart, and [ast.JoinTableExpr] with the fields that from.go reads
    ([On] is [Condition.On]).  Fields of interface type may be nil. *)
Inductive TableExpr : Type :=
  | AliasedTableExpr (p : Payload) (Lateral : bool)
  | JSONTableExpr (p : Payload)
  | OtherTableExpr (p : Payload)
  | JoinTable (j : JoinTableExpr)
with JoinTableExpr : Type :=
  | MkJoinTableExpr (LeftExpr RightExpr : option TableExpr) (Join : string)
                    (On : option AstExpr).

Definition LeftExpr (te : JoinTableExpr) : option TableExpr :=
  let 'MkJoinTableExpr l _ _ _ := te in l.

Definition RightExpr (te : JoinTableExpr) : option TableExpr :=
  let 'MkJoinTableExpr _ r _ _ := te in r.

Definition Join (te : JoinTableExpr) : string :=
  let 'MkJoinTableExpr _ _ j _ := te in j.

Definition On (te : JoinTableExpr) : option AstExpr :=
  let 'MkJoinTableExpr _ _ _ on := te in on.

(** The join keywords of the parser ([ast.JoinStr] and the like),
    [strings.EqualFold] and [strings.ToLower]. *)
Variables (JoinStr LeftJoinStr RightJoinStr FullOuterJoinStr NaturalJoinStr : string).
Variable EqualFold : string → string → bool.
Variable ToLower : string → string.

(** Of the builder and the scope: [buildScalar], the table names of a
    scope ([scope.tables]), [appendColumnsFromScope], the error kind
    [sql.ErrDuplicateAliasOrTable] and [plan.NewResolvedDualTable] are not
    among the sources.  [buildDataSource] is the function of from.go; the
    joins are stated for any function in its place. *)
Variable buildDataSource : scope → option TableExpr → result scope.
Variable buildScalar : scope → option AstExpr → result (option Expr).
Variable scopeTables : scope → list string.
Variable appendColumnsFromScope : scope → scope → scope.
Variable ErrDuplicateAliasOrTable : Error.
Variable NewResolvedDualTable : Node.
Variable empty : scopeColumn → bool.
Variable scalarGf : scopeColumn → Expr.

(** [func (b *PlanBuilder) validateJoinTableNames(leftScope, rightScope *scope)] *)
Definition validateJoinTableNames (leftScope rightScope : scope) : result unit :=
  if existsb (λ t, bool_decide (t ∈ scopeTables rightScope)) (scopeTables leftScope)
  then handleErr ErrDuplicateAliasOrTable
  else Ok ().

(** [func (b *PlanBuilder) isLateral(te ast.TableExpr) bool] *)
Definition isLateral (te : option TableExpr) : bool :=
  match te with
  | Some (JSONTableExpr _) => true
  | Some (AliasedTableExpr _ Lateral) => Lateral
  | _ => false
  end.

(** [te.Condition.On == nil || te.Condition.On == ast.BoolVal(true)] *)
Definition onTrue (on : option AstExpr) : bool :=
  match on with
  | None => true
  | Some (BoolVal true) => true
  | Some _ => false
  end.

(** The right side is an aliased table expression and its [Lateral] is
    set ([ok && rast.Lateral] after the type assertion). *)
Definition lateralAliased (te : option TableExpr) : bool :=
  match te with
  | Some (AliasedTableExpr _ Lateral) => Lateral
  | _ => false
  end.

(** The [switch strings.ToLower(te.Join)] of [buildJoin]. *)
Definition joinOp (te : JoinTableExpr) : result JoinType :=
  let j := ToLower (Join te) in
  if bool_decide (j = JoinStr) then
    Ok (if isLateral (RightExpr te) then JoinTypeLateralInner else JoinTypeInner)
  else if bool_decide (j = LeftJoinStr) then
    Ok (if isLateral (RightExpr te) then JoinTypeLateralLeft else JoinTypeLeftOuter)
  else if bool_decide (j = RightJoinStr) then
    Ok (if isLateral (RightExpr te) then JoinTypeLateralRight else JoinTypeRightOuter)
  else if bool_decide (j = FullOuterJoinStr) then Ok JoinTypeFullOuter
  else handleErr (Errorf ("unknown join type: " +:+ Join te)).

(** [func (b *PlanBuilder) buildJoin(inScope *scope, te *ast.JoinTableExpr) (outScope *scope)] *)
Definition buildJoin (inScope : scope) (te : JoinTableExpr) : result scope :=
  leftScope ← buildDataSource inScope (LeftExpr te);
  let rightInScope :=
    if isLateral (RightExpr te) && negb (bool_decide (Join te = RightJoinStr))
    then leftScope else inScope in
  rightScope ← buildDataSource rightInScope (RightExpr te);
  _ ← validateJoinTableNames leftScope rightScope;
  if EqualFold (Join te) NaturalJoinStr
  then Ok (buildNaturalJoin empty scalarGf inScope leftScope rightScope)
  else
    let outScope := push inScope in
    let outScope := appendColumnsFromScope outScope leftScope in
    let outScope := appendColumnsFromScope outScope rightScope in
    if onTrue (On te) then
      if lateralAliased (RightExpr te)
      then Ok (setNode outScope
                 (Some (NewJoin (node leftScope) (node rightScope) JoinTypeLateralCross None)))
      else Ok (setNode outScope (Some (NewCrossJoin (node leftScope) (node rightScope))))
    else
      filter ← buildScalar outScope (On te);
      op ← joinOp te;
      Ok (setNode outScope (Some (NewJoin (node leftScope) (node rightScope) op filter))).

(** The join that [buildFrom] makes of two entries of the FROM list. *)
Definition commaJoin (l r : option TableExpr) : JoinTableExpr :=
  MkJoinTableExpr l r JoinStr (Some (BoolVal true)).

(** [func (b *PlanBuilder) buildFrom(inScope *scope, te ast.TableExprs) (outScope *scope)] *)
Definition buildFrom (inScope : scope) (te : list (option TableExpr)) : result scope :=
  if length te =? 0 then Ok (setNode (push inScope) (Some NewResolvedDualTable))
  else if 1 <? length te then
    te0 ← index te 0;
    te1 ← index te 1;
    let cj := commaJoin te0 te1 in
    let cj := fold_left (λ cj t, commaJoin (Some (JoinTable cj)) t) (drop 2 te) cj in
    buildJoin inScope cj
  else
    te0 ← index te 0;
    buildDataSource inScope te0.

(** The operands of the [n + 1] joins down the left spine of a join, from
    the innermost left operand to the outermost right operand. *)
Fixpoint spine (n : nat) (j : JoinTableExpr) : list (option TableExpr) :=
  match n with
  | 0 => [LeftExpr j; RightExpr j]
  | S n' =>
      match LeftExpr j with
      | Some (JoinTable j') => spine n' j' ++ [RightExpr j]
      | _ => []
      end
  end.

(** Each of those joins is a plain join ON TRUE. *)
Fixpoint commaSpine (n : nat) (j : JoinTableExpr) : Prop :=
  Join j = JoinStr ∧ On j = Some (BoolVal true)
  ∧ match n with
    | 0 => True
    | S n' =>
        match LeftExpr j with
        | Some (JoinTable j') => commaSpine n' j'
        | _ => False
        end
    end.

Lemma commaJoin_fold (rest ops : list (option TableExpr)) (n : nat) (cj : JoinTableExpr) :
  spine n cj = ops →
  commaSpine n cj →
  spine (n + length rest)
        (fold_left (λ cj t, commaJoin (Some (JoinTable cj)) t) rest cj) = ops ++ rest
  ∧ commaSpine (n + length rest)
               (fold_left (λ cj t, commaJoin (Some (JoinTable cj)) t) rest cj).
Proof.
  revert ops n cj. induction rest as [|t rest IH]; intros ops n cj Hops Hcomma; cbn.
  - rewrite Nat.add_0_r, app_nil_r. now split.
  - replace (n + S (length rest)) with (S n + length rest) by lia.
    replace (ops ++ t :: rest) with ((ops ++ [t]) ++ rest) by now rewrite <- app_assoc.
    apply IH.
    + cbn. now rewrite Hops.
    + cbn. now split_and!.
Qed.

(** A FROM list of two or more entries is built as one join: the join
    handed to [buildJoin] is left-deep, its operands are the entries of the
    list in their order, and every join in it is a plain join ON TRUE. *)
Theorem buildFrom_comma_join (inScope : scope) (te : list (option TableExpr)) :
  2 ≤ length te →
  ∃ cj, buildFrom inScope te = buildJoin inScope cj
        ∧ spine (length te - 2) cj = te
        ∧ commaSpine (length te - 2) cj.
Proof.
  destruct te as [|te0 [|te1 rest]]; cbn [length]; try lia. intros _.
  eexists. split; [reflexivity|].
  replace (S (S (length rest)) - 2) with (0 + length rest) by lia.
  apply (commaJoin_fold rest [te0; te1] 0 (commaJoin te0 te1)); [reflexivity|].
  cbn. now split_and!.
Qed.

(** A join whose condition is absent or the literal TRUE is built as a
    cross join, whatever its keyword (LEFT, RIGHT and FULL OUTER included),
    unless the keyword is NATURAL JOIN: when both sides build and share no
    table name, the node is the cross join of the two sides, of the lateral
    kind exactly when the right side is a lateral aliased table, and the
    condition is never built. *)
Theorem buildJoin_on_true_is_cross (inScope leftScope rightScope : scope)
    (te : JoinTableExpr) :
  buildDataSource inScope (LeftExpr te) = Ok leftScope →
  buildDataSource
    (if isLateral (RightExpr te) && negb (bool_decide (Join te = RightJoinStr))
     then leftScope else inScope) (RightExpr te) = Ok rightScope →
  (∀ t, t ∈ scopeTables leftScope → t ∉ scopeTables rightScope) →
  EqualFold (Join te) NaturalJoinStr = false →
  onTrue (On te) = true →
  ∃ outScope,
    buildJoin inScope te = Ok outScope
    ∧ node outScope
      = Some (JoinNode (node leftScope) (node rightScope)
                (if lateralAliased (RightExpr te) then JoinTypeLateralCross
                 else JoinTypeCross) None).
Proof.
  intros Hleft Hright Hdisj Hnat Hon. unfold buildJoin.
  rewrite Hleft. cbn. rewrite Hright. cbn.
  assert (validateJoinTableNames leftScope rightScope = Ok ()) as ->.
  { unfold validateJoinTableNames.
    assert (existsb (λ t, bool_decide (t ∈ scopeTables rightScope))
              (scopeTables leftScope) = false) as ->; [|reflexivity].
    induction (scopeTables leftScope) as [|t l IH]; cbn; [reflexivity|].
    rewrite bool_decide_false by (apply Hdisj; apply list_elem_of_here).
    apply IH. intros t' Ht'. apply Hdisj. now apply list_elem_of_further. }
  cbn. rewrite Hnat, Hon.
  destruct (lateralAliased (RightExpr te)); eexists; split; reflexivity.
Qed.

(** Two sides that share a table name are refused, before the keyword
    and the condition are looked at. *)
Theorem buildJoin_duplicate_table (inScope leftScope rightScope : scope)
    (te : JoinTableExpr) (t : string) :
  buildDataSource inScope (LeftExpr te) = Ok leftScope →
  buildDataSource
    (if isLateral (RightExpr te) && negb (bool_decide (Join te = RightJoinStr))
     then leftScope else inScope) (RightExpr te) = Ok rightScope →
  t ∈ scopeTables leftScope →
  t ∈ scopeTables rightScope →
  buildJoin inScope te = Err ErrDuplicateAliasOrTable.
Proof.
  intros Hleft Hright Hl Hr. unfold buildJoin.
  rewrite Hleft. cbn. rewrite Hright. cbn.
  assert (validateJoinTableNames leftScope rightScope = Err ErrDuplicateAliasOrTable) as ->;
    [|reflexivity].
  unfold validateJoinTableNames.
  assert (existsb (λ t, bool_decide (t ∈ scopeTables rightScope))
            (scopeTables leftScope) = true) as ->; [|reflexivity].
  apply existsb_exists. exists t. split; [now apply list_elem_of_In|].
  now apply bool_decide_eq_true.
Qed.

End FromClause.

Definition tablesOfNode (s : scope) : list string :=
  match node s with
  | Some (Table name) => [name]
  | _ => []
  end.

Definition appendCols (outScope s : scope) : scope :=
  {| parent := parent outScope; node := node outScope; cols := cols outScope ++ cols s;
     redirectCol := redirectCol outScope |}.

Definition noScalar (_ : scope) (_ : option (AstExpr string)) : result (option Expr) :=
  Err (Errorf "no scalar").

(** Table expressions that hold the name of their table, and a
    [buildDataSource] for tables and joins: as in from.go, a join is handed
    to [buildJoin]. *)
Fixpoint sourceOf (inScope : scope) (te : TableExpr string string) {struct te}
  : result scope :=
  match te with
  | AliasedTableExpr _ _ name _ =>
      Ok {| parent := Some inScope; node := Some (Table name); cols := [];
            redirectCol := [] |}
  | JoinTable _ _ j =>
      buildJoin string string "join" "left join" "right join" "full outer join"
        "natural join" String.eqb (λ s, s)
        (λ s o, match o with
                | Some t => sourceOf s t
                | None => Err (Errorf "unsupported syntax")
                end)
        noScalar tablesOfNode appendCols (Errorf "duplicate table") emptyById fieldOf
        inScope j
  | _ => Err (Errorf "unsupported syntax")
  end.

Definition tableSource (inScope : scope) (te : option (TableExpr string string))
  : result scope :=
  match te with
  | Some t => sourceOf inScope t
  | None => Err (Errorf "unsupported syntax")
  end.

(** [t1 LEFT JOIN t2 ON TRUE]. *)
Definition leftJoinOnTrue : JoinTableExpr string string :=
  MkJoinTableExpr _ _ (Some (AliasedTableExpr _ _ "t1" false))
                  (Some (AliasedTableExpr _ _ "t2" false)) "left join"
                  (Some (BoolVal _ true)).

(** The builder of joins over these. *)
Definition buildJoinOfTables : scope → JoinTableExpr string string → result scope :=
  buildJoin string string "join" "left join" "right join" "full outer join" "natural join"
    String.eqb (λ s, s) tableSource noScalar tablesOfNode appendCols
    (Errorf "duplicate table") emptyById fieldOf.

Definition buildFromOfTables : scope → list (option (TableExpr string string)) → result scope :=
  buildFrom string string "join" "left join" "right join" "full outer join" "natural join"
    String.eqb (λ s, s) tableSource noScalar tablesOfNode appendCols
    (Errorf "duplicate table") (Table "dual") emptyById fieldOf.

Definition scopeOfTable (name : string) : scope :=
  {| parent := Some rootScope; node := Some (Table name); cols := []; redirectCol := [] |}.

Lemma buildFrom_comma_join_witness :
  ∃ cj,
    buildFromOfTables rootScope
      [Some (AliasedTableExpr _ _ "t1" false); Some (AliasedTableExpr _ _ "t2" false);
       Some (AliasedTableExpr _ _ "t3" false)]
    = buildJoinOfTables rootScope cj
    ∧ spine string string 1 cj
      = [Some (AliasedTableExpr _ _ "t1" false); Some (AliasedTableExpr _ _ "t2" false);
         Some (AliasedTableExpr _ _ "t3" false)]
    ∧ commaSpine string string "join" 1 cj.
Proof.
  apply (buildFrom_comma_join string string "join" "left join" "right join"
           "full outer join" "natural join" String.eqb (λ s, s) tableSource noScalar
           tablesOfNode appendCols (Errorf "duplicate table") (Table "dual") emptyById
           fieldOf rootScope
           [Some (AliasedTableExpr _ _ "t1" false); Some (AliasedTableExpr _ _ "t2" false);
            Some (AliasedTableExpr _ _ "t3" false)]).
  cbn. lia.
Defined.

Lemma buildJoin_on_true_is_cross_witness :
  ∃ outScope,
    buildJoinOfTables rootScope leftJoinOnTrue = Ok outScope
    ∧ node outScope
      = Some (JoinNode (Some (Table "t1")) (Some (Table "t2")) JoinTypeCross None).
Proof.
  apply (buildJoin_on_true_is_cross string string "join" "left join" "right join"
           "full outer join" "natural join" String.eqb (λ s, s) tableSource noScalar
           tablesOfNode appendCols (Errorf "duplicate table") emptyById fieldOf rootScope
           (scopeOfTable "t1") (scopeOfTable "t2") leftJoinOnTrue).
  - reflexivity.
  - reflexivity.
  - cbn. intros t Ht%list_elem_of_singleton Ht'%list_elem_of_singleton.
    rewrite Ht in Ht'. discriminate.
  - reflexivity.
  - reflexivity.
Defined.

Lemma buildJoin_duplicate_table_witness :
  buildJoinOfTables rootScope
    (MkJoinTableExpr _ _ (Some (AliasedTableExpr _ _ "t1" false))
                     (Some (AliasedTableExpr _ _ "t1" false)) "join" None)
  = Err (Errorf "duplicate table").
Proof.
  apply (buildJoin_duplicate_table string string "join" "left join" "right join"
           "full outer join" "natural join" String.eqb (λ s, s) tableSource noScalar
           tablesOfNode appendCols (Errorf "duplicate table") emptyById fieldOf rootScope
           (scopeOfTable "t1") (scopeOfTable "t1") _ "t1").
  - reflexivity.
  - reflexivity.
  - cbn. apply list_elem_of_here.
  - cbn. apply list_elem_of_here.
Defined.

(** [FROM t1, t2, t3] is the cross join of the cross join of [t1] and
    [t2] with [t3]. *)
Example buildFrom_three_tables :
  node <$> (match buildFromOfTables rootScope
                    [Some (AliasedTableExpr _ _ "t1" false);
                     Some (AliasedTableExpr _ _ "t2" false);
                     Some (AliasedTableExpr _ _ "t3" false)] with
            | Ok s => Some s
            | _ => None
            end)
  = Some (Some (JoinNode (Some (JoinNode (Some (Table "t1")) (Some (Table "t2"))
                                   JoinTypeCross None))
                         (Some (Table "t3")) JoinTypeCross None)).
Proof. reflexivity. Qed.

End PlanBuilder.


(* ===================================================================== *)
(** * plan: LookupBuilder and IndexedTableAccess *)
(* ===================================================================== *)

Module IndexedAccess.
Section IndexedAccess.
Context {V Ctx : Type}.

Abbreviation value := (option V).
Abbreviation SqlType := (Sql.SqlType V).
Abbreviation Expression := (Sql.Expression V Ctx).

(** [sql.RangeCut]: [Below] and [Above] a key are the cuts [GetLookup]
    writes; the others are the end points the range constructors use. *)
Inductive RangeCut : Type :=
  | Below (Key : value)
  | Above (Key : value)
  | BelowNull
  | AboveNull
  | AboveAll.

(** [sql.RangeColumnExpr] and [sql.Range].  The bounds and the type are
    interface values: nil in the zero value that [make] fills a range with. *)
Record RangeColumnExpr : Type := {
  LowerBound : option RangeCut;
  UpperBound : option RangeCut;
  Typ : option SqlType;
}.

Abbreviation Range := (list RangeColumnExpr).

Definition zeroRangeColumnExpr : RangeColumnExpr :=
  {| LowerBound := None; UpperBound := None; Typ := None |}.

(** The range constructors of package sql, which are not among the
    sources: the builder is stated for any implementation of them. *)
Class RangeExprs : Type := {
  AllRangeColumnExpr : SqlType → RangeColumnExpr;
  NullRangeColumnExpr : SqlType → RangeColumnExpr;
  NotNullRangeColumnExpr : SqlType → RangeColumnExpr;
  ClosedRangeColumnExpr : value → value → SqlType → RangeColumnExpr;
}.

(** [sql.ColumnExpressionType]. *)
Record ColumnExpressionType : Type := {
  cet_Expression : string;
  cet_Type : SqlType;
}.

(** [sql.Index], an interface, by what its methods answer. *)
Record Index : Type := {
  IsUnique : bool;
  ColumnExpressionTypes : list ColumnExpressionType;
  CanSupport : list Range → bool;
}.

(** [sql.IndexLookup]. *)
Record IndexLookup : Type := {
  lk_Index : option Index;
  Ranges : list Range;
  IsPointLookup : bool;
  IsEmptyRange : bool;
  IsSpatialLookup : bool;
  IsReverse : bool;
}.

Definition zeroIndexLookup : IndexLookup :=
  {| lk_Index := None; Ranges := []; IsPointLookup := false; IsEmptyRange := false;
     IsSpatialLookup := false; IsReverse := false |}.

(** [type lookupBuilderKey []interface{}] *)
Abbreviation lookupBuilderKey := (list value).

(** [type LookupBuilder struct].  [rang] and [key] are slices, nil until
    first used. *)
Record LookupBuilder : Type := {
  keyExprs : list Expression;
  matchesNullMask : list bool;
  index_ : option Index;
  key : option lookupBuilderKey;
  rang : option Range;
  nullSafe : bool;
  isPointLookup : bool;
  emptyRange : bool;
  cets : list ColumnExpressionType;
}.

(** The builder with its range and the two flags that [GetLookup]
    rewrites replaced. *)
Definition with_dyn (lb : LookupBuilder) (r : option Range) (pl er : bool) : LookupBuilder :=
  {| keyExprs := keyExprs lb; matchesNullMask := matchesNullMask lb; index_ := index_ lb;
     key := key lb; rang := r; nullSafe := nullSafe lb; isPointLookup := pl;
     emptyRange := er; cets := cets lb |}.

Definition is_nil (v : value) : bool :=
  match v with None => true | Some _ => false end.

(** [nullSafe] as [NewLookupBuilder] computes it: true, then false from
    the first mask bit that is set. *)
Definition nullSafeOf (matchesNullMask : list bool) : bool :=
  fold_left (λ nullSafe m : bool, if m then false else nullSafe) matchesNullMask true.

(** [func NewLookupBuilder(index sql.Index, keyExprs []sql.Expression, matchesNullMask []bool) *LookupBuilder] *)
Definition NewLookupBuilder (index : option Index) (keyExprs : list Expression)
    (matchesNullMask : list bool) : result LookupBuilder :=
  idx ← deref index;
  let cets := ColumnExpressionTypes idx in
  Ok {| keyExprs := keyExprs; matchesNullMask := matchesNullMask; index_ := index;
        key := None; rang := None; nullSafe := nullSafeOf matchesNullMask;
        isPointLookup := true; emptyRange := false; cets := cets |}.

Context `{RangeExprs}.

(** [if key[i] == nil { lb.emptyRange = true; lb.isPointLookup = false }] *)
Definition flagNil (lb : LookupBuilder) (k : value) : LookupBuilder :=
  if is_nil k then with_dyn lb (rang lb) false true else lb.

(** [lb.rang[i] = rce] *)
Definition setRang (lb : LookupBuilder) (i : nat) (rce : RangeColumnExpr) : result LookupBuilder :=
  r ← deref (rang lb);
  r ← store r i rce;
  Ok (with_dyn lb (Some r) (isPointLookup lb) (emptyRange lb)).

(** The null-safe branch shared by both loops over the key. *)
Definition setNullRange (lb : LookupBuilder) (i : nat) (k : value) : result LookupBuilder :=
  cet ← index (cets lb) i;
  if is_nil k
  then setRang lb i (NullRangeColumnExpr (cet_Type cet))
  else setRang lb i (NotNullRangeColumnExpr (cet_Type cet)).

(** Body of the first loop of [initializeRange], at position [i] with
    [k = key[i]]. *)
Definition initKey (lb : LookupBuilder) (i : nat) (k : value) : result LookupBuilder :=
  let lb := flagNil lb k in
  m ← index (matchesNullMask lb) i;
  if m : bool then setNullRange lb i k
  else
    cet ← index (cets lb) i;
    setRang lb i (ClosedRangeColumnExpr k k (cet_Type cet)).

(** Body of the loop of [GetLookup] on a builder whose range exists. *)
Definition updateKey (lb : LookupBuilder) (i : nat) (k : value) : result LookupBuilder :=
  let lb := flagNil lb k in
  m ← index (matchesNullMask lb) i;
  if m : bool then setNullRange lb i k
  else
    r ← deref (rang lb);
    rce ← index r i;
    setRang lb i {| LowerBound := Some (Below k); UpperBound := Some (Above k);
                    Typ := Typ rce |}.

(** A loop [for i < len(key)] with body [body], from position [i] over the
    rest of the key. *)
Fixpoint forKey (body : LookupBuilder → nat → value → result LookupBuilder)
    (lb : LookupBuilder) (i : nat) (rest : lookupBuilderKey) : result LookupBuilder :=
  match rest with
  | [] => Ok lb
  | k :: rest => lb ← body lb i k; forKey body lb (S i) rest
  end.

(** The second loop of [initializeRange], [for i < len(lb.cets)], with [n]
    iterations left. *)
Fixpoint padAll (n : nat) (lb : LookupBuilder) (i : nat) : result LookupBuilder :=
  match n with
  | 0 => Ok lb
  | S n =>
      cet ← index (cets lb) i;
      lb ← setRang lb i (AllRangeColumnExpr (cet_Type cet));
      padAll n (with_dyn lb (rang lb) false (emptyRange lb)) (S i)
  end.

(** [func (lb *LookupBuilder) initializeRange(key lookupBuilderKey)] *)
Definition initializeRange (lb : LookupBuilder) (key : lookupBuilderKey) : result LookupBuilder :=
  let lb := with_dyn lb (Some (replicate (length (cets lb)) zeroRangeColumnExpr))
              (length key =? length (cets lb)) false in
  lb ← forKey initKey lb 0 key;
  padAll (length (cets lb) - length key) lb (length key).

(** The [sql.IndexLookup] literal both branches of [GetLookup] return.
    [&&] reads [lb.index.IsUnique()] only when the flags before it hold. *)
Definition packLookup (lb : LookupBuilder) : result IndexLookup :=
  pl ← (if nullSafe lb && isPointLookup lb
        then idx ← deref (index_ lb); Ok (IsUnique idx)
        else Ok false);
  Ok {| lk_Index := index_ lb; Ranges := [default [] (rang lb)];
        IsPointLookup := pl; IsEmptyRange := emptyRange lb;
        IsSpatialLookup := false; IsReverse := false |}.

(** [func (lb *LookupBuilder) GetLookup(key lookupBuilderKey) (sql.IndexLookup, error)].
    The builder is updated in place; the result pairs it with the lookup. *)
Definition GetLookup (lb : LookupBuilder) (key : lookupBuilderKey)
  : result (LookupBuilder * IndexLookup) :=
  match rang lb with
  | None =>
      lb ← initializeRange lb key;
      lookup ← packLookup lb;
      Ok (lb, lookup)
  | Some _ =>
      let lb := with_dyn lb (rang lb) (length key =? length (cets lb)) false in
      lb ← forKey updateKey lb 0 key;
      lookup ← packLookup lb;
      Ok (lb, lookup)
  end.

(** [func (lb *LookupBuilder) GetKey(ctx *sql.Context, row sql.Row) (lookupBuilderKey, error)] *)
Definition GetKey (lb : LookupBuilder) (ctx : Ctx) (row : Sql.Row V)
  : result (LookupBuilder * lookupBuilderKey) :=
  k ← mapM (λ e : Expression, Sql.Eval e ctx row) (keyExprs lb);
  Ok ({| keyExprs := keyExprs lb; matchesNullMask := matchesNullMask lb;
         index_ := index_ lb; key := Some k; rang := rang lb; nullSafe := nullSafe lb;
         isPointLookup := isPointLookup lb; emptyRange := emptyRange lb;
         cets := cets lb |}, k).

(** [func (lb *LookupBuilder) GetZeroKey() lookupBuilderKey] *)
Definition GetZeroKey (lb : LookupBuilder) : result lookupBuilderKey :=
  mapM (λ keyExpr : Expression,
          t ← Sql.Type_ keyExpr; t ← deref t; Ok (Sql.Zero t))
       (keyExprs lb).

(** [func (lb *LookupBuilder) WithExpressions(node sql.Node, exprs ...sql.Expression)], returning the new builder or an error *)
Definition WithExpressions (lb : LookupBuilder) (exprs : list Expression) : result LookupBuilder :=
  if negb (length exprs =? length (keyExprs lb)) then Err ErrInvalidChildrenNumber
  else Ok {| keyExprs := exprs; matchesNullMask := matchesNullMask lb; index_ := index_ lb;
             key := None; rang := rang lb; nullSafe := false; isPointLookup := false;
             emptyRange := false; cets := cets lb |}.

(** ** The loops of the builder *)

Lemma with_dyn_id (lb : LookupBuilder) :
  with_dyn lb (rang lb) (isPointLookup lb) (emptyRange lb) = lb.
Proof. now destruct lb. Qed.

Lemma setRang_ok (lb : LookupBuilder) (i : nat) (rce : RangeColumnExpr) (r : Range) :
  rang lb = Some r → i < length r →
  setRang lb i rce = Ok (with_dyn lb (Some (<[i:=rce]> r)) (isPointLookup lb) (emptyRange lb)).
Proof.
  intros Hr Hi. unfold setRang, store. rewrite Hr. cbn.
  now rewrite decide_True by exact Hi.
Qed.

Lemma index_lt {A} (l : list A) (i : nat) : i < length l → ∃ x, l !! i = Some x ∧ index l i = Ok x.
Proof.
  intros Hi. destruct (lookup_lt_is_Some_2 l i Hi) as [x Hx].
  exists x. unfold index. now rewrite Hx.
Qed.

(** What a loop body must do at a position inside the mask, the index
    columns and the range: write that position and fold the nil test into
    the two flags. *)
Definition key_step (body : LookupBuilder → nat → value → result LookupBuilder) : Prop :=
  ∀ lb i k r,
    rang lb = Some r → length r = length (cets lb) →
    i < length (cets lb) → i < length (matchesNullMask lb) →
    ∃ rce, body lb i k
           = Ok (with_dyn lb (Some (<[i:=rce]> r))
                   (isPointLookup lb && negb (is_nil k)) (emptyRange lb || is_nil k)).

Lemma flagNil_eq (lb : LookupBuilder) (k : value) :
  flagNil lb k
  = with_dyn lb (rang lb) (isPointLookup lb && negb (is_nil k)) (emptyRange lb || is_nil k).
Proof.
  unfold flagNil. destruct (is_nil k); cbn.
  - now rewrite andb_false_r, orb_true_r.
  - now rewrite andb_true_r, orb_false_r, with_dyn_id.
Qed.

Lemma initKey_step : key_step initKey.
Proof.
  intros lb i k r Hr Hlen Hc Hm. unfold initKey. rewrite flagNil_eq.
  cbn [matchesNullMask with_dyn].
  destruct (index_lt _ _ Hm) as (m & _ & ->).
  destruct (index_lt _ _ Hc) as (cet & _ & Hcet). cbn.
  destruct m; unfold setNullRange; cbn [cets with_dyn]; rewrite Hcet; cbn.
  - destruct (is_nil k); eexists; erewrite setRang_ok; cbn; first [reflexivity | exact Hr | lia].
  - eexists. erewrite setRang_ok; cbn; first [reflexivity | exact Hr | lia].
Qed.

Lemma updateKey_step : key_step updateKey.
Proof.
  intros lb i k r Hr Hlen Hc Hm. unfold updateKey. rewrite flagNil_eq.
  cbn [matchesNullMask with_dyn].
  destruct (index_lt _ _ Hm) as (m & _ & ->).
  destruct (index_lt _ _ Hc) as (cet & _ & Hcet). cbn.
  destruct m; unfold setNullRange; cbn [cets rang with_dyn].
  - rewrite Hcet. cbn.
    destruct (is_nil k); eexists; erewrite setRang_ok; cbn; first [reflexivity | exact Hr | lia].
  - destruct (index_lt r i ltac:(lia)) as (rce & _ & Hrce).
    rewrite Hr. cbn. rewrite Hrce. cbn.
    unfold store. rewrite decide_True by lia. eexists. reflexivity.
Qed.

(** A loop over the key from position [i]: it returns, writes only the
    positions of the key, and leaves the flags telling whether a value was
    nil. *)
Lemma forKey_ok (body : LookupBuilder → nat → value → result LookupBuilder)
    (rest : lookupBuilderKey) :
  key_step body →
  ∀ lb i r,
    rang lb = Some r → length r = length (cets lb) →
    i + length rest ≤ length (cets lb) →
    i + length rest ≤ length (matchesNullMask lb) →
    ∃ r', forKey body lb i rest
          = Ok (with_dyn lb (Some r')
                  (isPointLookup lb && negb (existsb is_nil rest))
                  (emptyRange lb || existsb is_nil rest))
          ∧ length r' = length r
          ∧ ∀ j, j < i ∨ i + length rest ≤ j → r' !! j = r !! j.
Proof.
  intros Hbody. induction rest as [|k rest IH]; intros lb i r Hr Hlen Hc Hm.
  - exists r. cbn. rewrite andb_true_r, orb_false_r, <- Hr, with_dyn_id. auto.
  - cbn [length] in Hc, Hm. cbn [forKey existsb].
    destruct (Hbody lb i k r Hr Hlen ltac:(lia) ltac:(lia)) as [rce ->]. cbn.
    destruct (IH (with_dyn lb (Some (<[i:=rce]> r))
                    (isPointLookup lb && negb (is_nil k)) (emptyRange lb || is_nil k))
                (S i) (<[i:=rce]> r)) as (r' & -> & Hlen' & Hframe).
    { reflexivity. }
    { cbn [cets with_dyn]. rewrite length_insert. exact Hlen. }
    { cbn. lia. }
    { cbn. lia. }
    exists r'. cbn [isPointLookup emptyRange with_dyn]. split; [|split].
    + f_equal. unfold with_dyn; cbn. f_equal.
      * now rewrite negb_orb, andb_assoc.
      * now rewrite orb_assoc.
    + now rewrite Hlen', length_insert.
    + intros j Hj. rewrite Hframe by (cbn [length] in Hj; lia).
      apply list_lookup_insert_ne. cbn [length] in Hj. lia.
Qed.

(** The padding loop: it returns, writes the "all" range of each column's
    type at every position it visits, and clears [isPointLookup] as soon as
    it runs at all. *)
Lemma padAll_ok (n : nat) :
  ∀ lb i r,
    rang lb = Some r → length r = length (cets lb) →
    i + n ≤ length (cets lb) →
    ∃ r', padAll n lb i
          = Ok (with_dyn lb (Some r') (isPointLookup lb && (n =? 0)) (emptyRange lb))
          ∧ length r' = length r
          ∧ (∀ j, j < i ∨ i + n ≤ j → r' !! j = r !! j)
          ∧ (∀ j cet, i ≤ j < i + n → cets lb !! j = Some cet →
               r' !! j = Some (AllRangeColumnExpr (cet_Type cet))).
Proof.
  induction n as [|n IH]; intros lb i r Hr Hlen Hc.
  - exists r. cbn. rewrite andb_true_r, <- Hr, with_dyn_id.
    repeat split; auto. intros j cet Hj. lia.
  - cbn [padAll].
    destruct (index_lt (cets lb) i ltac:(lia)) as (cet & Hcet & ->). cbn.
    rewrite (setRang_ok lb i _ r Hr) by lia. cbn.
    destruct (IH (with_dyn lb (Some (<[i:=AllRangeColumnExpr (cet_Type cet)]> r))
                    false (emptyRange lb))
                (S i) (<[i:=AllRangeColumnExpr (cet_Type cet)]> r))
      as (r' & Heq & Hlen' & Hframe & Hall).
    { reflexivity. }
    { cbn [cets with_dyn]. rewrite length_insert. exact Hlen. }
    { cbn. lia. }
    exists r'. rewrite andb_false_r. repeat split.
    + exact Heq.
    + now rewrite Hlen', length_insert.
    + intros j Hj. rewrite Hframe by lia. apply list_lookup_insert_ne. lia.
    + intros j cet' Hj Hcet'. destruct (decide (j = i)) as [->|Hne].
      * rewrite Hframe by lia. rewrite list_lookup_insert_eq by lia.
        congruence.
      * apply Hall; [lia | exact Hcet'].
Qed.

(** ** What one call of [GetLookup] returns *)

Lemma packLookup_ok (lb : LookupBuilder) (idx : Index) :
  index_ lb = Some idx →
  packLookup lb
  = Ok {| lk_Index := Some idx; Ranges := [default [] (rang lb)];
          IsPointLookup := nullSafe lb && isPointLookup lb && IsUnique idx;
          IsEmptyRange := emptyRange lb; IsSpatialLookup := false; IsReverse := false |}.
Proof.
  intros Hidx. unfold packLookup. rewrite Hidx.
  destruct (nullSafe lb && isPointLookup lb); reflexivity.
Qed.

(** [initializeRange] on any key no longer than the index arity (and the
    mask): it returns, the range has the arity of the index, and every
    position from the key length on holds the "all" range. *)
Lemma initializeRange_ok (lb : LookupBuilder) (key : lookupBuilderKey) :
  length key ≤ length (cets lb) →
  length key ≤ length (matchesNullMask lb) →
  ∃ r, initializeRange lb key
       = Ok (with_dyn lb (Some r)
               ((length key =? length (cets lb)) && negb (existsb is_nil key))
               (existsb is_nil key))
       ∧ length r = length (cets lb)
       ∧ ∀ j cet, length key ≤ j → cets lb !! j = Some cet →
           r !! j = Some (AllRangeColumnExpr (cet_Type cet)).
Proof.
  intros Hc Hm. unfold initializeRange.
  set (r0 := replicate (length (cets lb)) zeroRangeColumnExpr).
  destruct (forKey_ok initKey key initKey_step
              (with_dyn lb (Some r0) (length key =? length (cets lb)) false) 0 r0)
    as (r1 & -> & Hlen1 & _).
  { reflexivity. }
  { cbn [cets with_dyn]. subst r0. now rewrite length_replicate. }
  { cbn. lia. }
  { cbn. lia. }
  cbn [mbind result_bind cets with_dyn isPointLookup emptyRange].
  assert (Hlen1' : length r1 = length (cets lb)).
  { rewrite Hlen1. subst r0. now rewrite length_replicate. }
  destruct (padAll_ok (length (cets lb) - length key)
              (with_dyn lb (Some r1)
                 ((length key =? length (cets lb)) && negb (existsb is_nil key))
                 (false || existsb is_nil key))
              (length key) r1) as (r2 & Heq & Hlen2 & _ & Hall).
  { reflexivity. }
  { exact Hlen1'. }
  { cbn. lia. }
  exists r2. split; [|split].
  - etransitivity; [exact Heq|]. cbn. f_equal. unfold with_dyn. cbn. f_equal.
    destruct (Nat.eqb_spec (length key) (length (cets lb))) as [->|Hne]; [|reflexivity].
    now rewrite Nat.sub_diag, andb_true_r.
  - now rewrite Hlen2.
  - intros j cet Hj Hcet. apply Hall; [|exact Hcet].
    cbn [cets with_dyn]. apply lookup_lt_Some in Hcet. lia.
Qed.

(** One call of [GetLookup] with a key no longer than the index arity and
    the mask, on a builder whose range, if any, has the index arity. *)
Lemma GetLookup_ok (lb : LookupBuilder) (key : lookupBuilderKey) (idx : Index) :
  index_ lb = Some idx →
  length key ≤ length (cets lb) →
  length key ≤ length (matchesNullMask lb) →
  (∀ r, rang lb = Some r → length r = length (cets lb)) →
  ∃ r',
    GetLookup lb key
    = Ok (with_dyn lb (Some r')
            ((length key =? length (cets lb)) && negb (existsb is_nil key))
            (existsb is_nil key),
          {| lk_Index := Some idx; Ranges := [r'];
             IsPointLookup :=
               nullSafe lb
               && ((length key =? length (cets lb)) && negb (existsb is_nil key))
               && IsUnique idx;
             IsEmptyRange := existsb is_nil key;
             IsSpatialLookup := false; IsReverse := false |})
    ∧ length r' = length (cets lb)
    ∧ (∀ j cet, length key ≤ j → cets lb !! j = Some cet →
         r' !! j = match rang lb with
                   | None => Some (AllRangeColumnExpr (cet_Type cet))
                   | Some r => r !! j
                   end).
Proof.
  intros Hidx Hc Hm Hr. unfold GetLookup. destruct (rang lb) as [r|] eqn:Hrang.
  - destruct (forKey_ok updateKey key updateKey_step
                (with_dyn lb (Some r) (length key =? length (cets lb)) false) 0 r)
      as (r' & -> & Hlen & Hframe).
    { reflexivity. }
    { cbn [cets with_dyn]. now apply Hr. }
    { cbn. lia. }
    { cbn. lia. }
    exists r'. cbn [mbind result_bind isPointLookup emptyRange with_dyn].
    rewrite (packLookup_ok _ idx) by exact Hidx. cbn. split; [reflexivity|]. split.
    + rewrite Hlen. now apply Hr.
    + intros j cet Hj _. apply Hframe. lia.
  - destruct (initializeRange_ok lb key Hc Hm) as (r' & -> & Hlen & Hall).
    exists r'. cbn [mbind result_bind].
    rewrite (packLookup_ok _ idx) by exact Hidx. cbn. auto.
Qed.

(** ** Builders in use *)

(** Builders made by [NewLookupBuilder] for index [idx] and used since:
    [GetLookup] with keys that have one value per key expression (such as
    [GetKey] and [GetZeroKey] return), and [GetKey]. *)
Inductive built (idx : Index) (exprs : list Expression) (mask : list bool)
  : LookupBuilder → Prop :=
  | built_new lb :
      NewLookupBuilder (Some idx) exprs mask = Ok lb →
      built idx exprs mask lb
  | built_GetLookup lb key lb' lookup :
      built idx exprs mask lb →
      length key = length exprs →
      GetLookup lb key = Ok (lb', lookup) →
      built idx exprs mask lb'
  | built_GetKey lb ctx row lb' k :
      built idx exprs mask lb →
      GetKey lb ctx row = Ok (lb', k) →
      built idx exprs mask lb'.

(** What stays true of such a builder. *)
Definition builder_inv (idx : Index) (exprs : list Expression) (mask : list bool)
    (lb : LookupBuilder) : Prop :=
  index_ lb = Some idx
  ∧ cets lb = ColumnExpressionTypes idx
  ∧ matchesNullMask lb = mask
  ∧ nullSafe lb = nullSafeOf mask
  ∧ keyExprs lb = exprs
  ∧ ∀ r, rang lb = Some r →
      length r = length (cets lb)
      ∧ ∀ j cet, length exprs ≤ j → cets lb !! j = Some cet →
          r !! j = Some (AllRangeColumnExpr (cet_Type cet)).

Lemma built_inv (idx : Index) (exprs : list Expression) (mask : list bool)
    (lb : LookupBuilder) :
  length exprs ≤ length (ColumnExpressionTypes idx) →
  length exprs ≤ length mask →
  built idx exprs mask lb →
  builder_inv idx exprs mask lb.
Proof.
  intros Hc Hm Hb. induction Hb as [lb Hnew | lb key lb' lookup Hb IH Hk Hget
                                    | lb ctx row lb' k Hb IH Hget].
  - cbn in Hnew. injection Hnew as <-. unfold builder_inv.
    split_and!; try reflexivity. intros r [=].
  - destruct IH as (Hidx & Hcets & Hmask & Hns & Hke & Hr).
    destruct (GetLookup_ok lb key idx Hidx) as (r' & Heq & Hlen & Hall).
    { rewrite Hcets. lia. }
    { rewrite Hmask. lia. }
    { intros r Hrang. now apply Hr. }
    rewrite Heq in Hget. injection Hget as <- <-.
    unfold builder_inv. split_and!; try assumption.
    cbn [rang cets with_dyn]. intros r [= <-]. split; [exact Hlen|].
    intros j cet Hj Hcet. rewrite (Hall j cet) by (try lia; exact Hcet).
    destruct (rang lb) as [r|] eqn:Hrang; [|reflexivity].
    now apply (Hr r eq_refl).
  - destruct IH as (Hidx & Hcets & Hmask & Hns & Hke & Hr).
    unfold GetKey in Hget.
    destruct (mapM _ _) as [k'| |]; try discriminate.
    cbn in Hget. injection Hget as <- <-.
    unfold builder_inv. split_and!; assumption.
Qed.

(** [nullSafe] holds exactly when no mask bit is set. *)
Lemma nullSafeOf_forallb (mask : list bool) : nullSafeOf mask = forallb negb mask.
Proof.
  unfold nullSafeOf.
  assert (G : ∀ b, fold_left (λ nullSafe m : bool, if m then false else nullSafe) mask b
                   = b && forallb negb mask).
  { induction mask as [|m mask IH]; intros b; cbn.
    - now rewrite andb_true_r.
    - rewrite IH. destruct m, b; reflexivity. }
  now rewrite G.
Qed.

(** ** C1 *)

(** C1, as the code has it.  For a builder made by [NewLookupBuilder] whose
    key expressions number exactly the index's key length (with a mask bit
    for each), and a key without NULL, [GetLookup] returns a lookup whose
    [IsPointLookup] is [index.IsUnique()] when no mask bit is set, and false
    when one is. *)
Theorem GetLookup_point_lookup (idx : Index) (exprs : list Expression)
    (mask : list bool) (lb : LookupBuilder) (key : lookupBuilderKey) :
  built idx exprs mask lb →
  length exprs = length (ColumnExpressionTypes idx) →
  length exprs ≤ length mask →
  length key = length exprs →
  existsb is_nil key = false →
  ∃ lb' lookup,
    GetLookup lb key = Ok (lb', lookup)
    ∧ IsPointLookup lookup = forallb negb mask && IsUnique idx.
Proof.
  intros Hb Harity Hmask Hkey Hnil.
  destruct (built_inv idx exprs mask lb ltac:(lia) ltac:(lia) Hb)
    as (Hidx & Hcets & Hm & Hns & _ & Hr).
  destruct (GetLookup_ok lb key idx Hidx) as (r' & -> & _).
  { rewrite Hcets. lia. }
  { rewrite Hm. lia. }
  { intros r Hrang. now apply Hr. }
  eexists _, _. split; [reflexivity|]. cbn.
  rewrite Hns, nullSafeOf_forallb, Hnil, Hcets, Hkey, Harity, Nat.eqb_refl.
  now rewrite andb_true_r.
Qed.

(** ** C4 *)

(** What [IsEmptyRange] is on every lookup: whether some key value was
    NULL, at a null-safe position or not. *)
Lemma GetLookup_empty_range (idx : Index) (exprs : list Expression)
    (mask : list bool) (lb : LookupBuilder) (key : lookupBuilderKey) :
  built idx exprs mask lb →
  length exprs ≤ length (ColumnExpressionTypes idx) →
  length exprs ≤ length mask →
  length key = length exprs →
  ∃ lb' lookup,
    GetLookup lb key = Ok (lb', lookup)
    ∧ IsEmptyRange lookup = existsb is_nil key.
Proof.
  intros Hb Harity Hmask Hkey.
  destruct (built_inv idx exprs mask lb Harity Hmask Hb)
    as (Hidx & Hcets & Hm & _ & _ & Hr).
  destruct (GetLookup_ok lb key idx Hidx) as (r' & -> & _).
  { rewrite Hcets. lia. }
  { rewrite Hm. lia. }
  { intros r Hrang. now apply Hr. }
  eexists _, _. split; reflexivity.
Qed.

(** ** C7 *)





(** ** IndexedTableAccess *)

(** A [sql.Table]: its name, whether it implements
    [sql.IndexAddressableTable], and, for a [sql.TableWrapper], the table it
    wraps. *)
Inductive Table : Type := MkTable {
  tbl_Name : string;
  tbl_IndexAddressable : bool;
  tbl_Underlying : option Table;
}.

(** [plan.ResolvedTable], and the [sql.IndexedTable] that
    [IndexedAccess(lookup)] hands back. *)
Record ResolvedTable : Type := {
  rt_Table : Table;
}.

Record IndexedTable : Type := {
  it_Table : Table;
  it_Lookup : IndexLookup;
}.

(** [type IndexedTableAccess struct].  [lb] is a pointer; the node holds the
    builder as the calls made through it left it. *)
Record IndexedTableAccess : Type := {
  ita_ResolvedTable : ResolvedTable;
  ita_lb : option LookupBuilder;
  ita_lookup : IndexLookup;
  ita_Table : option IndexedTable;
}.

(** [if t, ok := table.(sql.TableWrapper); ok { table = t.Underlying() }] *)
Definition unwrap (table : Table) : Table :=
  match tbl_Underlying table with
  | Some t => t
  | None => table
  end.


(** [func NewStaticIndexedAccessForResolvedTable(rt *ResolvedTable, lookup sql.IndexLookup)] *)
Definition NewStaticIndexedAccessForResolvedTable (rt : ResolvedTable) (lookup : IndexLookup)
  : result IndexedTableAccess :=
  let table := unwrap (rt_Table rt) in
  if negb (tbl_IndexAddressable table)
  then Err (Errorf ("table is not index addressable: " +:+ tbl_Name table))
  else
    idx ← deref (lk_Index lookup);
    if negb (CanSupport idx (Ranges lookup)) then Err ErrInvalidLookupForIndexedTable
    else
      let ia := {| it_Table := table; it_Lookup := lookup |} in
      Ok {| ita_ResolvedTable := rt; ita_lb := None; ita_lookup := lookup;
            ita_Table := Some ia |}.

(** [ResolvedTable.WithTable] is not among the sources; [WithTable] below is
    stated for any implementation of it. *)
Variable ResolvedTable_WithTable : ResolvedTable → Table → result ResolvedTable.

(** The lookup [WithTable] checks: the static one if the node has one, else
    the one its builder makes of the zero key, else the zero lookup. *)
Definition lookupOf (i : IndexedTableAccess) : result (option LookupBuilder * IndexLookup) :=
  match lk_Index (ita_lookup i) with
  | Some _ => Ok (ita_lb i, ita_lookup i)
  | None =>
      match ita_lb i with
      | Some b =>
          zeroKey ← GetZeroKey b;
          '(b, lookup) ← GetLookup b zeroKey;
          Ok (Some b, lookup)
      | None => Ok (None, zeroIndexLookup)
      end
  end.

(** [func (i IndexedTableAccess) WithTable(table sql.Table)] *)
Definition WithTable (i : IndexedTableAccess) (table : Table) : result IndexedTableAccess :=
  nrt ← ResolvedTable_WithTable (ita_ResolvedTable i) table;
  let table := unwrap table in
  if negb (tbl_IndexAddressable table)
  then Err (Errorf "table does not support indexed access")
  else
    '(lb, lookup) ← lookupOf i;
    idx ← deref (lk_Index lookup);
    if CanSupport idx (Ranges lookup) then Err ErrInvalidLookupForIndexedTable
    else Ok {| ita_ResolvedTable := nrt; ita_lb := lb; ita_lookup := ita_lookup i;
               ita_Table := ita_Table i |}.

(** The two constructors do what C2 says on an index-addressable table:
    the error exactly when the index cannot support the ranges. *)
Lemma NewStaticIndexedAccess_CanSupport (rt : ResolvedTable) (lookup : IndexLookup)
    (idx : Index) :
  tbl_IndexAddressable (unwrap (rt_Table rt)) = true →
  lk_Index lookup = Some idx →
  NewStaticIndexedAccessForResolvedTable rt lookup
  = if CanSupport idx (Ranges lookup)
    then Ok {| ita_ResolvedTable := rt; ita_lb := None; ita_lookup := lookup;
               ita_Table := Some {| it_Table := unwrap (rt_Table rt);
                                    it_Lookup := lookup |} |}
    else Err ErrInvalidLookupForIndexedTable.
Proof.
  intros Hia Hidx. unfold NewStaticIndexedAccessForResolvedTable.
  rewrite Hia, Hidx. cbn. now destruct (CanSupport idx (Ranges lookup)).
Qed.


(** ** C2 *)

(** C2 on [WithTable].  On an index-addressable table, with the lookup of a
    static node, [WithTable] returns [ErrInvalidLookupForIndexedTable]
    exactly when the index CAN support the ranges, and succeeds when it
    cannot: the test is the negation of the one in the two constructors. *)
Theorem WithTable_CanSupport_inverted (i : IndexedTableAccess) (table : Table)
    (nrt : ResolvedTable) (idx : Index) :
  ResolvedTable_WithTable (ita_ResolvedTable i) table = Ok nrt →
  tbl_IndexAddressable (unwrap table) = true →
  lk_Index (ita_lookup i) = Some idx →
  WithTable i table
  = if CanSupport idx (Ranges (ita_lookup i))
    then Err ErrInvalidLookupForIndexedTable
    else Ok {| ita_ResolvedTable := nrt; ita_lb := ita_lb i; ita_lookup := ita_lookup i;
               ita_Table := ita_Table i |}.
Proof.
  intros Hrt Hia Hidx. unfold WithTable, lookupOf.
  rewrite Hrt. cbn. rewrite Hia, Hidx. cbn. rewrite Hidx. cbn.
  now destruct (CanSupport idx (Ranges (ita_lookup i))).
Qed.

(** ** Keys *)

Lemma mapM_result_Ok {A B : Type} (f : A → result B) (l : list A) (k : list B) :
  mapM f l = Ok k ↔ Forall2 (λ x y, f x = Ok y) l k.
Proof.
  revert k. induction l as [|x l IH]; intros k; cbn.
  - split; [intros [= <-]; constructor | intros Hk; now inversion Hk].
  - destruct (f x) as [y| |] eqn:Hx; cbn.
    + destruct (mapM f l) as [k'| |] eqn:Hl; cbn.
      * split.
        -- intros [= <-]. constructor; [exact Hx | now apply IH].
        -- intros Hk. inversion Hk as [|? y' ? k'' Hy Hrest]; subst.
           apply IH in Hrest. injection Hrest as <-.
           rewrite Hx in Hy. now injection Hy as <-.
      * split; [discriminate|]. intros Hk.
        inversion Hk as [|? y' ? k'' Hy Hrest]; subst. apply IH in Hrest. discriminate.
      * split; [discriminate|]. intros Hk.
        inversion Hk as [|? y' ? k'' Hy Hrest]; subst. apply IH in Hrest. discriminate.
    + split; [discriminate|]. intros Hk. inversion Hk; congruence.
    + split; [discriminate|]. intros Hk. inversion Hk; congruence.
Qed.

(** The builder with its scratch key replaced. *)
Definition with_key (lb : LookupBuilder) (k : lookupBuilderKey) : LookupBuilder :=
  {| keyExprs := keyExprs lb; matchesNullMask := matchesNullMask lb;
     index_ := index_ lb; key := Some k; rang := rang lb; nullSafe := nullSafe lb;
     isPointLookup := isPointLookup lb; emptyRange := emptyRange lb;
     cets := cets lb |}.

(** [GetKey] returns exactly when every key expression evaluates on the
    row; the key then holds the value of each key expression, in order (one
    value per expression), and is kept as the builder's scratch key. *)
Theorem GetKey_values (lb lb' : LookupBuilder) (ctx : Ctx) (row : Sql.Row V)
    (k : lookupBuilderKey) :
  GetKey lb ctx row = Ok (lb', k)
  ↔ Forall2 (λ (e : Expression) v, Sql.Eval e ctx row = Ok v) (keyExprs lb) k
    ∧ lb' = with_key lb k.
Proof.
  unfold GetKey. split.
  - destruct (mapM _ _) as [k'| |] eqn:Hk; try discriminate. cbn.
    intros [= <- <-]. split; [now apply mapM_result_Ok | reflexivity].
  - intros [Hk ->]. apply mapM_result_Ok in Hk. now rewrite Hk.
Qed.


(** ** What the range holds at the positions of the key *)

(** The range written at a null-safe position. *)
Definition nullSafeRange (t : SqlType) (k : value) : RangeColumnExpr :=
  if is_nil k then NullRangeColumnExpr t else NotNullRangeColumnExpr t.

(** The range written at position [i] for key value [k] by
    [initializeRange], and by [GetLookup] on a builder whose range exists
    ([old] is what the range held there). *)
Definition initWrites (mask : list bool) (cs : list ColumnExpressionType)
    (old : option RangeColumnExpr) (i : nat) (k : value) : RangeColumnExpr :=
  match mask !! i, cs !! i with
  | Some true, Some cet => nullSafeRange (cet_Type cet) k
  | Some false, Some cet => ClosedRangeColumnExpr k k (cet_Type cet)
  | _, _ => zeroRangeColumnExpr
  end.

Definition updateWrites (mask : list bool) (cs : list ColumnExpressionType)
    (old : option RangeColumnExpr) (i : nat) (k : value) : RangeColumnExpr :=
  match mask !! i, cs !! i with
  | Some true, Some cet => nullSafeRange (cet_Type cet) k
  | Some false, Some _ =>
      {| LowerBound := Some (Below k); UpperBound := Some (Above k);
         Typ := Typ (default zeroRangeColumnExpr old) |}
  | _, _ => zeroRangeColumnExpr
  end.

Definition key_step_writes (body : LookupBuilder → nat → value → result LookupBuilder)
    (w : list bool → list ColumnExpressionType → option RangeColumnExpr → nat → value
         → RangeColumnExpr) : Prop :=
  ∀ lb i k r,
    rang lb = Some r → length r = length (cets lb) →
    i < length (cets lb) → i < length (matchesNullMask lb) →
    body lb i k
    = Ok (with_dyn lb (Some (<[i:=w (matchesNullMask lb) (cets lb) (r !! i) i k]> r))
            (isPointLookup lb && negb (is_nil k)) (emptyRange lb || is_nil k)).

Lemma key_step_of_writes body w : key_step_writes body w → key_step body.
Proof. intros Hw lb i k r Hr Hlen Hc Hm. eexists. now apply Hw. Qed.

Lemma initKey_writes : key_step_writes initKey initWrites.
Proof.
  intros lb i k r Hr Hlen Hc Hm. unfold initKey, initWrites. rewrite flagNil_eq.
  cbn [matchesNullMask with_dyn].
  destruct (index_lt _ _ Hm) as (m & Hm' & ->).
  destruct (index_lt _ _ Hc) as (cet & Hc' & Hcet). rewrite Hm', Hc'. cbn.
  destruct m; unfold setNullRange, nullSafeRange; cbn [cets with_dyn]; rewrite Hcet; cbn.
  - destruct (is_nil k); erewrite setRang_ok; cbn; first [reflexivity | exact Hr | lia].
  - erewrite setRang_ok; cbn; first [reflexivity | exact Hr | lia].
Qed.

Lemma updateKey_writes : key_step_writes updateKey updateWrites.
Proof.
  intros lb i k r Hr Hlen Hc Hm. unfold updateKey, updateWrites. rewrite flagNil_eq.
  cbn [matchesNullMask with_dyn].
  destruct (index_lt _ _ Hm) as (m & Hm' & ->).
  destruct (index_lt _ _ Hc) as (cet & Hc' & Hcet). rewrite Hm', Hc'. cbn.
  destruct m; unfold setNullRange, nullSafeRange; cbn [cets rang with_dyn].
  - rewrite Hcet. cbn.
    destruct (is_nil k); erewrite setRang_ok; cbn; first [reflexivity | exact Hr | lia].
  - destruct (index_lt r i ltac:(lia)) as (rce & Hrce' & Hrce).
    rewrite Hr. cbn. rewrite Hrce. cbn. rewrite Hrce'. cbn.
    unfold store. now rewrite decide_True by lia.
Qed.

(** After a loop over the key, each position of the key holds what the
    body writes there for that key value. *)
Lemma forKey_position body w (rest : lookupBuilderKey) :
  key_step_writes body w →
  ∀ lb i r,
    rang lb = Some r → length r = length (cets lb) →
    i + length rest ≤ length (cets lb) →
    i + length rest ≤ length (matchesNullMask lb) →
    ∃ r', forKey body lb i rest
          = Ok (with_dyn lb (Some r')
                  (isPointLookup lb && negb (existsb is_nil rest))
                  (emptyRange lb || existsb is_nil rest))
          ∧ ∀ j k, rest !! j = Some k →
              r' !! (i + j)
              = Some (w (matchesNullMask lb) (cets lb) (r !! (i + j)) (i + j) k).
Proof.
  intros Hw. induction rest as [|k0 rest IH]; intros lb i r Hr Hlen Hc Hm.
  - destruct (forKey_ok body [] (key_step_of_writes _ _ Hw) lb i r Hr Hlen Hc Hm)
      as (r' & Heq & _). exists r'. split; [exact Heq|]. intros j k [=].
  - destruct (forKey_ok body (k0 :: rest) (key_step_of_writes _ _ Hw) lb i r Hr Hlen Hc Hm)
      as (r' & Heq & _). exists r'. split; [exact Heq|].
    cbn [length] in Hc, Hm. cbn [forKey] in Heq.
    rewrite (Hw lb i k0 r Hr Hlen ltac:(lia) ltac:(lia)) in Heq. cbn in Heq.
    set (r1 := <[i:=w (matchesNullMask lb) (cets lb) (r !! i) i k0]> r) in *.
    set (lb1 := with_dyn lb (Some r1) (isPointLookup lb && negb (is_nil k0))
                  (emptyRange lb || is_nil k0)) in *.
    assert (Hlen1 : length r1 = length (cets lb1)).
    { subst r1 lb1. cbn [cets with_dyn]. rewrite length_insert. exact Hlen. }
    destruct (forKey_ok body rest (key_step_of_writes _ _ Hw) lb1 (S i) r1 eq_refl Hlen1)
      as (r2 & Heq2 & _ & Hframe); [cbn; lia | cbn; lia |].
    destruct (IH lb1 (S i) r1 eq_refl Hlen1) as (r3 & Heq3 & Hpos); [cbn; lia | cbn; lia |].
    assert (r2 = r') as ->.
    { rewrite Heq2 in Heq. now injection Heq. }
    assert (r3 = r') as ->.
    { rewrite Heq3 in Heq2. now injection Heq2. }
    intros [|j] k Hk.
    + cbn in Hk. injection Hk as <-. rewrite Nat.add_0_r.
      rewrite Hframe by lia. subst r1. apply list_lookup_insert_eq. lia.
    + cbn in Hk. specialize (Hpos j k Hk).
      replace (i + S j) with (S i + j) by lia. rewrite Hpos.
      subst lb1 r1. cbn [matchesNullMask cets with_dyn].
      now rewrite list_lookup_insert_ne by lia.
Qed.

(** At every position of the key, the range of the lookup is made of the
    key value passed to this call.  A null-safe position holds the null
    range for NULL and the not-null range otherwise.  Any other position
    holds [ClosedRangeColumnExpr(k, k, type)] on the first call, and on later
    calls the bounds [Below{k}] and [Above{k}] under the type that was there:
    nothing of an earlier key is left at a key position. *)
Theorem GetLookup_key_position (idx : Index) (exprs : list Expression)
    (mask : list bool) (lb : LookupBuilder) (key : lookupBuilderKey)
    (p : nat) (k : value) (cet : ColumnExpressionType) (m : bool) :
  built idx exprs mask lb →
  length exprs ≤ length (ColumnExpressionTypes idx) →
  length exprs ≤ length mask →
  length key = length exprs →
  key !! p = Some k →
  ColumnExpressionTypes idx !! p = Some cet →
  mask !! p = Some m →
  ∃ lb' lookup r',
    GetLookup lb key = Ok (lb', lookup)
    ∧ Ranges lookup = [r']
    ∧ r' !! p
      = Some (if m then nullSafeRange (cet_Type cet) k
              else match rang lb with
                   | None => ClosedRangeColumnExpr k k (cet_Type cet)
                   | Some r =>
                       {| LowerBound := Some (Below k); UpperBound := Some (Above k);
                          Typ := Typ (default zeroRangeColumnExpr (r !! p)) |}
                   end).
Proof.
  intros Hb Harity Hmask Hkey Hk Hcet Hm.
  destruct (built_inv idx exprs mask lb Harity Hmask Hb)
    as (Hidx & Hcets & Hmk & _ & _ & Hr).
  destruct (GetLookup_ok lb key idx Hidx) as (r' & Heq & _).
  { rewrite Hcets. lia. }
  { rewrite Hmk. lia. }
  { intros r Hrang. now apply Hr. }
  eexists _, _, r'. split; [exact Heq|]. split; [reflexivity|].
  unfold GetLookup in Heq. destruct (rang lb) as [r|] eqn:Hrang.
  - destruct (forKey_position updateKey updateWrites key updateKey_writes
                (with_dyn lb (Some r) (length key =? length (cets lb)) false) 0 r)
      as (r2 & Heq2 & Hpos).
    { reflexivity. }
    { cbn [cets with_dyn]. now apply Hr. }
    { cbn. rewrite Hcets. lia. }
    { cbn. rewrite Hmk. lia. }
    rewrite Heq2 in Heq. cbn [mbind result_bind] in Heq.
    rewrite (packLookup_ok _ idx) in Heq by exact Hidx. cbn in Heq.
    injection Heq as Heq. subst r2.
    pose proof (Hpos p k Hk) as Hp. cbn [Nat.add] in Hp. rewrite Hp.
    cbn [matchesNullMask cets with_dyn]. unfold updateWrites.
    rewrite Hmk, Hm, Hcets, Hcet. now destruct m.
  - unfold initializeRange in Heq.
    set (r0 := replicate (length (cets lb)) zeroRangeColumnExpr) in *.
    set (lb0 := with_dyn lb (Some r0) (length key =? length (cets lb)) false) in *.
    assert (Hlen0 : length r0 = length (cets lb0)).
    { subst r0 lb0. cbn [cets with_dyn]. now rewrite length_replicate. }
    destruct (forKey_position initKey initWrites key initKey_writes lb0 0 r0 eq_refl Hlen0)
      as (r1 & Heq1 & Hpos).
    { subst lb0. cbn. rewrite Hcets. lia. }
    { subst lb0. cbn. rewrite Hmk. lia. }
    rewrite Heq1 in Heq. cbn [mbind result_bind cets with_dyn] in Heq.
    destruct (padAll_ok (length (cets lb) - length key)
                (with_dyn lb0 (Some r1)
                   (isPointLookup lb0 && negb (existsb is_nil key))
                   (emptyRange lb0 || existsb is_nil key))
                (length key) r1) as (r2 & Heq2 & _ & Hframe & _).
    { reflexivity. }
    { destruct (forKey_ok initKey key initKey_step lb0 0 r0 eq_refl Hlen0)
        as (r1' & Heq1' & Hlen1 & _).
      { subst lb0. cbn. rewrite Hcets. lia. }
      { subst lb0. cbn. rewrite Hmk. lia. }
      rewrite Heq1' in Heq1. injection Heq1 as <-.
      rewrite Hlen1. exact Hlen0. }
    { subst lb0. cbn. rewrite Hcets. lia. }
    subst lb0. cbn [cets with_dyn] in Heq2, Heq. rewrite Heq2 in Heq.
    cbn [mbind result_bind] in Heq.
    rewrite (packLookup_ok _ idx) in Heq by exact Hidx. cbn in Heq.
    injection Heq as Heq. subst r2.
    rewrite Hframe by (left; apply lookup_lt_Some in Hk; lia).
    pose proof (Hpos p k Hk) as Hp. cbn [Nat.add] in Hp. rewrite Hp.
    cbn [matchesNullMask cets with_dyn]. unfold initWrites.
    rewrite Hmk, Hm, Hcets, Hcet. now destruct m.
Qed.

(** ** Rebuilt builders *)


(** ** The other methods of IndexedTableAccess *)

(** [sql.IndexLookup.IsEmpty] is not among the sources; the methods below
    are stated for any implementation of it. *)
Variable IsEmpty : IndexLookup → bool.

(** [func (i *IndexedTableAccess) IsStatic() bool] *)
Definition IsStatic (i : IndexedTableAccess) : bool := negb (IsEmpty (ita_lookup i)).

(** [func (i *IndexedTableAccess) Index() sql.Index] *)
Definition IndexedTableAccess_Index (i : IndexedTableAccess) : result (option Index) :=
  if negb (IsEmpty (ita_lookup i)) then Ok (lk_Index (ita_lookup i))
  else b ← deref (ita_lb i); Ok (index_ b).

(** [func (i *IndexedTableAccess) WithChildren(children ...sql.Node) (sql.Node, error)],
    over any type of nodes. *)
Definition IndexedTableAccess_WithChildren {N : Type} (i : IndexedTableAccess)
    (children : list N) : result IndexedTableAccess :=
  if negb (length children =? 0) then Err ErrInvalidChildrenNumber else Ok i.

(** [func (i *IndexedTableAccess) GetLookup(ctx *sql.Context, row sql.Row) (sql.IndexLookup, error)].
    The node is returned with its builder as the call left it. *)
Definition IndexedTableAccess_GetLookup (i : IndexedTableAccess) (ctx : Ctx)
    (row : Sql.Row V) : result (IndexedTableAccess * IndexLookup) :=
  if negb (IsEmpty (ita_lookup i)) then Ok (i, ita_lookup i)
  else
    b ← deref (ita_lb i);
    '(b, key) ← GetKey b ctx row;
    '(b, lookup) ← GetLookup b key;
    Ok ({| ita_ResolvedTable := ita_ResolvedTable i; ita_lb := Some b;
           ita_lookup := ita_lookup i; ita_Table := ita_Table i |}, lookup).

(** [func (i *IndexedTableAccess) CanBuildIndex(ctx *sql.Context) (bool, error)].
    [GetLookup] has no error return that is not nil, so [err == nil] holds
    whenever it returns. *)
Definition CanBuildIndex (i : IndexedTableAccess) : result bool :=
  if negb (IsEmpty (ita_lookup i)) then Ok true
  else
    b ← deref (ita_lb i);
    key ← GetZeroKey b;
    '(_, lookup) ← GetLookup b key;
    Ok (negb (IsEmpty lookup)).

(** [func (i *IndexedTableAccess) Expressions() []sql.Expression] *)
Definition IndexedTableAccess_Expressions (i : IndexedTableAccess)
  : result (list Expression) :=
  if negb (IsEmpty (ita_lookup i)) then Ok []
  else b ← deref (ita_lb i); Ok (keyExprs b).

(** [func (i *IndexedTableAccess) WithExpressions(exprs ...sql.Expression) (sql.Node, error)] *)
Definition IndexedTableAccess_WithExpressions (i : IndexedTableAccess)
    (exprs : list Expression) : result IndexedTableAccess :=
  if negb (IsEmpty (ita_lookup i)) then
    if negb (length exprs =? 0) then Err ErrInvalidChildrenNumber else Ok i
  else
    b ← deref (ita_lb i);
    lb ← WithExpressions b exprs;
    Ok {| ita_ResolvedTable := ita_ResolvedTable i; ita_lb := Some lb;
          ita_lookup := zeroIndexLookup; ita_Table := ita_Table i |}.

(** The lookup an indexed join makes for a row.  On a node without static
    lookup whose builder was made by [NewLookupBuilder], if every key
    expression evaluates on the row, [GetLookup] returns a lookup on the
    builder's index with one range of the index arity; it is marked empty
    exactly when some key expression evaluated to NULL, and is a point lookup
    exactly when no mask bit is set, the key covers the whole index, no key
    value is NULL and the index is unique. *)
Theorem IndexedTableAccess_GetLookup_dynamic (i : IndexedTableAccess) (idx : Index)
    (exprs : list Expression) (mask : list bool) (lb : LookupBuilder)
    (ctx : Ctx) (row : Sql.Row V) (k : lookupBuilderKey) :
  IsEmpty (ita_lookup i) = true →
  ita_lb i = Some lb →
  built idx exprs mask lb →
  length exprs ≤ length (ColumnExpressionTypes idx) →
  length exprs ≤ length mask →
  Forall2 (λ (e : Expression) v, Sql.Eval e ctx row = Ok v) exprs k →
  ∃ i' lookup r,
    IndexedTableAccess_GetLookup i ctx row = Ok (i', lookup)
    ∧ lk_Index lookup = Some idx
    ∧ Ranges lookup = [r]
    ∧ length r = length (ColumnExpressionTypes idx)
    ∧ IsEmptyRange lookup = existsb is_nil k
    ∧ IsPointLookup lookup
      = forallb negb mask
        && ((length exprs =? length (ColumnExpressionTypes idx))
            && negb (existsb is_nil k))
        && IsUnique idx.
Proof.
  intros Hdyn Hlb Hb Harity Hmask Hk.
  pose proof (built_inv idx exprs mask lb Harity Hmask Hb) as (_ & _ & _ & _ & Hke & _).
  assert (Hget : GetKey lb ctx row = Ok (with_key lb k, k)).
  { unfold GetKey. rewrite <- Hke in Hk. apply mapM_result_Ok in Hk. now rewrite Hk. }
  pose proof (built_GetKey idx exprs mask lb ctx row _ k Hb Hget) as Hb'.
  destruct (built_inv idx exprs mask _ Harity Hmask Hb')
    as (Hidx & Hcets & Hmk & Hns & _ & Hr).
  pose proof (Forall2_length _ _ _ Hk) as Hlen.
  destruct (GetLookup_ok (with_key lb k) k idx Hidx) as (r' & Heq & Hlr & _).
  { rewrite Hcets. lia. }
  { rewrite Hmk. lia. }
  { intros r Hrang. now apply Hr. }
  unfold IndexedTableAccess_GetLookup. rewrite Hdyn, Hlb. cbn.
  rewrite Hget. cbn [mbind result_bind]. rewrite Heq. cbn.
  eexists _, _, r'. split_and!; try reflexivity.
  - now rewrite <- Hcets.
  - cbn in Hns, Hcets. now rewrite Hns, nullSafeOf_forallb, Hcets, <- Hlen.
Qed.


End IndexedAccess.

(** A builder rebuilt by [WithExpressions] does not carry [nullSafe] over:
    its lookups are never point lookups.  (C1 is stated for builders made by
    [NewLookupBuilder].) *)
Lemma WithExpressions_clears_nullSafe {V Ctx : Type} (lb lb2 : @LookupBuilder V Ctx)
    (exprs : list (Sql.Expression V Ctx)) :
  WithExpressions lb exprs = Ok lb2 → nullSafe lb2 = false.
Proof.
  unfold WithExpressions. destruct (negb _); [discriminate|].
  now intros [= <-].
Qed.

(** Modelled from the spec: the range constructors of package sql
    (sql/range_column_expr.go) are not among the sources.  The spec names
    "allRange(type), nullRange(type), notNullRange(type), closedRange(lo, hi,
    type)" and the kinds "closed[k,k], null, not-null, ..., all"; each is
    given here by its two cuts. *)
#[global] Instance rangeModel {V : Type} : @RangeExprs V := {|
  AllRangeColumnExpr t :=
    {| LowerBound := Some BelowNull; UpperBound := Some AboveAll; Typ := Some t |};
  NullRangeColumnExpr t :=
    {| LowerBound := Some BelowNull; UpperBound := Some AboveNull; Typ := Some t |};
  NotNullRangeColumnExpr t :=
    {| LowerBound := Some AboveNull; UpperBound := Some AboveAll; Typ := Some t |};
  ClosedRangeColumnExpr lo hi t :=
    {| LowerBound := Some (Below lo); UpperBound := Some (Above hi); Typ := Some t |};
|}.

(** An integer type, a key expression reading column 0 of the row, a unique
    index on one column and a unique index on two. *)
Definition intType : Sql.SqlType nat :=
  {| Sql.Zero := Some 0; Sql.Convert := λ v, (v, true, None) |}.

Definition keyExpr : Sql.Expression nat unit :=
  {| Sql.Children := [];
     Sql.Eval := λ _ row, Ok (default None (row !! 0));
     Sql.IsNullable := true;
     Sql.Resolved := true;
     Sql.String := "a.x";
     Sql.DebugString := "a.x";
     Sql.Type_ := Ok (Some intType) |}.

Definition colX : @ColumnExpressionType nat :=
  {| cet_Expression := "b.x"; cet_Type := intType |}.

Definition colY : @ColumnExpressionType nat :=
  {| cet_Expression := "b.y"; cet_Type := intType |}.

Definition idxX : @Index nat :=
  {| IsUnique := true; ColumnExpressionTypes := [colX]; CanSupport := λ _, true |}.

Definition idxXY : @Index nat :=
  {| IsUnique := true; ColumnExpressionTypes := [colX; colY]; CanSupport := λ _, true |}.

(** The builders [NewLookupBuilder] makes for [a.x = b.x] and [a.x <=> b.x]
    on [idxX], and for [a.x = b.x] on [idxXY]. *)
Definition builderEq : @LookupBuilder nat unit :=
  {| keyExprs := [keyExpr]; matchesNullMask := [false]; index_ := Some idxX;
     key := None; rang := None; nullSafe := true; isPointLookup := true;
     emptyRange := false; cets := [colX] |}.

Definition builderNullSafe : @LookupBuilder nat unit :=
  {| keyExprs := [keyExpr]; matchesNullMask := [true]; index_ := Some idxX;
     key := None; rang := None; nullSafe := false; isPointLookup := true;
     emptyRange := false; cets := [colX] |}.

Definition builderPrefix : @LookupBuilder nat unit :=
  {| keyExprs := [keyExpr]; matchesNullMask := [false]; index_ := Some idxXY;
     key := None; rang := None; nullSafe := true; isPointLookup := true;
     emptyRange := false; cets := [colX; colY] |}.

Example NewLookupBuilder_builderEq :
  NewLookupBuilder (Some idxX) [keyExpr] [false] = Ok builderEq.
Proof. reflexivity. Qed.

Example NewLookupBuilder_builderNullSafe :
  NewLookupBuilder (Some idxX) [keyExpr] [true] = Ok builderNullSafe.
Proof. reflexivity. Qed.

Example NewLookupBuilder_builderPrefix :
  NewLookupBuilder (Some idxXY) [keyExpr] [false] = Ok builderPrefix.
Proof. reflexivity. Qed.

Lemma GetLookup_point_lookup_witness :
  ∃ lb' lookup,
    GetLookup builderEq [Some 5] = Ok (lb', lookup)
    ∧ IsPointLookup lookup = forallb negb [false] && IsUnique idxX.
Proof.
  apply (GetLookup_point_lookup idxX [keyExpr] [false] builderEq [Some 5]).
  - apply built_new. reflexivity.
  - reflexivity.
  - cbn. lia.
  - reflexivity.
  - reflexivity.
Defined.

(** C1 as stated fails under a [<=>] mask: the index is unique, the key is
    full and has no NULL, and the lookup is not a point lookup. *)
Lemma GetLookup_null_safe_mask_not_point :
  NewLookupBuilder (Some idxX) [keyExpr] [true] = Ok builderNullSafe
  ∧ ∃ lb' lookup,
      GetLookup builderNullSafe [Some 5] = Ok (lb', lookup)
      ∧ IsUnique idxX = true
      ∧ IsPointLookup lookup = false.
Proof. split; [reflexivity|]. eexists _, _. repeat split. Qed.

(** C4 at [a.x <=> b.x] with [a.x] NULL: the range at the null-safe
    position is the null range, and the lookup is marked empty all the
    same, whatever the range constructors are. *)
Theorem GetLookup_null_at_null_safe_is_empty :
  ∀ R : @RangeExprs nat,
    NewLookupBuilder (Some idxX) [keyExpr] [true] = Ok builderNullSafe
    ∧ ∃ lb',
        GetLookup builderNullSafe [None]
        = Ok (lb', {| lk_Index := Some idxX;
                      Ranges := [[NullRangeColumnExpr intType]];
                      IsPointLookup := false; IsEmptyRange := true;
                      IsSpatialLookup := false; IsReverse := false |}).
Proof. intros R. split; [reflexivity|]. eexists. reflexivity. Qed.


(** The builder for [a.x = b.x AND a.x = b.y] on [idxXY]. *)
Definition builderXY : @LookupBuilder nat unit :=
  {| keyExprs := [keyExpr; keyExpr]; matchesNullMask := [false; false];
     index_ := Some idxXY; key := None; rang := None; nullSafe := true;
     isPointLookup := true; emptyRange := false; cets := [colX; colY] |}.

Example NewLookupBuilder_builderXY :
  NewLookupBuilder (Some idxXY) [keyExpr; keyExpr] [false; false] = Ok builderXY.
Proof. reflexivity. Qed.


Example GetLookup_builderPrefix :
  ∃ lb',
    GetLookup builderPrefix [Some 5]
    = Ok (lb', {| lk_Index := Some idxXY;
                  Ranges := [[ClosedRangeColumnExpr (Some 5) (Some 5) intType;
                              AllRangeColumnExpr intType]];
                  IsPointLookup := false; IsEmptyRange := false;
                  IsSpatialLookup := false; IsReverse := false |}).
Proof. eexists. reflexivity. Qed.

(** An index-addressable table [b], and the static access to it through
    [idxX], which supports every range. *)
Definition tableB : Table :=
  {| tbl_Name := "b"; tbl_IndexAddressable := true; tbl_Underlying := None |}.

Definition lookupX : @IndexLookup nat :=
  {| lk_Index := Some idxX;
     Ranges := [[ClosedRangeColumnExpr (Some 5) (Some 5) intType]];
     IsPointLookup := true; IsEmptyRange := false;
     IsSpatialLookup := false; IsReverse := false |}.

Definition staticAccess : @IndexedTableAccess nat unit :=
  {| ita_ResolvedTable := {| rt_Table := tableB |}; ita_lb := None;
     ita_lookup := lookupX;
     ita_Table := Some {| it_Table := tableB; it_Lookup := lookupX |} |}.

Definition replaceTable (_ : ResolvedTable) (t : Table) : result ResolvedTable :=
  Ok {| rt_Table := t |}.

Example NewStaticIndexedAccess_tableB :
  NewStaticIndexedAccessForResolvedTable {| rt_Table := tableB |} lookupX = Ok staticAccess.
Proof. reflexivity. Qed.

Lemma NewStaticIndexedAccess_CanSupport_witness :
  NewStaticIndexedAccessForResolvedTable {| rt_Table := tableB |} lookupX = Ok staticAccess.
Proof.
  exact (NewStaticIndexedAccess_CanSupport {| rt_Table := tableB |} lookupX idxX
           eq_refl eq_refl).
Defined.

Lemma GetLookup_empty_range_witness :
  ∃ lb' lookup,
    GetLookup builderNullSafe [None] = Ok (lb', lookup)
    ∧ IsEmptyRange lookup = existsb (is_nil (V:=nat)) [None].
Proof.
  apply (GetLookup_empty_range idxX [keyExpr] [true] builderNullSafe [None]).
  - apply built_new. reflexivity.
  - cbn. lia.
  - cbn. lia.
  - reflexivity.
Defined.

Lemma WithTable_CanSupport_inverted_witness :
  WithTable replaceTable staticAccess tableB = Err ErrInvalidLookupForIndexedTable.
Proof.
  exact (WithTable_CanSupport_inverted replaceTable staticAccess tableB
           {| rt_Table := tableB |} idxX eq_refl eq_refl eq_refl).
Defined.

(** A lookup is empty when it has no index: one implementation of
    [IsEmpty]. *)
Definition noIndex {V : Type} (l : @IndexLookup V) : bool :=
  match lk_Index l with
  | None => true
  | Some _ => false
  end.

(** The node of a lookup join on [b] through [idxX] with key [a.x]. *)
Definition dynamicAccess : @IndexedTableAccess nat unit :=
  {| ita_ResolvedTable := {| rt_Table := tableB |}; ita_lb := Some builderEq;
     ita_lookup := zeroIndexLookup; ita_Table := None |}.

Lemma IndexedTableAccess_GetLookup_dynamic_witness :
  ∃ i' lookup r,
    IndexedTableAccess_GetLookup noIndex dynamicAccess () [Some 7] = Ok (i', lookup)
    ∧ lk_Index lookup = Some idxX
    ∧ Ranges lookup = [r]
    ∧ length r = length (ColumnExpressionTypes idxX)
    ∧ IsEmptyRange lookup = existsb is_nil [Some 7]
    ∧ IsPointLookup lookup
      = forallb negb [false]
        && ((length [keyExpr] =? length (ColumnExpressionTypes idxX))
            && negb (existsb is_nil [Some 7]))
        && IsUnique idxX.
Proof.
  apply (IndexedTableAccess_GetLookup_dynamic noIndex dynamicAccess idxX [keyExpr] [false]
           builderEq () [Some 7] [Some 7]).
  - reflexivity.
  - reflexivity.
  - apply built_new. reflexivity.
  - cbn. lia.
  - cbn. lia.
  - repeat constructor.
Defined.


Lemma GetLookup_key_position_witness :
  ∃ lb' lookup r',
    GetLookup builderNullSafe [None] = Ok (lb', lookup)
    ∧ Ranges lookup = [r']
    ∧ r' !! 0
      = Some (if true then nullSafeRange (cet_Type colX) None
              else match rang builderNullSafe with
                   | None => ClosedRangeColumnExpr None None (cet_Type colX)
                   | Some r =>
                       {| LowerBound := Some (Below None); UpperBound := Some (Above None);
                          Typ := Typ (default zeroRangeColumnExpr (r !! 0)) |}
                   end).
Proof.
  apply (GetLookup_key_position idxX [keyExpr] [true] builderNullSafe [None] 0 None colX true).
  - apply built_new. reflexivity.
  - cbn. lia.
  - cbn. lia.
  - reflexivity.
  - reflexivity.
  - reflexivity.
  - reflexivity.
Defined.


(** The same key on the builder before and after [WithExpressions] with
    its own expressions: a point lookup before, none after. *)
Example WithExpressions_loses_point_lookup :
  (∃ lb', GetLookup builderEq [Some 5]
          = Ok (lb', {| lk_Index := Some idxX;
                        Ranges := [[ClosedRangeColumnExpr (Some 5) (Some 5) intType]];
                        IsPointLookup := true; IsEmptyRange := false;
                        IsSpatialLookup := false; IsReverse := false |}))
  ∧ ∃ lb2 lb', WithExpressions builderEq (keyExprs builderEq) = Ok lb2
      ∧ GetLookup lb2 [Some 5]
        = Ok (lb', {| lk_Index := Some idxX;
                      Ranges := [[ClosedRangeColumnExpr (Some 5) (Some 5) intType]];
                      IsPointLookup := false; IsEmptyRange := false;
                      IsSpatialLookup := false; IsReverse := false |}).
Proof. split; [eexists; reflexivity|]. eexists _, _. split; reflexivity. Qed.

End IndexedAccess.


(* ===================================================================== *)
(** * memory: the in-memory database *)
(* ===================================================================== *)

Module Memory.

(** The error kinds of package sql that the database returns, each with
    the name that [Kind.New] formats into its message. *)
Inductive DbError : Type :=
  | ErrTableAlreadyExists (name : string)
  | ErrTableNotFound (name : string)
  | ErrTriggerDoesNotExist (name : string)
  | ErrStoredProcedureAlreadyExists (name : string)
  | ErrStoredProcedureDoesNotExist (name : string)
  | ErrEventAlreadyExists (name : string)
  | ErrEventDoesNotExist (name : string)
  | ErrExistingView (name : string)
  | ErrViewDoesNotExist (name : string).

Section Memory.
(** The types of package sql that the database stores and does not look
    into: [sql.Table] (an interface value, nil among them),
    [sql.TriggerDefinition], [sql.StoredProcedureDetails],
    [sql.EventDefinition] and [sql.ViewDefinition], [*ForeignKeyCollection],
    [sql.CollationID].  [Revision] is the type of the values that can be
    the key of a Go map and equal themselves (the nil interface value among
    them). *)
Context {Table TriggerDefinition StoredProcedureDetails EventDefinition : Type}.
Context {ViewDefinition ForeignKeyCollection CollationID : Type}.
Context {Revision : Type} {Revision_eq : EqDecision Revision}.
Context {Revision_countable : Countable Revision}.

(** [strings.ToLower], and the [Name] field of each definition. *)
Variable ToLower : string → string.
Variable trigger_Name : TriggerDefinition → string.
Variable spd_Name : StoredProcedureDetails → string.
Variable event_Name : EventDefinition → string.

(** The zero values [sql.StoredProcedureDetails{}] and
    [sql.EventDefinition{}], and the struct literal of [CreateView]. *)
Variable zeroStoredProcedure : StoredProcedureDetails.
Variable zeroEvent : EventDefinition.
Variable newViewDefinition : string → string → string → ViewDefinition.
Variable zeroViewDefinition : ViewDefinition.

(** [type BaseDatabase struct].  The maps are the ones the constructors
    make; the methods are modelled on a database that is there, and return
    the database as they leave it beside their [error]. *)
Record BaseDatabase : Type := {
  name : string;
  tables : gmap string Table;
  fkColl : ForeignKeyCollection;
  triggers : list TriggerDefinition;
  storedProcedures : list StoredProcedureDetails;
  events : list EventDefinition;
  primaryKeyIndexes : bool;
  collation : CollationID;
}.

(** [type Database struct] *)
Record Database : Type := {
  base : BaseDatabase;
  views : gmap string ViewDefinition;
}.

(** A value of type [interface{}] used as the key of a map.  Go hashes
    the key on every read and every write of a map, a nil map included: a
    key whose dynamic type cannot be hashed (a slice, a map, a function, or a
    struct or array that holds one) makes both panic.  A key that holds a
    NaN can be hashed but equals no key, not even itself: a write under it
    adds an entry that no read finds.  Every other key is a [Revision]. *)
Inductive mapKey : Type :=
  | Comparable (k : Revision)
  | NeverEqual
  | Unhashable.

#[global] Instance mapKey_eq_dec : EqDecision mapKey.
Proof using Revision_eq. solve_decision. Defined.

(** A [map[interface{}]sql.Table] that is not nil: its entries under the
    keys that equal themselves, and the tables written under keys that equal
    no key, in the order they were written. *)
Record revisionMap : Type := {
  found : gmap Revision Table;
  lost : list Table;
}.

(** [type HistoryDatabase struct].  [Revisions] is an exported field: the
    map may be nil, and so may the map it holds for a name.  Each name has a
    map of its own, as [AddTableAsOf] makes them.  The embedded database is
    one that the constructors make. *)
Record HistoryDatabase : Type := {
  database : Database;
  Revisions : option (gmap string (option revisionMap));
  currRevision : option mapKey;
}.

Definition with_tables (d : BaseDatabase) (t : gmap string Table) : BaseDatabase :=
  {| name := name d; tables := t; fkColl := fkColl d; triggers := triggers d;
     storedProcedures := storedProcedures d; events := events d;
     primaryKeyIndexes := primaryKeyIndexes d; collation := collation d |}.

Definition with_triggers (d : BaseDatabase) (l : list TriggerDefinition) : BaseDatabase :=
  {| name := name d; tables := tables d; fkColl := fkColl d; triggers := l;
     storedProcedures := storedProcedures d; events := events d;
     primaryKeyIndexes := primaryKeyIndexes d; collation := collation d |}.

Definition with_storedProcedures (d : BaseDatabase) (l : list StoredProcedureDetails)
  : BaseDatabase :=
  {| name := name d; tables := tables d; fkColl := fkColl d; triggers := triggers d;
     storedProcedures := l; events := events d;
     primaryKeyIndexes := primaryKeyIndexes d; collation := collation d |}.

Definition with_events (d : BaseDatabase) (l : list EventDefinition) : BaseDatabase :=
  {| name := name d; tables := tables d; fkColl := fkColl d; triggers := triggers d;
     storedProcedures := storedProcedures d; events := l;
     primaryKeyIndexes := primaryKeyIndexes d; collation := collation d |}.

(** [func NewViewlessDatabase(name string) *BaseDatabase]; the other fields
    have their zero values. *)
Definition NewViewlessDatabase (newForeignKeyCollection : ForeignKeyCollection)
    (zeroCollation : CollationID) (name : string) : BaseDatabase :=
  {| name := name; tables := ∅; fkColl := newForeignKeyCollection; triggers := [];
     storedProcedures := []; events := []; primaryKeyIndexes := false;
     collation := zeroCollation |}.

(** [func NewDatabase(name string) *Database] *)
Definition NewDatabase (newForeignKeyCollection : ForeignKeyCollection)
    (zeroCollation : CollationID) (name : string) : Database :=
  {| base := NewViewlessDatabase newForeignKeyCollection zeroCollation name; views := ∅ |}.

(** ** The loops over the definition lists *)

(** [for _, x := range l { if p(x) { return x, true, nil } }; return zero, false, nil] *)
Fixpoint findFirst {A : Type} (p : A → bool) (zero : A) (l : list A) : A * bool :=
  match l with
  | [] => (zero, false)
  | x :: l' => if p x then (x, true) else findFirst p zero l'
  end.

(** [for i, x := range l { if p(x) { l = append(l[:i], l[i+1:]...); found = true; break } }],
    giving the list and [found]; [rest] is what the loop has yet to visit. *)
Fixpoint dropLoop {A : Type} (p : A → bool) (l : list A) (i : nat) (rest : list A)
  : list A * bool :=
  match rest with
  | [] => (l, false)
  | x :: rest' => if p x then (take i l ++ drop (S i) l, true) else dropLoop p l (S i) rest'
  end.

Definition dropFirst {A : Type} (p : A → bool) (l : list A) : list A * bool :=
  dropLoop p l 0 l.

(** ** Triggers *)

(** [func (d *BaseDatabase) GetTriggers(ctx *sql.Context) ([]sql.TriggerDefinition, error)] *)
Definition GetTriggers (d : BaseDatabase) : list TriggerDefinition := [] ++ triggers d.

(** [func (d *BaseDatabase) CreateTrigger(ctx *sql.Context, definition sql.TriggerDefinition) error] *)
Definition CreateTrigger (d : BaseDatabase) (definition : TriggerDefinition)
  : BaseDatabase * option DbError :=
  (with_triggers d (triggers d ++ [definition]), None).

(** [func (d *BaseDatabase) DropTrigger(ctx *sql.Context, name string) error] *)
Definition DropTrigger (d : BaseDatabase) (name : string) : BaseDatabase * option DbError :=
  let '(l, found) :=
    dropFirst (λ trigger, bool_decide (trigger_Name trigger = name)) (triggers d) in
  if negb found then (with_triggers d l, Some (ErrTriggerDoesNotExist name))
  else (with_triggers d l, None).

(** ** Stored procedures *)

(** [func (d *BaseDatabase) GetStoredProcedure(ctx *sql.Context, name string) (sql.StoredProcedureDetails, bool, error)] *)
Definition GetStoredProcedure (d : BaseDatabase) (name : string)
  : StoredProcedureDetails * bool :=
  let name := ToLower name in
  findFirst (λ spd, bool_decide (name = ToLower (spd_Name spd))) zeroStoredProcedure
            (storedProcedures d).

(** [func (d *BaseDatabase) GetStoredProcedures(ctx *sql.Context) ([]sql.StoredProcedureDetails, error)] *)
Definition GetStoredProcedures (d : BaseDatabase) : list StoredProcedureDetails :=
  [] ++ storedProcedures d.

(** [func (d *BaseDatabase) SaveStoredProcedure(ctx *sql.Context, spd sql.StoredProcedureDetails) error] *)
Definition SaveStoredProcedure (d : BaseDatabase) (spd : StoredProcedureDetails)
  : BaseDatabase * option DbError :=
  let loweredName := ToLower (spd_Name spd) in
  if existsb (λ existingSpd, bool_decide (ToLower (spd_Name existingSpd) = loweredName))
             (storedProcedures d)
  then (d, Some (ErrStoredProcedureAlreadyExists (spd_Name spd)))
  else (with_storedProcedures d (storedProcedures d ++ [spd]), None).

(** [func (d *BaseDatabase) DropStoredProcedure(ctx *sql.Context, name string) error] *)
Definition DropStoredProcedure (d : BaseDatabase) (name : string)
  : BaseDatabase * option DbError :=
  let loweredName := ToLower name in
  let '(l, found) :=
    dropFirst (λ spd, bool_decide (ToLower (spd_Name spd) = loweredName))
              (storedProcedures d) in
  if negb found then (with_storedProcedures d l, Some (ErrStoredProcedureDoesNotExist name))
  else (with_storedProcedures d l, None).

(** ** Events *)

(** [func (d *BaseDatabase) GetEvent(ctx *sql.Context, name string) (sql.EventDefinition, bool, error)] *)
Definition GetEvent (d : BaseDatabase) (name : string) : EventDefinition * bool :=
  let name := ToLower name in
  findFirst (λ ed, bool_decide (name = ToLower (event_Name ed))) zeroEvent (events d).

(** [func (d *BaseDatabase) GetEvents(ctx *sql.Context) ([]sql.EventDefinition, error)] *)
Definition GetEvents (d : BaseDatabase) : list EventDefinition := [] ++ events d.

(** [func (d *BaseDatabase) SaveEvent(ctx *sql.Context, ed sql.EventDefinition) error] *)
Definition SaveEvent (d : BaseDatabase) (ed : EventDefinition)
  : BaseDatabase * option DbError :=
  let loweredName := ToLower (event_Name ed) in
  if existsb (λ existingEd, bool_decide (ToLower (event_Name existingEd) = loweredName))
             (events d)
  then (d, Some (ErrEventAlreadyExists (event_Name ed)))
  else (with_events d (events d ++ [ed]), None).

(** [func (d *BaseDatabase) DropEvent(ctx *sql.Context, name string) error] *)
Definition DropEvent (d : BaseDatabase) (name : string) : BaseDatabase * option DbError :=
  let loweredName := ToLower name in
  let '(l, found) :=
    dropFirst (λ ed, bool_decide (ToLower (event_Name ed) = loweredName)) (events d) in
  if negb found then (with_events d l, Some (ErrEventDoesNotExist name))
  else (with_events d l, None).

(** The loop of [UpdateEvent]: [l] is [d.events], written in place at
    index [i]; [rest] is what the loop has yet to visit.  It gives the list,
    [found], and the error of the early return. *)
Fixpoint updateLoop (loweredOriginalName loweredNewName : string) (ed : EventDefinition)
    (l : list EventDefinition) (i : nat) (found : bool) (rest : list EventDefinition)
  : list EventDefinition * bool * option DbError :=
  match rest with
  | [] => (l, found, None)
  | existingEd :: rest' =>
      if negb (bool_decide (loweredOriginalName = loweredNewName))
         && bool_decide (ToLower (event_Name existingEd) = loweredNewName)
      then (l, found, Some (ErrEventAlreadyExists loweredNewName))
      else if bool_decide (ToLower (event_Name existingEd) = loweredOriginalName)
      then updateLoop loweredOriginalName loweredNewName ed (<[i:=ed]> l) (S i) true rest'
      else updateLoop loweredOriginalName loweredNewName ed l (S i) found rest'
  end.

(** [func (d *BaseDatabase) UpdateEvent(ctx *sql.Context, originalName string, ed sql.EventDefinition) error] *)
Definition UpdateEvent (d : BaseDatabase) (originalName : string) (ed : EventDefinition)
  : BaseDatabase * option DbError :=
  let loweredOriginalName := ToLower originalName in
  let loweredNewName := ToLower (event_Name ed) in
  let '(l, found, err) :=
    updateLoop loweredOriginalName loweredNewName ed (events d) 0 false (events d) in
  match err with
  | Some e => (with_events d l, Some e)
  | None =>
      if negb found then (with_events d l, Some (ErrEventDoesNotExist (event_Name ed)))
      else (with_events d l, None)
  end.

(** ** Collation *)

(** [func (d *BaseDatabase) GetCollation(ctx *sql.Context) sql.CollationID] *)
Definition GetCollation (d : BaseDatabase) : CollationID := collation d.

(** [func (d *BaseDatabase) SetCollation(ctx *sql.Context, collation sql.CollationID) error] *)
Definition SetCollation (d : BaseDatabase) (c : CollationID) : BaseDatabase * option DbError :=
  ({| name := name d; tables := tables d; fkColl := fkColl d; triggers := triggers d;
      storedProcedures := storedProcedures d; events := events d;
      primaryKeyIndexes := primaryKeyIndexes d; collation := c |}, None).

(** ** Tables *)

(** [schema sql.PrimaryKeySchema], and the table that [CreateTable] makes:
    [NewTableWithCollation] and the table's [EnablePrimaryKeyIndexes] of package
    memory, and [sql.GetTableInsensitive], are not among the sources. *)
Variable PrimaryKeySchema : Type.
Variable NewTableWithCollation
  : string → PrimaryKeySchema → ForeignKeyCollection → CollationID → Table.
Variable EnablePrimaryKeyIndexes : Table → Table.
Variable sql_GetTableInsensitive : string → gmap string Table → Table * bool.

(** The nil [sql.Table]. *)
Variable nilTable : Table.

(** [func (d *BaseDatabase) Tables() map[string]sql.Table] *)
Definition Tables (d : BaseDatabase) : gmap string Table := tables d.

(** [func (d *BaseDatabase) GetTableInsensitive(ctx *sql.Context, tblName string) (sql.Table, bool, error)] *)
Definition GetTableInsensitive (d : BaseDatabase) (tblName : string)
  : Table * bool * option DbError :=
  let '(tbl, ok) := sql_GetTableInsensitive tblName (tables d) in (tbl, ok, None).

(** [func (d *BaseDatabase) AddTable(name string, t sql.Table)] *)
Definition AddTable (d : BaseDatabase) (name : string) (t : Table) : BaseDatabase :=
  with_tables d (<[name:=t]> (tables d)).

(** [func (d *BaseDatabase) CreateTable(ctx *sql.Context, name string, schema sql.PrimaryKeySchema, collation sql.CollationID) error] *)
Definition CreateTable (d : BaseDatabase) (name : string) (schema : PrimaryKeySchema)
    (collation : CollationID) : BaseDatabase * option DbError :=
  match tables d !! name with
  | Some _ => (d, Some (ErrTableAlreadyExists name))
  | None =>
      let table := NewTableWithCollation name schema (fkColl d) collation in
      let table := if primaryKeyIndexes d then EnablePrimaryKeyIndexes table else table in
      (with_tables d (<[name:=table]> (tables d)), None)
  end.

(** [func (d *BaseDatabase) DropTable(ctx *sql.Context, name string) error] *)
Definition DropTable (d : BaseDatabase) (name : string) : BaseDatabase * option DbError :=
  match tables d !! name with
  | None => (d, Some (ErrTableNotFound name))
  | Some _ => (with_tables d (delete name (tables d)), None)
  end.

(** ** Views *)

Definition with_views (d : Database) (v : gmap string ViewDefinition) : Database :=
  {| base := base d; views := v |}.

(** [func (d *Database) CreateView(ctx *sql.Context, name string, selectStatement, createViewStmt string) error] *)
Definition CreateView (d : Database) (name selectStatement createViewStmt : string)
  : Database * option DbError :=
  match views d !! name with
  | Some _ => (d, Some (ErrExistingView name))
  | None =>
      (with_views d (<[name:=newViewDefinition name selectStatement createViewStmt]>
                       (views d)), None)
  end.

(** [func (d *Database) DropView(ctx *sql.Context, name string) error] *)
Definition DropView (d : Database) (name : string) : Database * option DbError :=
  match views d !! name with
  | None => (d, Some (ErrViewDoesNotExist name))
  | Some _ => (with_views d (delete name (views d)), None)
  end.

(** [func (d *Database) GetViewDefinition(ctx *sql.Context, viewName string) (sql.ViewDefinition, bool, error)] *)
Definition GetViewDefinition (d : Database) (viewName : string) : ViewDefinition * bool :=
  match views d !! viewName with
  | Some viewDef => (viewDef, true)
  | None => (zeroViewDefinition, false)
  end.

(** ** Revisions of tables *)

(** [func NewHistoryDatabase(name string) *HistoryDatabase] *)
Definition NewHistoryDatabase (newForeignKeyCollection : ForeignKeyCollection)
    (zeroCollation : CollationID) (name : string) : HistoryDatabase :=
  {| database := NewDatabase newForeignKeyCollection zeroCollation name;
     Revisions := Some ∅; currRevision := None |}.

(** [db.Revisions[name]]: the map held for the name, if the name is a key.
    Reading a nil map finds nothing. *)
Definition revisionsOf (db : HistoryDatabase) (name : string) : option (option revisionMap) :=
  Revisions db ≫= λ revisions, revisions !! name.

(** [table, ok := m[time]] on a map that may be nil. *)
Definition readRevision (m : option revisionMap) (time : mapKey) : result (option Table) :=
  match time with
  | Unhashable => Panic
  | NeverEqual => Ok None
  | Comparable k => Ok (m ≫= λ m, found m !! k)
  end.

(** [m[asOf] = t]: writing into a nil map panics, and so does a key that
    cannot be hashed. *)
Definition writeRevision (m : option revisionMap) (asOf : mapKey) (t : Table)
  : result revisionMap :=
  m ← deref m;
  match asOf with
  | Unhashable => Panic
  | NeverEqual => Ok {| found := found m; lost := lost m ++ [t] |}
  | Comparable k => Ok {| found := <[k:=t]> (found m); lost := lost m |}
  end.

(** [func (db *HistoryDatabase) GetTableInsensitiveAsOf(ctx *sql.Context, tblName string, time interface{}) (sql.Table, bool, error)] *)
Definition GetTableInsensitiveAsOf (db : HistoryDatabase) (tblName : string)
    (time : mapKey) : result (Table * bool * option DbError) :=
  table ← readRevision (mjoin (revisionsOf db (ToLower tblName))) time;
  match table with
  | Some table => Ok (table, true, None)
  | None =>
      match revisionsOf db (ToLower tblName) with
      | Some _ => Ok (nilTable, false, Some (ErrTableNotFound tblName))
      | None => Ok (GetTableInsensitive (base (database db)) tblName)
      end
  end.

(** [func (db *HistoryDatabase) AddTableAsOf(name string, t sql.Table, asOf interface{})] *)
Definition AddTableAsOf (db : HistoryDatabase) (name : string) (t : Table)
    (asOf : mapKey) : result HistoryDatabase :=
  revisions ←
    match revisionsOf db (ToLower name) with
    | None =>
        revisions ← deref (Revisions db);
        Ok (<[ToLower name:=Some {| found := ∅; lost := [] |}]> revisions)
    | Some _ => deref (Revisions db)
    end;
  m ← writeRevision (mjoin (revisions !! ToLower name)) asOf t;
  Ok {| database :=
          {| base := with_tables (base (database db))
                       (<[name:=t]> (tables (base (database db))));
             views := views (database db) |};
        Revisions := Some (<[ToLower name:=Some m]> revisions);
        currRevision := currRevision db |}.

(** ** The loops, by the structure of the list *)

Lemma findFirst_found {A : Type} (p : A → bool) (zero : A) (l : list A) :
  snd (findFirst p zero l) = existsb p l.
Proof. induction l as [|x l IH]; cbn; [reflexivity|]. now destruct (p x). Qed.

Lemma findFirst_none {A : Type} (p : A → bool) (zero : A) (l : list A) :
  existsb p l = false → findFirst p zero l = (zero, false).
Proof.
  induction l as [|x l IH]; cbn; [reflexivity|].
  destruct (p x); [discriminate | exact IH].
Qed.

Lemma findFirst_app {A : Type} (p : A → bool) (zero : A) (l l' : list A) :
  findFirst p zero (l ++ l')
  = if existsb p l then findFirst p zero l else findFirst p zero l'.
Proof. induction l as [|x l IH]; cbn; [reflexivity|]. now destruct (p x). Qed.

Lemma existsb_eq {A : Type} (p q : A → bool) (l : list A) :
  (∀ x, p x = q x) → existsb p l = existsb q l.
Proof. intros Hpq. induction l as [|x l IH]; cbn; [reflexivity|]. now rewrite Hpq, IH. Qed.

Lemma existsb_false_Forall {A : Type} (p : A → bool) (l : list A) :
  existsb p l = false ↔ Forall (λ x, p x = false) l.
Proof.
  induction l as [|x l IH]; cbn.
  - split; [constructor | reflexivity].
  - rewrite orb_false_iff, IH. split.
    + intros [Hx Hl]. now constructor.
    + intros Hl. now inversion Hl.
Qed.

(** The list without its first element that satisfies [p]. *)
Fixpoint removeFirst {A : Type} (p : A → bool) (l : list A) : list A :=
  match l with
  | [] => []
  | x :: l' => if p x then l' else x :: removeFirst p l'
  end.

Lemma dropLoop_removeFirst {A : Type} (p : A → bool) (done rest : list A) :
  dropLoop p (done ++ rest) (length done) rest
  = (done ++ removeFirst p rest, existsb p rest).
Proof.
  revert done. induction rest as [|x rest IH]; intros done; cbn.
  - reflexivity.
  - destruct (p x) eqn:Hx; cbn.
    + rewrite take_app_length.
      replace (done ++ x :: rest) with ((done ++ [x]) ++ rest) by now rewrite <- app_assoc.
      replace (S (length done)) with (length (done ++ [x]))
        by (rewrite length_app; cbn; lia).
      now rewrite drop_app_length.
    + replace (done ++ x :: rest) with ((done ++ [x]) ++ rest) by now rewrite <- app_assoc.
      replace (S (length done)) with (length (done ++ [x]))
        by (rewrite length_app; cbn; lia).
      rewrite IH. now rewrite <- app_assoc.
Qed.

Lemma dropFirst_removeFirst {A : Type} (p : A → bool) (l : list A) :
  dropFirst p l = (removeFirst p l, existsb p l).
Proof. exact (dropLoop_removeFirst p [] l). Qed.

Lemma removeFirst_none {A : Type} (p : A → bool) (l : list A) :
  existsb p l = false → removeFirst p l = l.
Proof.
  induction l as [|x l IH]; cbn; [reflexivity|].
  destruct (p x); [discriminate|]. intros Hl. now rewrite IH.
Qed.

Lemma removeFirst_snoc {A : Type} (p : A → bool) (l : list A) (x : A) :
  existsb p l = false → p x = true → removeFirst p (l ++ [x]) = l.
Proof.
  induction l as [|y l IH]; cbn; intros Hl Hx.
  - now rewrite Hx.
  - destruct (p y); [discriminate|]. now rewrite IH.
Qed.

Lemma removeFirst_sublist {A : Type} (p : A → bool) (l : list A) :
  sublist (removeFirst p l) l.
Proof.
  induction l as [|x l IH]; cbn; [constructor|].
  destruct (p x); [now apply sublist_cons | now apply sublist_skip].
Qed.

Lemma with_events_events (d : BaseDatabase) : with_events d (events d) = d.
Proof. now destruct d. Qed.

Lemma with_storedProcedures_storedProcedures (d : BaseDatabase) :
  with_storedProcedures d (storedProcedures d) = d.
Proof. now destruct d. Qed.

Lemma with_triggers_triggers (d : BaseDatabase) : with_triggers d (triggers d) = d.
Proof. now destruct d. Qed.

(** ** Events: names *)

(** The name an event answers to. *)
Definition loweredName (ed : EventDefinition) : string := ToLower (event_Name ed).

(** No two events answer to the same name. *)
Definition uniqueNames (d : BaseDatabase) : Prop := NoDup (loweredName <$> events d).

(** Some event of the list answers to [n]. *)
Definition named (n : string) (l : list EventDefinition) : bool :=
  existsb (λ ed, bool_decide (ToLower n = loweredName ed)) l.

Lemma named_saved (n : string) (l : list EventDefinition) :
  existsb (λ existingEd, bool_decide (ToLower (event_Name existingEd) = ToLower n)) l
  = named n l.
Proof.
  unfold named, loweredName. induction l as [|x l IH]; cbn; [reflexivity|].
  rewrite IH. f_equal. apply bool_decide_ext. split; congruence.
Qed.

Lemma named_eq (n : string) (l : list EventDefinition) :
  existsb (λ ed, bool_decide (ToLower n = ToLower (event_Name ed))) l = named n l.
Proof. reflexivity. Qed.

Lemma GetEvent_found (d : BaseDatabase) (n : string) :
  snd (GetEvent d n) = named n (events d).
Proof. unfold GetEvent. now rewrite findFirst_found. Qed.

Lemma named_elem_of (n : string) (l : list EventDefinition) :
  named n l = false ↔ ToLower n ∉ (loweredName <$> l).
Proof.
  unfold named. induction l as [|x l IH]; cbn.
  - split; [intros _; apply not_elem_of_nil | reflexivity].
  - rewrite orb_false_iff, IH, not_elem_of_cons, bool_decide_eq_false. reflexivity.
Qed.

(** [SaveEvent] fails exactly when [GetEvent] finds an event under the
    name, ignoring case, and then leaves the database as it was.  Otherwise
    the event is appended, [GetEvent] returns it under every spelling of its
    name, and answers every other name as before. *)
Theorem SaveEvent_GetEvent (d : BaseDatabase) (ed : EventDefinition) :
  (snd (GetEvent d (event_Name ed)) = true
   ∧ SaveEvent d ed = (d, Some (ErrEventAlreadyExists (event_Name ed))))
  ∨ (snd (GetEvent d (event_Name ed)) = false
     ∧ SaveEvent d ed = (with_events d (events d ++ [ed]), None)
     ∧ ∀ n, GetEvent (with_events d (events d ++ [ed])) n
            = if bool_decide (ToLower n = ToLower (event_Name ed)) then (ed, true)
              else GetEvent d n).
Proof.
  rewrite GetEvent_found. unfold SaveEvent. rewrite named_saved.
  destruct (named (event_Name ed) (events d)) eqn:Hnamed; [left; now split|].
  right. split_and!; [reflexivity | reflexivity |].
  intros n. unfold GetEvent. cbn [events with_events]. rewrite findFirst_app.
  rewrite named_eq. case_bool_decide as Hn.
  - assert (named n (events d) = false) as ->.
    { apply named_elem_of. rewrite Hn. now apply named_elem_of. }
    cbn. now rewrite bool_decide_true.
  - destruct (named n (events d)) eqn:Hl; [reflexivity|].
    cbn. rewrite bool_decide_false by exact Hn.
    symmetry. now apply findFirst_none.
Qed.

(** Saving and dropping keep the names of the events distinct (ignoring
    case), whether they succeed or fail; a new database has no events. *)
Theorem events_unique_preserved (d : BaseDatabase) (ed : EventDefinition) (n : string) :
  uniqueNames d →
  uniqueNames (fst (SaveEvent d ed)) ∧ uniqueNames (fst (DropEvent d n)).
Proof.
  unfold uniqueNames. intros Hd. split.
  - unfold SaveEvent. rewrite named_saved.
    destruct (named (event_Name ed) (events d)) eqn:Hnamed; cbn; [exact Hd|].
    rewrite fmap_app. apply NoDup_app. split_and!; [exact Hd | | apply NoDup_singleton].
    intros x Hx. cbn. rewrite list_elem_of_singleton. intros ->.
    now apply named_elem_of in Hnamed.
  - unfold DropEvent. rewrite dropFirst_removeFirst.
    assert (NoDup (loweredName <$> removeFirst
              (λ ed0, bool_decide (ToLower (event_Name ed0) = ToLower n)) (events d))).
    { eapply sublist_NoDup; [exact Hd|]. apply fmap_sublist, removeFirst_sublist. }
    now destruct (existsb _ (events d)).
Qed.

(** Dropping an event that was just saved gives back the database as it
    was before. *)
Theorem SaveEvent_DropEvent (d d' : BaseDatabase) (ed : EventDefinition) :
  SaveEvent d ed = (d', None) →
  DropEvent d' (event_Name ed) = (d, None).
Proof.
  unfold SaveEvent, DropEvent.
  destruct (existsb _ (events d)) eqn:Hex; [discriminate|].
  intros [= <-]. cbn [events with_events]. rewrite dropFirst_removeFirst.
  rewrite existsb_app, Hex. cbn. rewrite bool_decide_true by reflexivity. cbn.
  rewrite removeFirst_snoc by (try exact Hex; now apply bool_decide_eq_true).
  f_equal. now destruct d.
Qed.



(** ** Events: [UpdateEvent] *)

(** The loop of [UpdateEvent] by the structure of the list it has yet to
    visit: what becomes of that part, [found], and the error. *)
Fixpoint updateRest (lo ln : string) (ed : EventDefinition) (found : bool)
    (rest : list EventDefinition) : list EventDefinition * bool * option DbError :=
  match rest with
  | [] => ([], found, None)
  | existingEd :: rest' =>
      if negb (bool_decide (lo = ln)) && bool_decide (ToLower (event_Name existingEd) = ln)
      then (existingEd :: rest', found, Some (ErrEventAlreadyExists ln))
      else if bool_decide (ToLower (event_Name existingEd) = lo)
      then let '(r, f, e) := updateRest lo ln ed true rest' in (ed :: r, f, e)
      else let '(r, f, e) := updateRest lo ln ed found rest' in (existingEd :: r, f, e)
  end.

Lemma updateLoop_updateRest (lo ln : string) (ed : EventDefinition)
    (done rest : list EventDefinition) (found : bool) :
  updateLoop lo ln ed (done ++ rest) (length done) found rest
  = let '(r, f, e) := updateRest lo ln ed found rest in (done ++ r, f, e).
Proof.
  revert done found. induction rest as [|x rest IH]; intros done found; cbn.
  - now rewrite app_nil_r.
  - destruct (negb (bool_decide (lo = ln)) && bool_decide (ToLower (event_Name x) = ln));
      [reflexivity|].
    destruct (bool_decide (ToLower (event_Name x) = lo)).
    + replace (<[length done:=ed]> (done ++ x :: rest)) with ((done ++ [ed]) ++ rest).
      2:{ replace (length done) with (length done + 0) by lia.
          rewrite insert_app_r. cbn. now rewrite <- app_assoc. }
      replace (S (length done)) with (length (done ++ [ed]))
        by (rewrite length_app; cbn; lia).
      rewrite IH. destruct (updateRest lo ln ed true rest) as [[r f] e].
      now rewrite <- app_assoc.
    + replace (done ++ x :: rest) with ((done ++ [x]) ++ rest) by now rewrite <- app_assoc.
      replace (S (length done)) with (length (done ++ [x]))
        by (rewrite length_app; cbn; lia).
      rewrite IH. destruct (updateRest lo ln ed found rest) as [[r f] e].
      now rewrite <- app_assoc.
Qed.

Lemma updateRest_skip (lo ln : string) (ed : EventDefinition) (found : bool)
    (pre rest : list EventDefinition) :
  lo ∉ (loweredName <$> pre) →
  lo = ln ∨ ln ∉ (loweredName <$> pre) →
  updateRest lo ln ed found (pre ++ rest)
  = let '(r, f, e) := updateRest lo ln ed found rest in (pre ++ r, f, e).
Proof.
  induction pre as [|x pre IH]; cbn; intros Hlo Hln.
  - now destruct (updateRest lo ln ed found rest) as [[r f] e].
  - apply not_elem_of_cons in Hlo as [Hx Hlo]. unfold loweredName at 1 in Hx.
    assert (negb (bool_decide (lo = ln)) && bool_decide (ToLower (event_Name x) = ln)
            = false) as ->.
    { destruct Hln as [->|Hln].
      - now rewrite bool_decide_true.
      - apply not_elem_of_cons in Hln as [Hxn _]. unfold loweredName in Hxn.
        rewrite (bool_decide_false (ToLower (event_Name x) = ln)) by congruence.
        apply andb_false_r. }
    rewrite (bool_decide_false (ToLower (event_Name x) = lo)) by congruence.
    rewrite IH.
    + now destruct (updateRest lo ln ed found rest) as [[r f] e].
    + exact Hlo.
    + destruct Hln as [->|Hln]; [now left|]. right.
      now apply not_elem_of_cons in Hln as [_ Hln].
Qed.

Lemma UpdateEvent_updateRest (d : BaseDatabase) (originalName : string)
    (ed : EventDefinition) (r : list EventDefinition) (f : bool) (e : option DbError) :
  updateRest (ToLower originalName) (loweredName ed) ed false (events d) = (r, f, e) →
  UpdateEvent d originalName ed
  = match e with
    | Some err => (with_events d r, Some err)
    | None => if negb f then (with_events d r, Some (ErrEventDoesNotExist (event_Name ed)))
              else (with_events d r, None)
    end.
Proof.
  intros Hrest. unfold UpdateEvent.
  pose proof (updateLoop_updateRest (ToLower originalName) (loweredName ed) ed []
                (events d) false) as Hloop.
  cbn [app length] in Hloop. unfold loweredName in Hloop, Hrest.
  rewrite Hloop, Hrest. reflexivity.
Qed.

Lemma unique_middle (l1 l2 : list EventDefinition) (x : EventDefinition) :
  NoDup (loweredName <$> (l1 ++ x :: l2)) →
  (loweredName x ∉ (loweredName <$> l1)) ∧ (loweredName x ∉ (loweredName <$> l2)).
Proof.
  rewrite fmap_app, fmap_cons. intros Hnd.
  apply NoDup_app in Hnd as (_ & Hdisj & Hnd).
  apply NoDup_cons in Hnd as [Hx _]. split; [|exact Hx].
  intros Hin. apply (Hdisj _ Hin). apply list_elem_of_here.
Qed.

(** Renaming an event to a name that a later event holds is refused, but
    not before the original is overwritten.  On a database whose events have
    distinct names, if the event called [originalName] stands before the one
    that holds the new name, [UpdateEvent] returns [ErrEventAlreadyExists] and
    leaves the new definition in the place of the original: the original name
    is no longer found, and two events answer to the new name. *)
Theorem UpdateEvent_conflict_overwrites (d : BaseDatabase) (originalName : string)
    (ed a b : EventDefinition) (pre mid post : list EventDefinition) :
  uniqueNames d →
  events d = pre ++ a :: mid ++ b :: post →
  loweredName a = ToLower originalName →
  loweredName b = loweredName ed →
  ToLower originalName ≠ loweredName ed →
  UpdateEvent d originalName ed
  = (with_events d (pre ++ ed :: mid ++ b :: post),
     Some (ErrEventAlreadyExists (ToLower (event_Name ed))))
  ∧ ¬ uniqueNames (with_events d (pre ++ ed :: mid ++ b :: post))
  ∧ GetEvent (with_events d (pre ++ ed :: mid ++ b :: post)) originalName
    = (zeroEvent, false).
Proof.
  unfold uniqueNames. intros Hd Hev Ha Hb Hne. rewrite Hev in Hd.
  destruct (unique_middle _ _ _ Hd) as [Ha_pre Ha_rest].
  rewrite fmap_app, fmap_cons in Ha_rest.
  apply not_elem_of_app in Ha_rest as [Ha_mid Ha_post].
  apply not_elem_of_cons in Ha_post as [_ Ha_post].
  pose proof Hd as Hd2.
  replace (pre ++ a :: mid ++ b :: post) with ((pre ++ a :: mid) ++ b :: post) in Hd2
    by now rewrite <- app_assoc.
  destruct (unique_middle _ _ _ Hd2) as [Hb_front _].
  rewrite fmap_app, fmap_cons in Hb_front.
  apply not_elem_of_app in Hb_front as [Hb_pre Hb_mid].
  apply not_elem_of_cons in Hb_mid as [_ Hb_mid].
  rewrite Ha in Ha_pre, Ha_mid, Ha_post. rewrite Hb in Hb_pre, Hb_mid.
  split_and!.
  - assert (Hrest : updateRest (ToLower originalName) (loweredName ed) ed false (events d)
                    = (pre ++ ed :: mid ++ b :: post, true,
                       Some (ErrEventAlreadyExists (loweredName ed)))).
    { rewrite Hev, updateRest_skip by (try right; assumption).
      cbn. unfold loweredName in Ha, Hb, Hne |- *. rewrite Ha.
      rewrite (bool_decide_false _ Hne).
      rewrite (bool_decide_true (ToLower originalName = ToLower originalName))
        by reflexivity.
      cbn. fold (loweredName ed).
      rewrite updateRest_skip by (try right; assumption).
      cbn. unfold loweredName. rewrite Hb.
      rewrite (bool_decide_false _ Hne).
      rewrite (bool_decide_true (ToLower (event_Name ed) = ToLower (event_Name ed)))
        by reflexivity.
      reflexivity. }
    now rewrite (UpdateEvent_updateRest _ _ _ _ _ _ Hrest).
  - cbn [events with_events]. rewrite fmap_app, fmap_cons, fmap_app, fmap_cons.
    intros Hnd. apply NoDup_app in Hnd as (_ & _ & Hnd).
    apply NoDup_cons in Hnd as [Hin _]. apply Hin.
    apply elem_of_app. right. rewrite Hb. apply list_elem_of_here.
  - unfold GetEvent. apply findFirst_none. rewrite named_eq. apply named_elem_of.
    cbn [events with_events]. rewrite fmap_app, fmap_cons, fmap_app, fmap_cons.
    rewrite not_elem_of_app, not_elem_of_cons, not_elem_of_app, not_elem_of_cons.
    rewrite Hb. split_and!; assumption.
Qed.

(** When the new name is free, or is the old name in another spelling,
    [UpdateEvent] succeeds on a database whose events have distinct names: the
    new definition stands where the original stood, the names stay distinct,
    and [GetEvent] returns the new definition under its name. *)
Theorem UpdateEvent_replaces (d : BaseDatabase) (originalName : string)
    (ed a : EventDefinition) (pre post : list EventDefinition) :
  uniqueNames d →
  events d = pre ++ a :: post →
  loweredName a = ToLower originalName →
  ToLower originalName = loweredName ed ∨ snd (GetEvent d (event_Name ed)) = false →
  UpdateEvent d originalName ed = (with_events d (pre ++ ed :: post), None)
  ∧ uniqueNames (with_events d (pre ++ ed :: post))
  ∧ GetEvent (with_events d (pre ++ ed :: post)) (event_Name ed) = (ed, true).
Proof.
  unfold uniqueNames. intros Hd Hev Ha Hnew. rewrite Hev in Hd.
  destruct (unique_middle _ _ _ Hd) as [Ha_pre Ha_post].
  rewrite Ha in Ha_pre, Ha_post.
  assert ((loweredName ed ∉ (loweredName <$> pre))
          ∧ (loweredName ed ∉ (loweredName <$> post)))
    as [Hn_pre Hn_post].
  { destruct Hnew as [<-|Hfree]; [now split|].
    rewrite GetEvent_found in Hfree. apply named_elem_of in Hfree.
    rewrite Hev, fmap_app, fmap_cons in Hfree.
    apply not_elem_of_app in Hfree as [Hpre Hpost].
    apply not_elem_of_cons in Hpost as [_ Hpost]. now split. }
  assert (Hskip : ∀ l : list EventDefinition, loweredName ed ∉ (loweredName <$> l) →
            ToLower originalName = loweredName ed ∨ loweredName ed ∉ (loweredName <$> l)).
  { intros l Hl. now right. }
  split_and!.
  - assert (Hrest : updateRest (ToLower originalName) (loweredName ed) ed false (events d)
                    = (pre ++ ed :: post, true, None)).
    { rewrite Hev, updateRest_skip by auto.
      pose proof (updateRest_skip (ToLower originalName) (loweredName ed) ed true post []
                    Ha_post (Hskip _ Hn_post)) as Hpost.
      rewrite app_nil_r in Hpost. cbn in Hpost.
      cbn. unfold loweredName in Ha |- *. rewrite Ha.
      assert (negb (bool_decide (ToLower originalName = ToLower (event_Name ed)))
              && bool_decide (ToLower originalName = ToLower (event_Name ed)) = false) as ->
        by (now destruct (bool_decide (ToLower originalName = ToLower (event_Name ed)))).
      rewrite (bool_decide_true (ToLower originalName = ToLower originalName))
        by reflexivity.
      fold (loweredName ed). rewrite Hpost. now rewrite app_nil_r. }
    now rewrite (UpdateEvent_updateRest _ _ _ _ _ _ Hrest).
  - cbn [events with_events]. rewrite fmap_app, fmap_cons.
    rewrite fmap_app, fmap_cons in Hd.
    apply NoDup_app in Hd as (Hpre & Hdisj & Hrest).
    apply NoDup_cons in Hrest as [_ Hpost].
    apply NoDup_app. split_and!; [exact Hpre | | apply NoDup_cons; now split].
    intros x Hx Hin. apply elem_of_cons in Hin as [->|Hin]; [now apply Hn_pre|].
    apply (Hdisj x Hx). now apply list_elem_of_further.
  - unfold GetEvent. cbn [events with_events]. rewrite findFirst_app, named_eq.
    assert (named (event_Name ed) pre = false) as -> by now apply named_elem_of.
    cbn. now rewrite bool_decide_true.
Qed.

Lemma updateRest_missing (lo ln : string) (ed : EventDefinition) (found : bool)
    (l : list EventDefinition) :
  lo ∉ (loweredName <$> l) →
  updateRest lo ln ed found l
  = (l, found,
     if negb (bool_decide (lo = ln)) && bool_decide (ln ∈ (loweredName <$> l))
     then Some (ErrEventAlreadyExists ln) else None).
Proof.
  induction l as [|x l IH]; cbn; intros Hlo.
  - now rewrite andb_false_r.
  - apply not_elem_of_cons in Hlo as [Hx Hlo]. unfold loweredName at 1 in Hx.
    destruct (bool_decide (lo = ln)) eqn:Hlon; cbn.
    + rewrite (bool_decide_false (ToLower (event_Name x) = lo)) by congruence.
      rewrite (IH Hlo), ?Hlon. reflexivity.
    + destruct (bool_decide (ToLower (event_Name x) = ln)) eqn:Hxn.
      * apply bool_decide_eq_true in Hxn.
        rewrite bool_decide_true; [reflexivity|]. rewrite <- Hxn. apply list_elem_of_here.
      * apply bool_decide_eq_false in Hxn.
        rewrite (bool_decide_false (ToLower (event_Name x) = lo)) by congruence.
        rewrite (IH Hlo), ?Hlon. cbn.
        rewrite (bool_decide_ext (ln ∈ loweredName x :: (loweredName <$> l))
                   (ln ∈ (loweredName <$> l))); [reflexivity|].
        rewrite elem_of_cons. unfold loweredName at 1. split; [|now right].
        intros [->|Hin]; [congruence | exact Hin].
Qed.

(** When no event answers to [originalName], [UpdateEvent] changes
    nothing and returns an error: [ErrEventAlreadyExists] if the new name is
    another name and is taken, and otherwise [ErrEventDoesNotExist], which
    names the new definition, not [originalName]. *)
Theorem UpdateEvent_missing_original (d : BaseDatabase) (originalName : string)
    (ed : EventDefinition) :
  snd (GetEvent d originalName) = false →
  UpdateEvent d originalName ed
  = (d, Some (if negb (bool_decide (ToLower originalName = ToLower (event_Name ed)))
                 && snd (GetEvent d (event_Name ed))
              then ErrEventAlreadyExists (ToLower (event_Name ed))
              else ErrEventDoesNotExist (event_Name ed))).
Proof.
  rewrite !GetEvent_found. intros Hmiss. apply named_elem_of in Hmiss.
  rewrite (UpdateEvent_updateRest _ _ _ _ _ _
             (updateRest_missing _ (loweredName ed) ed false _ Hmiss)).
  rewrite with_events_events. unfold loweredName at 1 2.
  destruct (bool_decide (ToLower originalName = ToLower (event_Name ed))); cbn;
    [reflexivity|].
  destruct (named (event_Name ed) (events d)) eqn:Hnamed.
  - rewrite bool_decide_true; [reflexivity|].
    destruct (decide (loweredName ed ∈ (loweredName <$> events d))) as [Hin|Hnin];
      [exact Hin|].
    apply named_elem_of in Hnin. congruence.
  - apply named_elem_of in Hnamed. now rewrite bool_decide_false.
Qed.

(** ** Stored procedures and triggers *)

(** A stored procedure that was saved is found under its name, and
    dropping it gives back the database as it was before. *)
Theorem SaveStoredProcedure_round_trip (d d' : BaseDatabase) (spd : StoredProcedureDetails) :
  SaveStoredProcedure d spd = (d', None) →
  GetStoredProcedure d' (spd_Name spd) = (spd, true)
  ∧ DropStoredProcedure d' (spd_Name spd) = (d, None).
Proof.
  unfold SaveStoredProcedure, GetStoredProcedure, DropStoredProcedure.
  destruct (existsb _ (storedProcedures d)) eqn:Hex; [discriminate|].
  intros [= <-]. cbn [storedProcedures with_storedProcedures]. split.
  - rewrite findFirst_app.
    erewrite (existsb_eq _ (λ existingSpd,
                bool_decide (ToLower (spd_Name existingSpd) = ToLower (spd_Name spd)))).
    + rewrite Hex. cbn. now rewrite bool_decide_true.
    + intros x. apply bool_decide_ext. split; congruence.
  - rewrite dropFirst_removeFirst, existsb_app, Hex. cbn.
    rewrite bool_decide_true by reflexivity. cbn.
    rewrite removeFirst_snoc by (try exact Hex; now apply bool_decide_eq_true).
    f_equal. now destruct d.
Qed.

Lemma removeFirst_split {A : Type} (p : A → bool) (l : list A) :
  existsb p l = true →
  ∃ pre x post,
    l = pre ++ x :: post ∧ p x = true ∧ existsb p pre = false
    ∧ removeFirst p l = pre ++ post.
Proof.
  induction l as [|y l IH]; cbn; [discriminate|].
  destruct (p y) eqn:Hy; cbn.
  - intros _. now exists [], y, l.
  - intros Hl. destruct (IH Hl) as (pre & x & post & -> & Hx & Hpre & Hrem).
    exists (y :: pre), x, post. cbn. rewrite Hy, Hrem. now split_and!.
Qed.

Lemma trigger_named (n : string) (l : list TriggerDefinition) :
  existsb (λ trigger, bool_decide (trigger_Name trigger = n)) l = false
  ↔ n ∉ (trigger_Name <$> l).
Proof.
  induction l as [|x l IH]; cbn.
  - split; [intros _; apply not_elem_of_nil | reflexivity].
  - rewrite orb_false_iff, IH, not_elem_of_cons, bool_decide_eq_false.
    split; intros [Hx Hl]; split; congruence.
Qed.

(** Triggers are found by their exact name, and several may share one.
    [DropTrigger] removes the oldest trigger of the name and keeps the others;
    when there is none it returns [ErrTriggerDoesNotExist] and changes
    nothing. *)
Theorem DropTrigger_first (d : BaseDatabase) (n : string) :
  ((n ∉ (trigger_Name <$> triggers d))
   ∧ DropTrigger d n = (d, Some (ErrTriggerDoesNotExist n)))
  ∨ (∃ pre t post,
       triggers d = pre ++ t :: post
       ∧ trigger_Name t = n
       ∧ (n ∉ (trigger_Name <$> pre))
       ∧ DropTrigger d n = (with_triggers d (pre ++ post), None)).
Proof.
  unfold DropTrigger. rewrite dropFirst_removeFirst.
  destruct (existsb (λ trigger, bool_decide (trigger_Name trigger = n)) (triggers d))
    eqn:Hex; cbn.
  - right. destruct (removeFirst_split _ _ Hex) as (pre & t & post & Hl & Ht & Hpre & Hrem).
    exists pre, t, post. rewrite Hrem.
    split_and!; [exact Hl | now apply bool_decide_eq_true in Ht
                | now apply trigger_named | reflexivity].
  - left. split; [now apply trigger_named|].
    rewrite removeFirst_none by exact Hex. now rewrite with_triggers_triggers.
Qed.

(** ** Tables, views and revisions *)

(** Tables are kept under their exact name.  [CreateTable] fails with
    [ErrTableAlreadyExists] exactly when the name is taken, and then changes
    nothing; otherwise the new table is found under the name, every other
    name is as before, and [DropTable] of the name gives back the database as
    it was. *)
Theorem CreateTable_DropTable (d : BaseDatabase) (n : string) (schema : PrimaryKeySchema)
    (c : CollationID) :
  (is_Some (tables d !! n) ∧ CreateTable d n schema c = (d, Some (ErrTableAlreadyExists n)))
  ∨ (tables d !! n = None
     ∧ ∃ d', CreateTable d n schema c = (d', None)
       ∧ is_Some (tables d' !! n)
       ∧ (∀ n', n' ≠ n → tables d' !! n' = tables d !! n')
       ∧ DropTable d' n = (d, None)).
Proof.
  unfold CreateTable. destruct (tables d !! n) as [t|] eqn:Hn.
  - left. now split.
  - right. split; [reflexivity|]. eexists. split; [reflexivity|].
    cbn [tables with_tables]. split_and!.
    + rewrite lookup_insert_eq. now eexists.
    + intros n' Hn'. now rewrite lookup_insert_ne.
    + unfold DropTable. cbn [tables with_tables]. rewrite lookup_insert_eq.
      rewrite delete_insert_eq, delete_id by exact Hn. f_equal. now destruct d.
Qed.

(** [DropTable] fails with [ErrTableNotFound] exactly when no table has
    the name, and then changes nothing; otherwise the name is free afterwards
    and every other name is as before. *)
Theorem DropTable_lookup (d : BaseDatabase) (n : string) :
  (tables d !! n = None ∧ DropTable d n = (d, Some (ErrTableNotFound n)))
  ∨ (is_Some (tables d !! n)
     ∧ ∃ d', DropTable d n = (d', None)
       ∧ ∀ n', tables d' !! n' = if bool_decide (n' = n) then None else tables d !! n').
Proof.
  unfold DropTable. destruct (tables d !! n) as [t|] eqn:Hn.
  - right. split; [now eexists|]. eexists. split; [reflexivity|].
    intros n'. cbn [tables with_tables]. case_bool_decide as Hn'.
    + subst. apply lookup_delete_eq.
    + now apply lookup_delete_ne.
  - left. now split.
Qed.

(** A view that was created is returned under its exact name with the
    two statements it was created with, and dropping it gives back the
    database as it was; [CreateView] fails with [ErrExistingView] exactly when
    [GetViewDefinition] finds the name, and then changes nothing. *)
Theorem CreateView_round_trip (d : Database) (n selectStatement createViewStmt : string) :
  (snd (GetViewDefinition d n) = true
   ∧ CreateView d n selectStatement createViewStmt = (d, Some (ErrExistingView n)))
  ∨ (snd (GetViewDefinition d n) = false
     ∧ ∃ d', CreateView d n selectStatement createViewStmt = (d', None)
       ∧ GetViewDefinition d' n
         = (newViewDefinition n selectStatement createViewStmt, true)
       ∧ (∀ n', n' ≠ n → GetViewDefinition d' n' = GetViewDefinition d n')
       ∧ DropView d' n = (d, None)).
Proof.
  unfold CreateView, GetViewDefinition. destruct (views d !! n) as [v|] eqn:Hn.
  - left. now split.
  - right. split; [reflexivity|]. eexists. split; [reflexivity|].
    cbn [views with_views]. split_and!.
    + now rewrite lookup_insert_eq.
    + intros n' Hn'. now rewrite lookup_insert_ne.
    + unfold DropView. cbn [views with_views]. rewrite lookup_insert_eq.
      unfold with_views. cbn [base views].
      rewrite delete_insert_eq, delete_id by exact Hn. now destruct d.
Qed.


End Memory.


(** ** A database of events and procedures *)

(** ASCII lower case, standing for [strings.ToLower] on ASCII names. *)
Definition lowerAscii (c : ascii) : ascii :=
  let n := nat_of_ascii c in
  if (65 <=? n) && (n <=? 90) then ascii_of_nat (n + 32) else c.

Fixpoint lower (s : string) : string :=
  match s with
  | EmptyString => EmptyString
  | String c s' => String (lowerAscii c) (lower s')
  end.

(** Definitions are a name and a body; tables are numbers. *)
Definition definition : Type := string * string.

Definition mydb (procedures evs : list definition)
  : @BaseDatabase nat definition definition definition unit unit :=
  {| name := "mydb"; tables := ∅; fkColl := (); triggers := []; storedProcedures := procedures;
     events := evs; primaryKeyIndexes := false; collation := () |}.

Lemma events_unique_preserved_witness :
  uniqueNames lower fst (fst (SaveEvent lower fst (mydb [] [("E1", "a")]) ("e2", "b")))
  ∧ uniqueNames lower fst (fst (DropEvent lower fst (mydb [] [("E1", "a")]) "e1")).
Proof.
  apply (events_unique_preserved lower fst (mydb [] [("E1", "a")]) ("e2", "b") "e1").
  vm_compute. apply NoDup_singleton.
Defined.

Lemma SaveEvent_DropEvent_witness :
  DropEvent lower fst (mydb [] [("a", "1"); ("B", "2")]) "B" = (mydb [] [("a", "1")], None).
Proof.
  apply (SaveEvent_DropEvent lower fst (mydb [] [("a", "1")])
           (mydb [] [("a", "1"); ("B", "2")]) ("B", "2")).
  reflexivity.
Defined.


Lemma UpdateEvent_conflict_overwrites_witness :
  UpdateEvent lower fst (mydb [] [("a", "1"); ("b", "2")]) "A" ("B", "3")
  = (mydb [] [("B", "3"); ("b", "2")], Some (ErrEventAlreadyExists "b"))
  ∧ ¬ uniqueNames lower fst (mydb [] [("B", "3"); ("b", "2")])
  ∧ GetEvent lower fst ("", "") (mydb [] [("B", "3"); ("b", "2")]) "A" = (("", ""), false).
Proof.
  apply (UpdateEvent_conflict_overwrites lower fst ("", "")
           (mydb [] [("a", "1"); ("b", "2")]) "A" ("B", "3") ("a", "1") ("b", "2")
           [] [] []).
  - vm_compute. apply (bool_decide_unpack _). vm_compute. exact I.
  - reflexivity.
  - reflexivity.
  - reflexivity.
  - vm_compute. discriminate.
Defined.

Lemma UpdateEvent_replaces_witness :
  UpdateEvent lower fst (mydb [] [("a", "1"); ("b", "2")]) "B" ("c", "3")
  = (mydb [] [("a", "1"); ("c", "3")], None)
  ∧ uniqueNames lower fst (mydb [] [("a", "1"); ("c", "3")])
  ∧ GetEvent lower fst ("", "") (mydb [] [("a", "1"); ("c", "3")]) "c" = (("c", "3"), true).
Proof.
  apply (UpdateEvent_replaces lower fst ("", "") (mydb [] [("a", "1"); ("b", "2")]) "B"
           ("c", "3") ("b", "2") [("a", "1")] []).
  - vm_compute. apply (bool_decide_unpack _). vm_compute. exact I.
  - reflexivity.
  - reflexivity.
  - right. reflexivity.
Defined.

Lemma UpdateEvent_missing_original_witness :
  UpdateEvent lower fst (mydb [] [("a", "1")]) "zz" ("A", "9")
  = (mydb [] [("a", "1")], Some (ErrEventAlreadyExists "a")).
Proof.
  apply (UpdateEvent_missing_original lower fst ("", "") (mydb [] [("a", "1")]) "zz"
           ("A", "9")).
  reflexivity.
Defined.

Lemma SaveStoredProcedure_round_trip_witness :
  GetStoredProcedure lower fst ("", "") (mydb [("p", "1"); ("Q", "2")] []) "Q"
  = (("Q", "2"), true)
  ∧ DropStoredProcedure lower fst (mydb [("p", "1"); ("Q", "2")] []) "Q"
    = (mydb [("p", "1")] [], None).
Proof.
  apply (SaveStoredProcedure_round_trip lower fst ("", "") (mydb [("p", "1")] [])
           (mydb [("p", "1"); ("Q", "2")] []) ("Q", "2")).
  reflexivity.
Defined.

(** Two triggers of one name: the older one is dropped. *)
Example DropTrigger_oldest :
  DropTrigger (Table := nat) (StoredProcedureDetails := definition)
    (EventDefinition := definition) (ForeignKeyCollection := unit) (CollationID := unit) fst
    {| name := "mydb"; tables := ∅; fkColl := ();
       triggers := [("t", "old"); ("T", "other"); ("t", "new")];
       storedProcedures := []; events := []; primaryKeyIndexes := false; collation := () |}
    "t"
  = ({| name := "mydb"; tables := ∅; fkColl := ();
        triggers := [("T", "other"); ("t", "new")];
        storedProcedures := []; events := []; primaryKeyIndexes := false; collation := () |},
     None).
Proof. reflexivity. Qed.

(** A history database of tables that are numbers ([0] is the nil table),
    revisions that are numbers, and an unversioned lookup that finds
    nothing. *)
Definition history : @HistoryDatabase nat definition definition definition definition
                       unit unit nat _ _ :=
  NewHistoryDatabase () () "mydb".

Definition noTable (_ : string) (_ : gmap string nat) : nat * bool := (0, false).

(** After [T] is added as of revision 1: revision 1 is found under [t],
    revision 2 and a NaN are not found and are not looked up among the
    current tables, and a revision that cannot be hashed panics; a table
    without revisions is looked up among the current tables. *)
Example AddTableAsOf_then_lookup :
  ∃ db',
    AddTableAsOf lower history "T" 7 (Comparable 1) = Ok db'
    ∧ GetTableInsensitiveAsOf lower noTable 0 db' "t" (Comparable 1) = Ok (7, true, None)
    ∧ GetTableInsensitiveAsOf lower noTable 0 db' "t" (Comparable 2)
      = Ok (0, false, Some (ErrTableNotFound "t"))
    ∧ GetTableInsensitiveAsOf lower noTable 0 db' "t" NeverEqual
      = Ok (0, false, Some (ErrTableNotFound "t"))
    ∧ GetTableInsensitiveAsOf lower noTable 0 db' "t" Unhashable = Panic
    ∧ GetTableInsensitiveAsOf lower noTable 0 db' "u" (Comparable 1) = Ok (0, false, None).
Proof. eexists. split_and!; reflexivity. Qed.

(** A database whose [Revisions] map is nil, and a revision that cannot be
    hashed. *)
Example AddTableAsOf_panics :
  AddTableAsOf lower
    {| database := database history; Revisions := None; currRevision := None |}
    "T" 7 (Comparable 1) = Panic
  ∧ AddTableAsOf lower history "T" 7 Unhashable = Panic.
Proof. split; reflexivity. Qed.

End Memory.
